(** * SageDB: storage engine, hash ring, replicator and router

    A shallow embedding of [fastdb.js], [hash.js], [shard.js] and
    [coordinator.js], and the properties of the specification checked
    against it.

    Conventions of the embedding.
    - A JavaScript string is a Rocq [string], read as the bytes of its UTF-8
      encoding; [Buffer.from(s)] and [buf.toString()] are then the two
      directions of [list_byte_of_string] / [string_of_list_byte].  Byte
      sequences that are not well-formed UTF-8 (for which Node substitutes
      U+FFFD) are outside this reading.
    - A JavaScript number that is an index, a length or a 32-bit field is a
      [Z]; the 32-bit wrap-around of [>>>] is written out.
    - [JSON.parse], [JSON.stringify], SHA-1 and [Array.prototype.sort]
      belong to the runtime, not to the repository: the definitions take
      them as parameters.  For running the definitions on concrete inputs a
      reference JSON reader and printer for a fragment ([MiniJSON]), a
      reference SHA-1 ([Sha1]) and two stable sorts are provided.
    - Code that throws returns [Throw e]; a loop that has not finished when
      the model's fuel is spent returns [Running]. *)

From Stdlib Require Import ZArith Lia List String Ascii DecimalString.
From Stdlib.Strings Require Import Byte.
From Stdlib Require Import Sorted.
From stdpp Require Import base gmap strings list.

Set Warnings "-register-all".

Local Open Scope string_scope.
Local Open Scope list_scope.
Local Open Scope Z_scope.

(* ================================================================== *)
(** * Part I: the program                                              *)
(* ================================================================== *)

(** ** The JavaScript runtime as far as the program uses it *)

Module Runtime.

Inductive exn :=
| RangeError      (* ERR_OUT_OF_RANGE of the Buffer accessors *)
| TypeError       (* property read on undefined *)
| DBClosed.       (* new Error('DB closed') *)

Inductive outcome (A : Type) :=
| Ok (a : A)
| Throw (e : exn)
| Running.
Arguments Ok {A} a.
Arguments Throw {A} e.
Arguments Running {A}.

Definition bind {A B} (m : outcome A) (k : A -> outcome B) : outcome B :=
  match m with
  | Ok a => k a
  | Throw e => Throw e
  | Running => Running
  end.

(** JavaScript values that reach the engine: a request body (a string) or
    the result of [JSON.parse].  A number is carried by its canonical
    rendering, the string [String(n)] returns. *)
Inductive jsvalue :=
| JNull
| JBool (b : bool)
| JNumber (lit : string)
| JString (s : string)
| JArray (items : list jsvalue)
| JObject (fields : list (string * jsvalue)).

Inductive jstype := TObject | TBoolean | TNumber | TString.

Definition typeof (v : jsvalue) : jstype :=
  match v with
  | JNull => TObject
  | JBool _ => TBoolean
  | JNumber _ => TNumber
  | JString _ => TString
  | JArray _ => TObject
  | JObject _ => TObject
  end.

Definition is_object (v : jsvalue) : bool :=
  match typeof v with TObject => true | _ => false end.

Definition is_null (v : jsvalue) : bool :=
  match v with JNull => true | _ => false end.

Fixpoint join (sep : string) (l : list string) : string :=
  match l with
  | [] => ""
  | [s] => s
  | s :: rest => s +:+ sep +:+ join sep rest
  end.

(** [String(v)] *)
Fixpoint to_String (v : jsvalue) : string :=
  match v with
  | JNull => "null"
  | JBool true => "true"
  | JBool false => "false"
  | JNumber lit => lit
  | JString s => s
  | JArray items =>
      join "," (List.map (fun x => match x with
                                   | JNull => ""
                                   | _ => to_String x
                                   end) items)
  | JObject _ => "[object Object]"
  end.

(** *** Buffers *)

Abbreviation Buffer := (list byte).

Definition byte_of_Z (z : Z) : byte :=
  match Byte.of_N (Z.to_N (z mod 256)) with
  | Some b => b
  | None => x00
  end.

Definition Z_of_byte (b : byte) : Z := Z.of_N (Byte.to_N b).

Definition blen (b : Buffer) : Z := Z.of_nat (List.length b).

Definition Buffer_from (s : string) : Buffer := list_byte_of_string s.
Definition Buffer_toString (b : Buffer) : string := string_of_list_byte b.
Definition Buffer_alloc (n : Z) : Buffer := List.repeat x00 (Z.to_nat n).
Definition Buffer_concat (l : list Buffer) : Buffer := List.concat l.

Definition byte_at (b : Buffer) (i : Z) : Z :=
  match b !! Z.to_nat i with
  | Some x => Z_of_byte x
  | None => 0
  end.

Definition readUInt8 (b : Buffer) (offset : Z) : outcome Z :=
  if (0 <=? offset) && (offset <=? blen b - 1)
  then Ok (byte_at b offset)
  else Throw RangeError.

Definition readUInt32BE (b : Buffer) (offset : Z) : outcome Z :=
  if (0 <=? offset) && (offset <=? blen b - 4)
  then Ok (byte_at b offset * 2 ^ 24
           + byte_at b (offset + 1) * 2 ^ 16
           + byte_at b (offset + 2) * 2 ^ 8
           + byte_at b (offset + 3))
  else Throw RangeError.

Definition set_byte (b : Buffer) (i : Z) (v : Z) : Buffer :=
  <[Z.to_nat i := byte_of_Z v]> b.

Definition writeUInt8 (b : Buffer) (v offset : Z) : outcome Buffer :=
  if (0 <=? v) && (v <=? 255) && (0 <=? offset) && (offset <=? blen b - 1)
  then Ok (set_byte b offset v)
  else Throw RangeError.

Definition writeUInt32BE (b : Buffer) (v offset : Z) : outcome Buffer :=
  if (0 <=? v) && (v <=? 4294967295)
     && (0 <=? offset) && (offset <=? blen b - 4)
  then
    let b := set_byte b offset (Z.land (Z.shiftr v 24) 255) in
    let b := set_byte b (offset + 1) (Z.land (Z.shiftr v 16) 255) in
    let b := set_byte b (offset + 2) (Z.land (Z.shiftr v 8) 255) in
    Ok (set_byte b (offset + 3) (Z.land v 255))
  else Throw RangeError.

(** [src.copy(target, targetStart)]: as many bytes as fit. *)
Definition copy (src target : Buffer) (targetStart : Z) : Buffer :=
  let off := Z.to_nat targetStart in
  let n := Nat.min (List.length src) (List.length target - off) in
  take off target ++ take n src ++ drop (off + n) target.

(** [buf.slice(start, end)]: both ends are clamped to the buffer, a
    negative index counts from the end. *)
Definition clamp_index (len i : Z) : Z :=
  if i <? 0 then Z.max (len + i) 0 else Z.min i len.

Definition slice (b : Buffer) (start stop : Z) : Buffer :=
  let s := clamp_index (blen b) start in
  let e := clamp_index (blen b) stop in
  take (Z.to_nat (e - s)) (drop (Z.to_nat s) b).

(** [s.includes(sub)] *)
Definition includes (s sub : string) : bool :=
  match String.index 0 sub s with
  | Some _ => true
  | None => false
  end.

(** [x >>> 1] on a non-negative integer: the operand is first reduced to
    32 bits. *)
Definition ushr1 (x : Z) : Z := Z.shiftr (x mod 2 ^ 32) 1.

(** [Array.prototype.sort(cmp)].  ECMAScript 2019 requires the sort to be
    stable, and for a consistent comparator that fixes the result: it is the
    one computed by this insertion sort, whatever algorithm the engine runs
    (see [stable_sort_unique] in Part II). *)
Fixpoint insert_by {A} (cmp : A -> A -> Z) (x : A) (l : list A) : list A :=
  match l with
  | [] => [x]
  | y :: rest =>
      if cmp x y <=? 0 then x :: l else y :: insert_by cmp x rest
  end.

Definition Array_sort {A} (cmp : A -> A -> Z) (l : list A) : list A :=
  fold_right (insert_by cmp) [] l.

(** The comparator [(a, b) => key(a) - key(b)]. *)
Definition by_key {A} (key : A -> Z) (a b : A) : Z := key a - key b.

(** What ECMAScript asks of a sort under the comparator [cmp]: the result
    is ordered by [cmp], and elements that compare equal keep their order. *)
Definition compliant_sort {A} (cmp : A -> A -> Z)
  (sort : (A -> A -> Z) -> list A -> list A) : Prop :=
  forall l,
    StronglySorted (fun a b => cmp a b <= 0) (sort cmp l)
    /\ forall x,
         List.filter (fun a => cmp a x =? 0) (sort cmp l)
         = List.filter (fun a => cmp a x =? 0) l.

(** Another stable sort, as a second engine might implement it: elements
    are taken from the left and put behind everything not greater. *)
Fixpoint insert_behind {A} (cmp : A -> A -> Z) (x : A) (l : list A) : list A :=
  match l with
  | [] => [x]
  | y :: rest =>
      if cmp y x <=? 0 then y :: insert_behind cmp x rest else x :: l
  end.

Definition Array_sort_left {A} (cmp : A -> A -> Z) (l : list A) : list A :=
  fold_left (fun acc x => insert_behind cmp x acc) l [].

(** [a[i]]: [undefined] (here [None]) outside the array. *)
Definition at_index {A} (a : list A) (i : Z) : option A :=
  if i <? 0 then None else a !! Z.to_nat i.

Definition alen {A} (a : list A) : Z := Z.of_nat (List.length a).

End Runtime.

Export Runtime.

#[global] Instance outcome_ret : MRet outcome := fun A a => Ok a.
#[global] Instance outcome_bind : MBind outcome := fun A B k m => bind m k.

(** ** fastdb.js: the storage engine *)

Module FastDB.

Record record := { value : jsvalue; ts : Z }.

(** The state [makeFastDB] closes over. *)
Record engine := {
  memTable : gmap string record;
  walQueue : list Buffer;
  closed : bool
}.

(** What a snapshot file yields when it is read, gunzipped and parsed: the
    entries [takeSnapshot] wrote, or a failure of one of the three steps.
    (A file that parses to something other than a list of pairs is not
    modelled.) *)
Inductive snapshot_file :=
| Unreadable
| Entries (entries : list (string * record)).

(** The data directory.  The WAL is opened with ['a+'] before recovery
    runs, so it always exists when [recover] looks for it. *)
Record disk := {
  walFile : Buffer;
  snapshotFile : option snapshot_file
}.

Section Engine.

Variable JSON_stringify : jsvalue -> string.
Variable JSON_parse : string -> option jsvalue.

Definition serializeRecord (op : string) (key : string) (value : jsvalue)
  : outcome Buffer :=
  let keyBuf := Buffer_from key in
  let serializedValue :=
    if is_object value then JSON_stringify value else to_String value in
  let valBuf := Buffer_from serializedValue in
  let buf := Buffer_alloc (1 + 4 + 4 + blen keyBuf + blen valBuf) in
  buf ← writeUInt8 buf (if String.eqb op "put" then 1 else 2) 0;
  buf ← writeUInt32BE buf (blen keyBuf) 1;
  buf ← writeUInt32BE buf (blen valBuf) 5;
  let buf := copy keyBuf buf 9 in
  let buf := copy valBuf buf (9 + blen keyBuf) in
  Ok buf.

(** [now] is the reading of [Date.now()] taken by this call. *)
Definition applyRecord (now : Z) (op : string) (key : string)
  (value : jsvalue) (t : gmap string record) : gmap string record :=
  if String.eqb op "put" then <[key := {| value := value; ts := now |}]> t
  else if String.eqb op "del" then delete key t
  else t.

Definition put (now : Z) (key : string) (v : jsvalue) (e : engine)
  : outcome engine :=
  if closed e then Throw DBClosed
  else
    buf ← serializeRecord "put" key v;
    Ok {| memTable := applyRecord now "put" key v (memTable e);
          walQueue := walQueue e ++ [buf];
          closed := closed e |}.

(** [memTable.get(key) || null]: a record is an object, hence truthy. *)
Definition get (key : string) (e : engine) : option record :=
  memTable e !! key.

Definition del (now : Z) (key : string) (e : engine) : outcome engine :=
  if closed e then Throw DBClosed
  else
    buf ← serializeRecord "del" key (JString "");
    Ok {| memTable := applyRecord now "del" key (JString "") (memTable e);
          walQueue := walQueue e ++ [buf];
          closed := closed e |}.

(** The directory after the write, and the [{ keys }] returned. *)
Definition takeSnapshot (e : engine) (d : disk) : disk * nat :=
  ({| walFile := walFile d;
      snapshotFile := Some (Entries (map_to_list (memTable e))) |},
   size (memTable e)).

(** The value a replayed record carries: the parsed form when the bytes
    parse to an object or array, the string otherwise. *)
Definition revive (value : string) : jsvalue :=
  match JSON_parse value with
  | Some parsed =>
      if is_object parsed && negb (is_null parsed) then parsed
      else JString value
  | None => JString value
  end.

(** The [while (offset < walData.length)] loop of [recover].  [clock n] is
    the reading of [Date.now()] at the [n]-th record applied. *)
Fixpoint replay (fuel : nat) (clock : nat -> Z) (n : nat) (walData : Buffer)
  (offset : Z) (t : gmap string record) : outcome (gmap string record) :=
  if offset <? blen walData then
    match fuel with
    | O => Running
    | S fuel' =>
        opCode ← readUInt8 walData offset;
        let offset := offset + 1 in
        keyLen ← readUInt32BE walData offset;
        let offset := offset + 4 in
        valLen ← readUInt32BE walData offset;
        let offset := offset + 4 in
        let key := Buffer_toString (slice walData offset (offset + keyLen)) in
        let offset := offset + keyLen in
        let value := Buffer_toString (slice walData offset (offset + valLen)) in
        let offset := offset + valLen in
        let value := revive value in
        replay fuel' clock (S n) walData offset
          (applyRecord (clock n) (if opCode =? 1 then "put" else "del")
             key value t)
    end
  else Ok t.

Definition load_snapshot (s : option snapshot_file) (t : gmap string record)
  : gmap string record :=
  match s with
  | None => t
  | Some Unreadable => t
  | Some (Entries entries) =>
      fold_left (fun m kv => <[fst kv := snd kv]> m) entries ∅
  end.

Definition recover (clock : nat -> Z) (d : disk) (t : gmap string record)
  : outcome (gmap string record) :=
  let t := load_snapshot (snapshotFile d) t in
  replay (List.length (walFile d)) clock 0 (walFile d) 0 t.

(** One firing of the flush timer. *)
Definition flush (e : engine) (d : disk) : engine * disk :=
  if Nat.eqb (List.length (walQueue e)) 0 || closed e then (e, d)
  else
    ({| memTable := memTable e; walQueue := []; closed := closed e |},
     {| walFile := walFile d ++ Buffer_concat (walQueue e);
        snapshotFile := snapshotFile d |}).

(** One firing of the snapshot timer. *)
Definition snapshot_tick (e : engine) (d : disk) : disk :=
  if closed e then d else fst (takeSnapshot e d).

Definition close (e : engine) (d : disk) : engine * disk :=
  if closed e then (e, d)
  else
    ({| memTable := memTable e; walQueue := []; closed := true |},
     if Nat.eqb (List.length (walQueue e)) 0 then d
     else {| walFile := walFile d ++ Buffer_concat (walQueue e);
             snapshotFile := snapshotFile d |}).

(** [makeFastDB]: a fresh table and queue, then [recover()]. *)
Definition makeFastDB (clock : nat -> Z) (d : disk) : outcome engine :=
  t ← recover clock d ∅;
  Ok {| memTable := t; walQueue := []; closed := false |}.

(** *** The WAL record as the specification draws it

    [op:1 | klen:u32 | vlen:u32 | key | val], big-endian; stated apart from
    [serializeRecord] and compared with it in Part II. *)

Definition u32be (n : Z) : Buffer :=
  [byte_of_Z (n / 2 ^ 24 mod 256); byte_of_Z (n / 2 ^ 16 mod 256);
   byte_of_Z (n / 2 ^ 8 mod 256); byte_of_Z (n mod 256)].

Definition wal_record (op : Z) (key value : Buffer) : Buffer :=
  [byte_of_Z op] ++ u32be (blen key) ++ u32be (blen value) ++ key ++ value.

(** The text of a value in the WAL: [JSON.stringify] for what [typeof]
    calls an object (objects, arrays and null), [String] otherwise. *)
Definition value_text (v : jsvalue) : string :=
  if is_object v then JSON_stringify v else to_String v.

Definition opcode (op : string) : Z := if String.eqb op "put" then 1 else 2.

(** A string whose UTF-8 length fits the 32-bit length field. *)
Definition fits_u32 (s : string) : Prop := blen (Buffer_from s) <= 4294967295.

(** What the WAL holds of one mutation. *)
Record logged := { l_op : Z; l_key : string; l_text : string }.

Definition encode (r : logged) : Buffer :=
  wal_record (l_op r) (Buffer_from (l_key r)) (Buffer_from (l_text r)).

Definition encode_all (rs : list logged) : Buffer :=
  Buffer_concat (List.map encode rs).

Definition well_formed (r : logged) : Prop :=
  (l_op r = 1 \/ l_op r = 2) /\ fits_u32 (l_key r) /\ fits_u32 (l_text r).

(** Re-applying logged mutations one by one, the [n]-th at time [clock n]. *)
Fixpoint redo (clock : nat -> Z) (n : nat) (rs : list logged)
  (t : gmap string record) : gmap string record :=
  match rs with
  | [] => t
  | r :: rest =>
      redo clock (S n) rest
        (applyRecord (clock n) (if l_op r =? 1 then "put" else "del")
           (l_key r) (revive (l_text r)) t)
  end.

(** *** The life of one engine process *)

Inductive event :=
| EvPut (now : Z) (key : string) (v : jsvalue)
| EvDel (now : Z) (key : string)
| EvFlush
| EvSnapshot.

Definition step (ev : event) (s : engine * disk) : outcome (engine * disk) :=
  let '(e, d) := s in
  match ev with
  | EvPut now key v => e' ← put now key v e; Ok (e', d)
  | EvDel now key => e' ← del now key e; Ok (e', d)
  | EvFlush => Ok (flush e d)
  | EvSnapshot => Ok (e, snapshot_tick e d)
  end.

Fixpoint run (evs : list event) (s : engine * disk) : outcome (engine * disk) :=
  match evs with
  | [] => Ok s
  | ev :: rest => s' ← step ev s; run rest s'
  end.

(** Puts and deletes on one key, as a client issues them. *)
Inductive mutation :=
| Put (now : Z) (v : jsvalue)
| Del (now : Z).

Definition mutate (key : string) (m : mutation) (e : engine) : outcome engine :=
  match m with
  | Put now v => put now key v e
  | Del now => del now key e
  end.

Fixpoint mutate_all (key : string) (ms : list mutation) (e : engine)
  : outcome engine :=
  match ms with
  | [] => Ok e
  | m :: rest => e' ← mutate key m e; mutate_all key rest e'
  end.

Definition serializable (m : mutation) : Prop :=
  match m with
  | Put _ v => fits_u32 (value_text v)
  | Del _ => True
  end.

(** The mutations a run puts in the WAL, and the table it builds. *)
Definition logged_of (ev : event) : list logged :=
  match ev with
  | EvPut _ key v => [{| l_op := 1; l_key := key; l_text := value_text v |}]
  | EvDel _ key => [{| l_op := 2; l_key := key; l_text := "" |}]
  | _ => []
  end.

Definition log_of (evs : list event) : list logged := flat_map logged_of evs.

Definition table_step (t : gmap string record) (ev : event)
  : gmap string record :=
  match ev with
  | EvPut now key v => <[key := {| value := v; ts := now |}]> t
  | EvDel _ key => delete key t
  | _ => t
  end.

(** A value as it comes back from its WAL text. *)
Definition readback (v : jsvalue) : jsvalue := revive (value_text v).

Definition keys_of (rs : list logged) : list string := List.map l_key rs.

(** The table a process builds, from the table [t0] it recovered at open. *)
Definition table_after (evs : list event) (t0 : gmap string record)
  : gmap string record :=
  fold_left table_step evs t0.

(** What holds of engine and directory after the events [hist] of a
    process that found the complete records [L0] in the WAL, the snapshot
    file [s0], and recovered the table [t0] from them. *)
Record reached (L0 : list logged) (s0 : option snapshot_file)
  (t0 : gmap string record) (e : engine) (d : disk) (hist : list event)
  : Prop := {
  reached_open : closed e = false;
  reached_table : memTable e = table_after hist t0;
  reached_wal :
    walFile d ++ Buffer_concat (walQueue e) = encode_all (L0 ++ log_of hist);
  reached_wf : Forall well_formed (L0 ++ log_of hist);
  reached_snapshot :
    snapshotFile d = s0
    \/ exists pre suf,
         hist = pre ++ suf
         /\ snapshotFile d = Some (Entries (map_to_list (table_after pre t0)))
}.

End Engine.

(** A data directory without files, and the engine [makeFastDB] returns on
    it. *)
Definition empty_disk : disk := {| walFile := []; snapshotFile := None |}.

Definition fresh_engine : engine :=
  {| memTable := ∅; walQueue := []; closed := false |}.

(** A directory left by an earlier process, with [put('a', '1')] in its
    WAL; the engine opened on it at time 50; a short run of that engine
    (two puts with a snapshot in between, a delete, a flush); and the
    engine and directory the run ends in. *)
Definition sample_log : list logged :=
  [{| l_op := 1; l_key := "a"; l_text := "1" |}].

Definition sample_start : disk :=
  {| walFile := encode_all sample_log; snapshotFile := None |}.

Definition sample_opened : engine :=
  {| memTable := {["a" := {| value := JString "1"; ts := 50 |}]};
     walQueue := []; closed := false |}.

Definition sample_events : list event :=
  [EvPut 100 "k" (JString "v"); EvSnapshot;
   EvPut 101 "o" (JArray [JNumber "1"]); EvDel 102 "k"; EvFlush].

Definition sample_engine : engine :=
  {| memTable := <["o" := {| value := JArray [JNumber "1"]; ts := 101 |}]>
                   {["a" := {| value := JString "1"; ts := 50 |}]};
     walQueue := [];
     closed := false |}.

Definition sample_disk : disk :=
  {| walFile := encode_all [ {| l_op := 1; l_key := "a"; l_text := "1" |};
                             {| l_op := 1; l_key := "k"; l_text := "v" |};
                             {| l_op := 1; l_key := "o"; l_text := "[1]" |};
                             {| l_op := 2; l_key := "k"; l_text := "" |} ];
     snapshotFile :=
       Some (Entries (map_to_list
                        (<["k" := {| value := JString "v"; ts := 100 |}]>
                           {["a" := {| value := JString "1"; ts := 50 |}]}
                         : gmap string record))) |}.

End FastDB.

(** ** A reference JSON reader and printer

    Used to run the definitions above on concrete inputs.  It covers the
    fragment of JSON with integer numbers and without unicode escapes, and
    objects whose keys are distinct and not array indices (for which the
    order of the fields is the order of the text). *)

Module MiniJSON.

Definition is_ws (c : ascii) : bool :=
  let n := nat_of_ascii c in
  Nat.eqb n 32 || Nat.eqb n 9 || Nat.eqb n 10 || Nat.eqb n 13.

Fixpoint skip_ws (s : string) : string :=
  match s with
  | String c r => if is_ws c then skip_ws r else s
  | EmptyString => s
  end.

Definition is_digit (c : ascii) : bool :=
  let n := nat_of_ascii c in Nat.leb 48 n && Nat.leb n 57.

Definition unescape (c : ascii) : option ascii :=
  let n := nat_of_ascii c in
  if Nat.eqb n 34 then Some c                        (* quote *)
  else if Nat.eqb n 92 then Some c                   (* backslash *)
  else if Nat.eqb n 47 then Some c                   (* slash *)
  else if Nat.eqb n 110 then Some (ascii_of_nat 10)  (* n: line feed *)
  else if Nat.eqb n 116 then Some (ascii_of_nat 9)   (* t: tab *)
  else if Nat.eqb n 114 then Some (ascii_of_nat 13)  (* r: carriage return *)
  else if Nat.eqb n 98 then Some (ascii_of_nat 8)    (* b: backspace *)
  else if Nat.eqb n 102 then Some (ascii_of_nat 12)  (* f: form feed *)
  else None.

(** The rest of a string literal, after its opening quote. *)
Fixpoint read_string (s : string) : option (string * string) :=
  match s with
  | EmptyString => None
  | String c r =>
      let n := nat_of_ascii c in
      if Nat.eqb n 34 then Some (EmptyString, r)
      else if Nat.ltb n 32 then None
      else if Nat.eqb n 92 then
        match r with
        | String c2 r2 =>
            match unescape c2, read_string r2 with
            | Some c', Some (x, r') => Some (String c' x, r')
            | _, _ => None
            end
        | EmptyString => None
        end
      else
        match read_string r with
        | Some (x, r') => Some (String c x, r')
        | None => None
        end
  end.

Fixpoint read_digits (s : string) : string * string :=
  match s with
  | String c r =>
      if is_digit c
      then let '(ds, r') := read_digits r in (String c ds, r')
      else (EmptyString, s)
  | EmptyString => (EmptyString, s)
  end.

(** An integer literal: [0] or a digit string without leading zero, with an
    optional sign; a fraction or exponent part is outside the fragment. *)
Definition read_number (s : string) : option (jsvalue * string) :=
  let '(neg, s1) :=
    match s with
    | String c r => if Nat.eqb (nat_of_ascii c) 45 then (true, r) else (false, s)
    | EmptyString => (false, s)
    end in
  let '(ds, r) := read_digits s1 in
  let follows_ok :=
    match r with
    | String c _ =>
        let n := nat_of_ascii c in
        negb (Nat.eqb n 46 || Nat.eqb n 101 || Nat.eqb n 69)
    | EmptyString => true
    end in
  match ds with
  | EmptyString => None
  | String d rest =>
      if negb follows_ok then None
      else if Nat.eqb (nat_of_ascii d) 48 then
        match rest with
        | EmptyString => Some (JNumber "0", r)
        | _ => None
        end
      else Some (JNumber (if neg then String (ascii_of_nat 45) ds else ds), r)
  end.

Fixpoint set_field (k : string) (v : jsvalue) (fs : list (string * jsvalue))
  : list (string * jsvalue) :=
  match fs with
  | [] => [(k, v)]
  | (k', v') :: rest =>
      if String.eqb k k' then (k', v) :: rest else (k', v') :: set_field k v rest
  end.

Definition strip (lit : string) (s : string) : option string :=
  if String.prefix lit s
  then Some (String.substring (String.length lit)
               (String.length s - String.length lit) s)
  else None.

Fixpoint parse_value (fuel : nat) (s : string) : option (jsvalue * string) :=
  match fuel with
  | O => None
  | S fuel' =>
      match skip_ws s with
      | EmptyString => None
      | String c r as s' =>
          let n := nat_of_ascii c in
          if Nat.eqb n 34 then
            match read_string r with
            | Some (x, r') => Some (JString x, r')
            | None => None
            end
          else if Nat.eqb n 91 then
            match skip_ws r with
            | String c2 r2 =>
                if Nat.eqb (nat_of_ascii c2) 93 then Some (JArray [], r2)
                else parse_elements fuel' r []
            | EmptyString => None
            end
          else if Nat.eqb n 123 then
            match skip_ws r with
            | String c2 r2 =>
                if Nat.eqb (nat_of_ascii c2) 125 then Some (JObject [], r2)
                else parse_members fuel' r []
            | EmptyString => None
            end
          else
            match strip "null" s', strip "true" s', strip "false" s' with
            | Some r', _, _ => Some (JNull, r')
            | _, Some r', _ => Some (JBool true, r')
            | _, _, Some r' => Some (JBool false, r')
            | _, _, _ => read_number s'
            end
      end
  end
with parse_elements (fuel : nat) (s : string) (acc : list jsvalue)
  : option (jsvalue * string) :=
  match fuel with
  | O => None
  | S fuel' =>
      match parse_value fuel' s with
      | Some (v, r) =>
          match skip_ws r with
          | String c r' =>
              let n := nat_of_ascii c in
              if Nat.eqb n 44 then parse_elements fuel' r' (acc ++ [v])
              else if Nat.eqb n 93 then Some (JArray (acc ++ [v]), r')
              else None
          | EmptyString => None
          end
      | None => None
      end
  end
with parse_members (fuel : nat) (s : string) (acc : list (string * jsvalue))
  : option (jsvalue * string) :=
  match fuel with
  | O => None
  | S fuel' =>
      match skip_ws s with
      | String q r =>
          if Nat.eqb (nat_of_ascii q) 34 then
            match read_string r with
            | Some (k, r1) =>
                match skip_ws r1 with
                | String colon r2 =>
                    if Nat.eqb (nat_of_ascii colon) 58 then
                      match parse_value fuel' r2 with
                      | Some (v, r3) =>
                          match skip_ws r3 with
                          | String c r4 =>
                              let n := nat_of_ascii c in
                              if Nat.eqb n 44
                              then parse_members fuel' r4 (set_field k v acc)
                              else if Nat.eqb n 125
                              then Some (JObject (set_field k v acc), r4)
                              else None
                          | EmptyString => None
                          end
                      | None => None
                      end
                    else None
                | EmptyString => None
                end
            | None => None
            end
          else None
      | EmptyString => None
      end
  end.

Definition parse (s : string) : option jsvalue :=
  match parse_value (2 * String.length s + 2) s with
  | Some (v, r) =>
      match skip_ws r with
      | EmptyString => Some v
      | _ => None
      end
  | None => None
  end.

Definition hex_digit (n : nat) : ascii :=
  ascii_of_nat (if Nat.ltb n 10 then 48 + n else 87 + n).

Definition escape (c : ascii) : string :=
  let n := nat_of_ascii c in
  let bs := ascii_of_nat 92 in
  if Nat.eqb n 34 then String bs (String c EmptyString)
  else if Nat.eqb n 92 then String bs (String c EmptyString)
  else if Nat.eqb n 10 then String bs "n"
  else if Nat.eqb n 9 then String bs "t"
  else if Nat.eqb n 13 then String bs "r"
  else if Nat.eqb n 8 then String bs "b"
  else if Nat.eqb n 12 then String bs "f"
  else if Nat.ltb n 32
  then String bs ("u00" +:+ String (hex_digit (n / 16))
                              (String (hex_digit (n mod 16)) EmptyString))
  else String c EmptyString.

Fixpoint quote_body (s : string) : string :=
  match s with
  | EmptyString => EmptyString
  | String c r => escape c +:+ quote_body r
  end.

Definition quote (s : string) : string :=
  String (ascii_of_nat 34) (quote_body s +:+ String (ascii_of_nat 34) EmptyString).

Fixpoint stringify (v : jsvalue) : string :=
  match v with
  | JNull => "null"
  | JBool true => "true"
  | JBool false => "false"
  | JNumber lit => lit
  | JString s => quote s
  | JArray items => "[" +:+ join "," (List.map stringify items) +:+ "]"
  | JObject fields =>
      "{" +:+ join "," (List.map (fun kv => quote (fst kv) +:+ ":" +:+ stringify (snd kv))
                          fields) +:+ "}"
  end.

End MiniJSON.

(** ** A reference SHA-1

    Used to run the ring on concrete inputs; the ring itself takes the hash
    as a parameter. *)

Module Sha1.

Definition mask32 (x : Z) : Z := Z.land x 4294967295.

Definition rotl (n x : Z) : Z :=
  mask32 (Z.lor (Z.shiftl x n) (Z.shiftr x (32 - n))).

Definition be64 (n : Z) : list Z :=
  List.map (fun i => Z.land (Z.shiftr n (8 * (7 - Z.of_nat i))) 255) (seq 0 8).

(** The message followed by the bit 1, zeros up to 56 modulo 64 bytes, and
    the length in bits. *)
Definition pad (msg : list Z) : list Z :=
  let len := Z.of_nat (List.length msg) in
  msg ++ [128] ++ List.repeat 0 (Z.to_nat ((55 - len) mod 64)) ++ be64 (8 * len).

Fixpoint words (bytes : list Z) : list Z :=
  match bytes with
  | a :: b :: c :: d :: rest =>
      (a * 2 ^ 24 + b * 2 ^ 16 + c * 2 ^ 8 + d) :: words rest
  | _ => []
  end.

Definition schedule (w16 : list Z) : list Z :=
  fold_left
    (fun w i =>
       w ++ [rotl 1 (Z.lxor (Z.lxor (nth (i - 3) w 0) (nth (i - 8) w 0))
                            (Z.lxor (nth (i - 14) w 0) (nth (i - 16) w 0)))])
    (seq 16 64) w16.

Definition state : Type := Z * Z * Z * Z * Z.

Definition round (s : state) (iw : nat * Z) : state :=
  let '(a, b, c, d, e) := s in
  let '(i, w) := iw in
  let '(f, k) :=
    if Nat.ltb i 20
    then (Z.lor (Z.land b c) (Z.land (Z.lxor b 4294967295) d), 1518500249)
    else if Nat.ltb i 40
    then (Z.lxor (Z.lxor b c) d, 1859775393)
    else if Nat.ltb i 60
    then (Z.lor (Z.lor (Z.land b c) (Z.land b d)) (Z.land c d), 2400959708)
    else (Z.lxor (Z.lxor b c) d, 3395469782) in
  (mask32 (rotl 5 a + f + e + k + w), a, rotl 30 b, c, d).

Definition compress (h : state) (w16 : list Z) : state :=
  let '(h0, h1, h2, h3, h4) := h in
  let '(a, b, c, d, e) :=
    fold_left round (combine (seq 0 80) (schedule w16)) h in
  (mask32 (h0 + a), mask32 (h1 + b), mask32 (h2 + c), mask32 (h3 + d),
   mask32 (h4 + e)).

Fixpoint blocks (n : nat) (ws : list Z) (h : state) : state :=
  match n with
  | O => h
  | S n' => blocks n' (drop 16 ws) (compress h (take 16 ws))
  end.

Definition digest (msg : list Z) : state :=
  let ws := words (pad msg) in
  blocks (List.length ws / 16) ws
    (1732584193, 4023233417, 2562383102, 271733878, 3285377520).

(** The first four bytes of the digest of a string, big-endian. *)
Definition sha1_u32 (s : string) : Z :=
  let '(h0, _, _, _, _) := digest (List.map Z_of_byte (Buffer_from s)) in h0.

End Sha1.

(** ** hash.js: the consistent-hash ring *)

Module Hash.

Record entry := { hash : Z; node : string }.

(** [String(i)] for a loop counter. *)
Definition decimal (i : nat) : string := NilZero.string_of_uint (Nat.to_uint i).

Section Ring.

(** [crypto.createHash('sha1').update(s).digest().readUInt32BE(0)] *)
Variable sha1_u32 : string -> Z.

Definition vnode_entries (n : string) (vnodes : nat) : list entry :=
  List.map (fun i => {| hash := sha1_u32 (n +:+ "#" +:+ decimal i); node := n |})
    (seq 0 vnodes).

Definition by_hash (a b : entry) : Z := hash a - hash b.

(** [buildRing] over the sort of some engine. *)
Definition buildRing_with (sort : (entry -> entry -> Z) -> list entry -> list entry)
  (nodes : list string) (vnodes : nat) : list entry :=
  sort by_hash (flat_map (fun n => vnode_entries n vnodes) nodes).

Definition buildRing (nodes : list string) (vnodes : nat) : list entry :=
  buildRing_with Array_sort nodes vnodes.

(** The [while (lo <= hi)] loop of [pickNode]; it returns the final [lo]. *)
Fixpoint search (fuel : nat) (ring : list entry) (hashInt lo hi : Z)
  : outcome Z :=
  if lo <=? hi then
    match fuel with
    | O => Running
    | S fuel' =>
        let mid := ushr1 (lo + hi) in
        match at_index ring mid with
        | Some e =>
            if hash e <? hashInt
            then search fuel' ring hashInt (mid + 1) hi
            else search fuel' ring hashInt lo (mid - 1)
        | None => Throw TypeError
        end
    end
  else Ok lo.

Definition pickNode (ring : list entry) (key : string) : outcome string :=
  let hashInt := sha1_u32 key in
  lo ← search (S (List.length ring)) ring hashInt 0 (alen ring - 1);
  match at_index ring lo with
  | Some e => Ok (node e)
  | None =>
      match at_index ring 0 with
      | Some e => Ok (node e)
      | None => Throw TypeError
      end
  end.

End Ring.

End Hash.

(** ** HTTP messages shared by shard.js and coordinator.js *)

Module Http.

(** Header names are lower-case, as Node delivers them. *)
Record request := {
  method : string;
  pathname : string;
  query_key : option string;
  headers : gmap string string;
  body : string
}.

Inductive reply_body :=
| BError (error : string)
| BHealth (shard : string) (port : Z)
| BCoordHealth (shards : nat) (vnodes : nat)
| BRoute (key : string) (shard : string)
| BStats (shard : string) (keys : nat)
| BNotFound
| BFound (value : jsvalue) (ts : Z)
| BWrite (ok : bool) (acks quorum : Z).

Record response := { status : Z; content : reply_body }.

(** [json(res, code, obj)] *)
Definition json (code : Z) (obj : reply_body) : response :=
  {| status := code; content := obj |}.

(** [!x] is false exactly for a defined, non-empty string. *)
Definition truthy (x : option string) : bool :=
  match x with
  | Some s => negb (String.eqb s "")
  | None => false
  end.

(** What a [fetch] comes to, with the time in ms at which it settles. *)
Inductive fetch_result :=
| Responds (t : nat) (status : Z)
| Fails (t : nat)
| Hangs.

End Http.

Export Http.

(** ** shard.js: request handler and replicator *)

Module Shard.

Import FastDB.

Record config := {
  PORT : Z;
  REPLICAS : list string;
  quorumSize : Z;
  SHARD_ID : string
}.

Record repl := { acks : Z; quorum : Z; ok : bool }.

(** How the promise [forwardWrite] returns settles. *)
Inductive settlement :=
| Fulfils (t : nat)
| Rejects (t : nat)
| NeverSettles.

(** A native promise keeps its state in the internal slot
    [[PromiseState]].  It has no property named [status]: the expression
    [p.status] evaluates to [undefined] whatever the state. *)
Inductive promise_state := Pending | Fulfilled | Rejected.

Record promise := { PromiseState : promise_state }.

Definition status_property (p : promise) : option string := None.

Section Shard.

Variable JSON_stringify : jsvalue -> string.
Variable JSON_parse : string -> option jsvalue.
Variable cfg : config.

(** The peers as seen from this shard: what the [fetch] to a base URL with
    a given request comes to. *)
Variable net : string -> request -> fetch_result.

Definition forwardWrite_request (method key : string) (value : jsvalue)
  : request :=
  let '(body, contentType) :=
    if is_object value && negb (is_null value)
    then (JSON_stringify value, "application/json")
    else (to_String value, "text/plain") in
  {| method := method;
     pathname := "/kv";
     query_key := Some key;
     headers := <["x-forwarded-by" := SHARD_ID cfg]>
                  {["content-type" := contentType]};
     body := if String.eqb method "PUT" then body else "" |}.

Definition forwardWrite (method baseUrl key : string) (value : jsvalue)
  : settlement :=
  match net baseUrl (forwardWrite_request method key value) with
  | Responds t st =>
      if (200 <=? st) && (st <=? 299) then Fulfils t else Rejects t
  | Fails t => Rejects t
  | Hangs => NeverSettles
  end.

Definition settled_by (k : nat) (s : settlement) : bool :=
  match s with
  | Fulfils t => Nat.leb t k
  | Rejects t => Nat.leb t k
  | NeverSettles => false
  end.

Definition acked_by (k : nat) (s : settlement) : bool :=
  match s with
  | Fulfils t => Nat.leb t k
  | _ => false
  end.

(** [acks] at time [k]: the shard itself and every forward whose [then]
    callback has run. *)
Definition acks_at (forwards : list settlement) (k : nat) : Z :=
  1 + alen (List.filter (acked_by k) forwards).

(** The promise [forwardWrite(..).then(..).catch(..)] at time [k]. *)
Definition promise_at (k : nat) (s : settlement) : promise :=
  {| PromiseState := if settled_by k s then Fulfilled else Pending |}.

(** [p.status === 'fulfilled' || p.status === 'rejected'] *)
Definition status_says_settled (p : promise) : bool :=
  match status_property p with
  | Some s => String.eqb s "fulfilled" || String.eqb s "rejected"
  | None => false
  end.

(** The polling loop of [replicate], entered at time [k]; it returns the
    time at which it is left. *)
Fixpoint poll (fuel : nat) (forwards : list settlement) (k : nat)
  : outcome nat :=
  if acks_at forwards k <? Z.min (quorumSize cfg) (alen (REPLICAS cfg) + 1)
  then
    match fuel with
    | O => Running
    | S fuel' =>
        let k := S k in
        if forallb status_says_settled (List.map (promise_at k) forwards)
        then Ok k
        else poll fuel' forwards k
    end
  else Ok k.

(** [await Promise.allSettled(promises)] from time [k] on. *)
Fixpoint allSettled (fuel : nat) (forwards : list settlement) (k : nat)
  : outcome nat :=
  if forallb (settled_by k) forwards then Ok k
  else
    match fuel with
    | O => Running
    | S fuel' => allSettled fuel' forwards (S k)
    end.

Definition replicate (fuel : nat) (method key : string) (value : jsvalue)
  : outcome repl :=
  if Nat.eqb (List.length (REPLICAS cfg)) 0
  then Ok {| acks := 1; quorum := 1; ok := true |}
  else
    let forwards :=
      List.map (fun base => forwardWrite method base key value) (REPLICAS cfg) in
    k ← poll fuel forwards 0;
    if quorumSize cfg <=? acks_at forwards k then
      (* ac.abort(): every forward still in flight rejects at once *)
      let acks := acks_at forwards k in
      Ok {| acks := acks; quorum := quorumSize cfg;
            ok := quorumSize cfg <=? acks |}
    else
      k' ← allSettled fuel forwards k;
      let acks := acks_at forwards k' in
      Ok {| acks := acks; quorum := quorumSize cfg;
            ok := quorumSize cfg <=? acks |}.

Definition write_reply (r : repl) : response :=
  json (if ok r then 200 else 500) (BWrite (ok r) (acks r) (quorum r)).

Definition local_only : repl := {| acks := 1; quorum := 1; ok := true |}.

(** The request listener.  [now] is the reading of [Date.now()] should the
    request apply a put; the result pairs the engine after the request with
    the response sent, if one is. *)
Definition server (now : Z) (fuel : nat) (req : request) (DB : engine)
  : engine * outcome response :=
  if String.eqb (method req) "GET" && String.eqb (pathname req) "/health"
  then (DB, Ok (json 200 (BHealth (SHARD_ID cfg) (PORT cfg))))
  else if String.eqb (method req) "GET" && String.eqb (pathname req) "/stats"
  then (DB, Ok (json 200 (BStats (SHARD_ID cfg) (size (memTable DB)))))
  else if String.eqb (pathname req) "/kv" then
    if negb (truthy (query_key req))
    then (DB, Ok (json 400 (BError "missing key")))
    else
      let key := default "" (query_key req) in
      if String.eqb (method req) "GET" then
        match get key DB with
        | None => (DB, Ok (json 404 BNotFound))
        | Some v => (DB, Ok (json 200 (BFound (value v) (ts v))))
        end
      else if String.eqb (method req) "PUT" then
        let contentType := headers req !! "content-type" in
        let parsed :=
          if truthy contentType
             && includes (default "" contentType) "application/json"
          then JSON_parse (body req)
          else Some (JString (body req)) in
        match parsed with
        | None => (DB, Ok (json 400 (BError "Invalid JSON")))
        | Some value =>
            match put JSON_stringify now key value DB with
            | Ok DB' =>
                let isForwarded := headers req !! "x-forwarded-by" in
                (DB',
                 r ← (if negb (truthy isForwarded)
                      then replicate fuel "PUT" key value
                      else Ok local_only);
                 Ok (write_reply r))
            | Throw e => (DB, Throw e)
            | Running => (DB, Running)
            end
        end
      else if String.eqb (method req) "DELETE" then
        match del JSON_stringify now key DB with
        | Ok DB' =>
            let isForwarded := headers req !! "x-forwarded-by" in
            (DB',
             r ← (if truthy isForwarded
                  then Ok local_only
                  else replicate fuel "DELETE" key (JString ""));
             Ok (write_reply r))
        | Throw e => (DB, Throw e)
        | Running => (DB, Running)
        end
      else (DB, Ok (json 405 (BError "method not allowed")))
  else (DB, Ok (json 404 (BError "not found"))).

(** The body of a PUT as the handler takes it: parsed when the content
    type says JSON, the raw string otherwise; [None] when parsing throws. *)
Definition accepted_value (req : request) : option jsvalue :=
  let contentType := headers req !! "content-type" in
  if truthy contentType
     && includes (default "" contentType) "application/json"
  then JSON_parse (body req)
  else Some (JString (body req)).

(** A PUT on [/kv] that comes from a client, not from another shard, and
    carries the value [value] for [key]. *)
Definition originating_put (req : request) (key : string) (value : jsvalue)
  : Prop :=
  method req = "PUT" /\ pathname req = "/kv"
  /\ query_key req = Some key /\ key <> ""
  /\ truthy (headers req !! "x-forwarded-by") = false
  /\ accepted_value req = Some value.

(** Every forward of a write is acknowledged by time [T]. *)
Definition all_acknowledged (method key : string) (value : jsvalue) (T : nat)
  : Prop :=
  forall base, In base (REPLICAS cfg) ->
    exists t, (t <= T)%nat /\ forwardWrite method base key value = Fulfils t.

End Shard.

(** A shard with one peer and quorum 2, and a peer that refuses every
    connection at once. *)
Definition one_peer : config :=
  {| PORT := 4101; REPLICAS := ["http://127.0.0.1:4102"]; quorumSize := 2;
     SHARD_ID := "shard-4101" |}.

Definition peer_down (base : string) (req : request) : fetch_result := Fails 0.

(** A shard without peers whose operator asked for quorum 2. *)
Definition no_peers : config :=
  {| PORT := 4101; REPLICAS := []; quorumSize := 2; SHARD_ID := "shard-4101" |}.

(** A peer that answers 200 after 3 ms. *)
Definition peer_up (base : string) (req : request) : fetch_result :=
  Responds 3 200.

(** A client's PUT of the string [v], and a PUT announced as JSON whose
    body is not JSON. *)
Definition sample_put : request :=
  {| method := "PUT"; pathname := "/kv"; query_key := Some "k";
     headers := ∅; body := "v" |}.

Definition bad_json_put : request :=
  {| method := "PUT"; pathname := "/kv"; query_key := Some "k";
     headers := {["content-type" := "application/json; charset=utf-8"]};
     body := "{oops" |}.

End Shard.

(** ** coordinator.js: the router *)

Module Coordinator.

Record config := {
  PORT : Z;
  SHARDS : list string;
  vnodeCount : nat
}.

Section Coordinator.

Variable sha1_u32 : string -> Z.
Variable cfg : config.

(** The shards as seen from the router: the response to a request sent to
    a base URL. *)
Variable fetch : string -> request -> outcome response.

Definition ring : list Hash.entry :=
  Hash.buildRing sha1_u32 (SHARDS cfg) (vnodeCount cfg).

(** The request [proxy] hands to [fetch]. *)
Definition proxy_request (method key bodyStr : string) : request :=
  {| method := method;
     pathname := "/kv";
     query_key := Some key;
     headers := {["content-type" := "text/plain"]};
     body := if String.eqb method "PUT" then bodyStr else "" |}.

(** [{ status: resp.status, body: text }] is the shard's response as it is. *)
Definition proxy (method shardBase key bodyStr : string) : outcome response :=
  fetch shardBase (proxy_request method key bodyStr).

Definition server (req : request) : outcome response :=
  if String.eqb (pathname req) "/route" && String.eqb (method req) "GET" then
    if negb (truthy (query_key req))
    then Ok (json 400 (BError "missing key"))
    else
      let key := default "" (query_key req) in
      node ← Hash.pickNode sha1_u32 ring key;
      Ok (json 200 (BRoute key node))
  else if String.eqb (pathname req) "/kv" then
    if negb (truthy (query_key req))
    then Ok (json 400 (BError "missing key"))
    else
      let key := default "" (query_key req) in
      node ← Hash.pickNode sha1_u32 ring key;
      if String.eqb (method req) "GET" then proxy "GET" node key ""
      else if String.eqb (method req) "PUT" then proxy "PUT" node key (body req)
      else if String.eqb (method req) "DELETE" then proxy "DELETE" node key ""
      else Ok (json 405 (BError "method not allowed"))
  else if String.eqb (pathname req) "/health" && String.eqb (method req) "GET"
  then Ok (json 200 (BCoordHealth (List.length (SHARDS cfg)) (vnodeCount cfg)))
  else Ok (json 404 (BError "not found")).

End Coordinator.

(** A client's PUT of a JSON array. *)
Definition json_put : request :=
  {| method := "PUT"; pathname := "/kv"; query_key := Some "u2";
     headers := {["content-type" := "application/json"]};
     body := "[1,2]" |}.

End Coordinator.

(** ** Notions used to state properties of the engine *)

Module EngineNotions.

(** A value that is a string, or an object or array. *)
Definition text_or_structured (v : jsvalue) : Prop :=
  (exists s, v = JString s) \/ (is_object v = true /\ is_null v = false).

End EngineNotions.

(** ** Walking the ring *)

Module RingWalk.

Import Hash.

(** The entry a clockwise walk from position [h] meets first: the first
    entry of the list whose position is not below [h], or, when there is
    none, the first entry of the list. *)
Definition clockwise (ring : list entry) (h : Z) : option entry :=
  match List.find (fun e => h <=? hash e) ring with
  | Some e => Some e
  | None => head ring
  end.

(** A shard list with one shard taken out. *)
Definition without (s : string) (nodes : list string) : list string :=
  List.filter (fun n => negb (String.eqb n s)) nodes.

(** Whether a ring entry belongs to a shard other than [s]. *)
Definition not_of (s : string) (e : entry) : bool := negb (String.eqb (node e) s).

End RingWalk.

(** ** Requests on a shard *)

Module ShardRequests.

Import FastDB Shard.

(** A GET on [/kv] for [key]. *)
Definition kv_get (key : string) : request :=
  {| method := "GET"; pathname := "/kv"; query_key := Some key;
     headers := ∅; body := "" |}.

(** What a peer takes the body of a forwarded PUT of [value] for: objects
    and arrays travel as JSON and are parsed again, everything else
    travels as [String(value)] and stays a string. *)
Definition forwarded_value (JSON_stringify : jsvalue -> string)
  (JSON_parse : string -> option jsvalue) (value : jsvalue) : option jsvalue :=
  if is_object value && negb (is_null value)
  then JSON_parse (JSON_stringify value)
  else Some (JString (to_String value)).

(** A shard with one peer whose operator asked for quorum 3. *)
Definition quorum_three : config :=
  {| PORT := 4101; REPLICAS := REPLICAS one_peer; quorumSize := 3;
     SHARD_ID := "shard-4101" |}.

(** A PUT as [forwardWrite] on shard-4101 sends it. *)
Definition forwarded_put : request :=
  {| method := "PUT"; pathname := "/kv"; query_key := Some "k";
     headers := <["x-forwarded-by" := "shard-4101"]>
                  {["content-type" := "text/plain"]};
     body := "v" |}.

End ShardRequests.

(** ** The router in front of its shards *)

Module Cluster.

Import FastDB.

Section Cluster.

Variable JSON_stringify : jsvalue -> string.
Variable JSON_parse : string -> option jsvalue.

(** The shard process listening at each base URL, and the peers as the
    shards see them. *)
Variable shards : string -> Shard.config.
Variable net : string -> request -> fetch_result.
Variable fuel : nat.

(** The router's [fetch] when the shards are up: the request is handled
    by the listener of the shard at the base URL, on the engine [w base]
    that shard has, at time [now]; the router receives what the listener
    sends. *)
Definition answer (now : Z) (w : string -> engine) (base : string)
  (req : request) : outcome response :=
  snd (Shard.server JSON_stringify JSON_parse (shards base) net now fuel req
         (w base)).

(** The engine of the shard at [base] once it has handled [req]. *)
Definition handled (now : Z) (w : string -> engine) (base : string)
  (req : request) : engine :=
  fst (Shard.server JSON_stringify JSON_parse (shards base) net now fuel req
         (w base)).

End Cluster.

(** The deployment of [start.sh]: three shards without replicas behind a
    router with 100 virtual nodes per shard. *)
Definition start_sh : Coordinator.config :=
  {| Coordinator.PORT := 4000;
     Coordinator.SHARDS := ["http://127.0.0.1:4101"; "http://127.0.0.1:4102";
                            "http://127.0.0.1:4103"];
     Coordinator.vnodeCount := 100 |}.

Definition start_sh_shard (base : string) : Shard.config :=
  let port :=
    if String.eqb base "http://127.0.0.1:4101" then (4101, "shard-4101")
    else if String.eqb base "http://127.0.0.1:4102" then (4102, "shard-4102")
    else (4103, "shard-4103") in
  {| Shard.PORT := fst port; Shard.REPLICAS := []; Shard.quorumSize := 1;
     Shard.SHARD_ID := snd port |}.

(** A client's PUT of the text [v] under the key [k]. *)
Definition client_put : request :=
  {| method := "PUT"; pathname := "/kv"; query_key := Some "k";
     headers := {["content-type" := "application/json"]}; body := "v" |}.

End Cluster.

(* ================================================================== *)
(** * Part II: properties                                              *)
(* ================================================================== *)

(** ** Bytes and buffers *)

Module RuntimeFacts.

Import FastDB.

(** The bounds test of a Buffer accessor holds at this offset. *)
Ltac in_bounds :=
  replace (_ && _) with true
    by (symmetry; rewrite !andb_true_iff; repeat split; lia).

Lemma Z_of_byte_of_Z z : Z_of_byte (byte_of_Z z) = z mod 256.
Proof.
  unfold Z_of_byte, byte_of_Z.
  assert (Hr : 0 <= z mod 256 < 256) by (apply Z.mod_pos_bound; lia).
  destruct (Byte.of_N (Z.to_N (z mod 256))) as [b|] eqn:E.
  - apply Byte.to_of_N in E. rewrite E. lia.
  - apply Byte.of_N_None_iff in E. lia.
Qed.

Lemma Z_of_byte_range b : 0 <= Z_of_byte b < 256.
Proof. unfold Z_of_byte. pose proof (Byte.to_N_bounded b). lia. Qed.

Lemma byte_of_Z_of_byte b : byte_of_Z (Z_of_byte b) = b.
Proof.
  unfold byte_of_Z. pose proof (Z_of_byte_range b) as H.
  rewrite Z.mod_small by lia. unfold Z_of_byte. rewrite N2Z.id.
  now rewrite Byte.of_to_N.
Qed.

Lemma land_shiftr_255 v k : 0 <= k -> Z.land (Z.shiftr v k) 255 = (v / 2 ^ k) mod 256.
Proof.
  intros Hk. rewrite Z.shiftr_div_pow2 by lia.
  change 255 with (Z.ones 8). rewrite Z.land_ones by lia. reflexivity.
Qed.

Lemma blen_nonneg b : 0 <= blen b.
Proof. unfold blen. lia. Qed.

Lemma blen_app a b : blen (a ++ b) = blen a + blen b.
Proof. unfold blen. rewrite length_app. lia. Qed.

Lemma copy_exact (pre src hole post : Buffer) off :
  off = blen pre -> List.length hole = List.length src ->
  copy src (pre ++ hole ++ post) off = pre ++ src ++ post.
Proof.
  intros -> Hl. unfold copy, blen. rewrite Nat2Z.id.
  rewrite !length_app.
  replace (Nat.min _ _) with (List.length src) by lia.
  rewrite take_app_length.
  rewrite firstn_all.
  rewrite drop_app_add'. 2: reflexivity.
  rewrite <- Hl. rewrite drop_app_length. reflexivity.
Qed.


Lemma set_byte_app pre l (i : nat) v :
  set_byte (pre ++ l) (blen pre + Z.of_nat i) v = pre ++ <[i := byte_of_Z v]> l.
Proof.
  unfold set_byte, blen.
  replace (Z.to_nat _) with (List.length pre + i)%nat by lia.
  apply insert_app_r.
Qed.

Lemma writeUInt8_at pre x post v :
  0 <= v <= 255 ->
  writeUInt8 (pre ++ x :: post) v (blen pre) = Ok (pre ++ byte_of_Z v :: post).
Proof.
  intros Hv. unfold writeUInt8. pose proof (blen_nonneg pre). pose proof (blen_nonneg post).
  rewrite blen_app. change (x :: post) with ([x] ++ post) at 1. rewrite blen_app.
  change (blen [x]) with 1.
  in_bounds.
  replace (blen pre) with (blen pre + Z.of_nat 0) at 1 by lia.
  now rewrite set_byte_app.
Qed.

Lemma writeUInt32BE_at pre a b c d post v :
  0 <= v <= 4294967295 ->
  writeUInt32BE (pre ++ a :: b :: c :: d :: post) v (blen pre)
  = Ok (pre ++ u32be v ++ post).
Proof.
  intros Hv. unfold writeUInt32BE. pose proof (blen_nonneg pre). pose proof (blen_nonneg post).
  rewrite blen_app. change (a :: b :: c :: d :: post) with ([a;b;c;d] ++ post) at 1.
  rewrite blen_app. change (blen [a;b;c;d]) with 4.
  in_bounds.
  replace (blen pre) with (blen pre + Z.of_nat 0) at 1 by lia.
  rewrite set_byte_app. change (blen pre + 1) with (blen pre + Z.of_nat 1).
  rewrite set_byte_app. change (blen pre + 2) with (blen pre + Z.of_nat 2).
  rewrite set_byte_app. change (blen pre + 3) with (blen pre + Z.of_nat 3).
  rewrite set_byte_app. simpl.
  rewrite !land_shiftr_255 by lia. change (Z.land v 255) with (Z.land v (Z.ones 8)).
  rewrite Z.land_ones by lia. unfold u32be. simpl List.app.
  reflexivity.
Qed.

Lemma byte_at_app pre l (i : nat) :
  byte_at (pre ++ l) (blen pre + Z.of_nat i)
  = match l !! i with Some x => Z_of_byte x | None => 0 end.
Proof.
  unfold byte_at, blen.
  replace (Z.to_nat _) with (List.length pre + i)%nat by lia.
  rewrite lookup_app_r by lia.
  now replace (List.length pre + i - List.length pre)%nat with i by lia.
Qed.

Lemma readUInt8_at pre x post :
  readUInt8 (pre ++ x :: post) (blen pre) = Ok (Z_of_byte x).
Proof.
  unfold readUInt8. pose proof (blen_nonneg pre). pose proof (blen_nonneg post).
  rewrite blen_app. change (x :: post) with ([x] ++ post) at 1. rewrite blen_app.
  change (blen [x]) with 1.
  in_bounds.
  replace (blen pre) with (blen pre + Z.of_nat 0) by lia.
  now rewrite byte_at_app.
Qed.

Lemma u32be_value v :
  0 <= v <= 4294967295 ->
  (v / 2 ^ 24 mod 256) * 2 ^ 24 + (v / 2 ^ 16 mod 256) * 2 ^ 16
  + (v / 2 ^ 8 mod 256) * 2 ^ 8 + v mod 256 = v.
Proof.
  intros Hv. change (2 ^ 24) with 16777216. change (2 ^ 16) with 65536. change (2 ^ 8) with 256.
  Z.div_mod_to_equations. lia.
Qed.

Lemma readUInt32BE_at pre v post :
  0 <= v <= 4294967295 ->
  readUInt32BE (pre ++ u32be v ++ post) (blen pre) = Ok v.
Proof.
  intros Hv. unfold readUInt32BE. pose proof (blen_nonneg pre). pose proof (blen_nonneg post).
  rewrite !blen_app. change (blen (u32be v)) with 4.
  in_bounds.
  replace (blen pre) with (blen pre + Z.of_nat 0) at 1 by lia.
  change (blen pre + 1) with (blen pre + Z.of_nat 1).
  change (blen pre + 2) with (blen pre + Z.of_nat 2).
  change (blen pre + 3) with (blen pre + Z.of_nat 3).
  rewrite !byte_at_app. simpl.
  rewrite !Z_of_byte_of_Z, !Z.mod_mod by lia.
  now rewrite u32be_value.
Qed.

Lemma slice_at pre mid post :
  slice (pre ++ mid ++ post) (blen pre) (blen pre + blen mid) = mid.
Proof.
  unfold slice, clamp_index. pose proof (blen_nonneg pre). pose proof (blen_nonneg mid).
  pose proof (blen_nonneg post). rewrite !blen_app.
  destruct (Z.ltb_spec (blen pre) 0); [lia|].
  destruct (Z.ltb_spec (blen pre + blen mid) 0); [lia|].
  rewrite !Z.min_l by lia.
  unfold blen. rewrite Nat2Z.id, drop_app_length.
  replace (Z.to_nat _) with (List.length mid) by lia.
  now rewrite take_app_length.
Qed.

End RuntimeFacts.

(** ** The storage engine *)

Module FastDBFacts.

Import FastDB RuntimeFacts.

Section Engine.

Variable JSON_stringify : jsvalue -> string.
Variable JSON_parse : string -> option jsvalue.

Abbreviation value_text := (value_text JSON_stringify).

Lemma serializeRecord_bytes op key v :
  fits_u32 key ->
  fits_u32 (value_text v) ->
  serializeRecord JSON_stringify op key v =
    Ok (wal_record (opcode op) (Buffer_from key) (Buffer_from (value_text v))).
Proof.
  intros Hk Hv. unfold fits_u32 in *. unfold serializeRecord.
  fold (FastDB.value_text JSON_stringify v). fold (opcode op).
  set (kb := Buffer_from key) in *. set (vb := Buffer_from (value_text v)) in *.
  pose proof (blen_nonneg kb) as Hk0. pose proof (blen_nonneg vb) as Hv0.
  assert (Ha : Buffer_alloc (1 + 4 + 4 + blen kb + blen vb)
          = [] ++ x00 :: [x00;x00;x00;x00;x00;x00;x00;x00]
              ++ List.repeat x00 (List.length kb) ++ List.repeat x00 (List.length vb)).
  { unfold Buffer_alloc, blen.
    replace (Z.to_nat _) with (9 + (List.length kb + List.length vb))%nat by lia.
    rewrite repeat_app. simpl. now rewrite repeat_app. }
  rewrite Ha. clear Ha.
  assert (Hop : 0 <= opcode op <= 255) by (unfold opcode; destruct (String.eqb op "put"); lia).
  change 0 with (blen []) at 1.
  rewrite writeUInt8_at by exact Hop.
  unfold mbind, outcome_bind, bind.
  change ([] ++ byte_of_Z (opcode op) :: ?l) with ([byte_of_Z (opcode op)] ++ l).
  simpl List.app at 2.
  change 1 with (blen [byte_of_Z (opcode op)]) at 1.
  rewrite writeUInt32BE_at by lia.
  set (hd5 := [byte_of_Z (opcode op)] ++ u32be (blen kb)).
  rewrite (app_assoc [byte_of_Z (opcode op)]). fold hd5.
  change 5 with (blen hd5) at 1.
  rewrite writeUInt32BE_at by lia.
  set (hd9 := hd5 ++ u32be (blen vb)).
  rewrite (app_assoc hd5). fold hd9.
  rewrite copy_exact by (try reflexivity; now rewrite repeat_length).
  rewrite (app_assoc hd9 kb).
  rewrite <- (app_nil_r (List.repeat x00 (List.length vb))).
  rewrite copy_exact.
  - rewrite app_nil_r. unfold wal_record, hd9, hd5. now rewrite <- !app_assoc.
  - rewrite blen_app. reflexivity.
  - now rewrite repeat_length.
Qed.

Lemma toString_from s : Buffer_toString (Buffer_from s) = s.
Proof. apply string_of_list_byte_of_string. Qed.

Lemma blen_encode r :
  blen (encode r) = 9 + blen (Buffer_from (l_key r)) + blen (Buffer_from (l_text r)).
Proof.
  unfold encode, wal_record. rewrite !blen_app.
  change (blen (u32be _)) with 4. change (blen [_]) with 1. lia.
Qed.

Lemma replay_one clock fuel n pre r post t :
  well_formed r ->
  replay JSON_parse (S fuel) clock n (pre ++ encode r ++ post) (blen pre) t
  = replay JSON_parse fuel clock (S n) (pre ++ encode r ++ post)
      (blen (pre ++ encode r))
      (applyRecord (clock n) (if l_op r =? 1 then "put" else "del")
         (l_key r) (revive JSON_parse (l_text r)) t).
Proof.
  intros (Hop & Hk & Hv). unfold fits_u32 in *.
  pose proof (blen_encode r) as He.
  set (kb := Buffer_from (l_key r)) in *. set (vb := Buffer_from (l_text r)) in *.
  pose proof (blen_nonneg pre). pose proof (blen_nonneg post).
  pose proof (blen_nonneg kb). pose proof (blen_nonneg vb).
  set (ob := byte_of_Z (l_op r)).
  assert (Hb : Z_of_byte ob = l_op r).
  { unfold ob. rewrite Z_of_byte_of_Z. apply Z.mod_small. lia. }
  rewrite (blen_app pre (encode r)), He.
  set (whole := pre ++ encode r ++ post).
  assert (Hw : blen whole = blen pre + (9 + blen kb + blen vb) + blen post).
  { unfold whole. rewrite !blen_app, He. lia. }
  assert (E0 : whole = pre ++ ob :: (u32be (blen kb) ++ u32be (blen vb) ++ kb ++ vb ++ post)).
  { unfold whole, encode, wal_record. fold kb vb ob. now rewrite <- !app_assoc. }
  assert (E1 : whole = (pre ++ [ob]) ++ u32be (blen kb) ++ (u32be (blen vb) ++ kb ++ vb ++ post)).
  { rewrite E0. now rewrite <- app_assoc. }
  assert (E2 : whole = (pre ++ [ob] ++ u32be (blen kb)) ++ u32be (blen vb) ++ (kb ++ vb ++ post)).
  { rewrite E0. now rewrite <- !app_assoc. }
  assert (E3 : whole = (pre ++ [ob] ++ u32be (blen kb) ++ u32be (blen vb)) ++ kb ++ (vb ++ post)).
  { rewrite E0. now rewrite <- !app_assoc. }
  assert (E4 : whole = (pre ++ [ob] ++ u32be (blen kb) ++ u32be (blen vb) ++ kb) ++ vb ++ post).
  { rewrite E0. now rewrite <- !app_assoc. }
  assert (L4 : forall x, blen (u32be x) = 4) by reflexivity.
  assert (L1 : blen [ob] = 1) by reflexivity.
  assert (R0 : readUInt8 whole (blen pre) = Ok (l_op r)).
  { rewrite E0, readUInt8_at. now rewrite Hb. }
  assert (R1 : readUInt32BE whole (blen pre + 1) = Ok (blen kb)).
  { rewrite E1. replace (blen pre + 1) with (blen (pre ++ [ob])) by now rewrite blen_app.
    apply readUInt32BE_at. lia. }
  assert (R2 : readUInt32BE whole (blen pre + 1 + 4) = Ok (blen vb)).
  { rewrite E2. replace (blen pre + 1 + 4) with (blen (pre ++ [ob] ++ u32be (blen kb)))
      by (rewrite !blen_app, L4, L1; lia).
    apply readUInt32BE_at. lia. }
  assert (S1 : slice whole (blen pre + 1 + 4 + 4) (blen pre + 1 + 4 + 4 + blen kb) = kb).
  { rewrite E3.
    replace (blen pre + 1 + 4 + 4) with (blen (pre ++ [ob] ++ u32be (blen kb) ++ u32be (blen vb)))
      by (rewrite !blen_app, !L4, L1; lia).
    apply slice_at. }
  assert (S2 : slice whole (blen pre + 1 + 4 + 4 + blen kb)
                 (blen pre + 1 + 4 + 4 + blen kb + blen vb) = vb).
  { rewrite E4.
    replace (blen pre + 1 + 4 + 4 + blen kb)
      with (blen (pre ++ [ob] ++ u32be (blen kb) ++ u32be (blen vb) ++ kb))
      by (rewrite !blen_app, !L4, L1; lia).
    apply slice_at. }
  clearbody whole.
  cbn [replay].
  replace (blen pre <? blen whole) with true by (symmetry; apply Z.ltb_lt; lia).
  rewrite R0. unfold mbind, outcome_bind, bind. rewrite R1, R2, S1, S2.
  unfold kb, vb. rewrite !toString_from.
  f_equal. lia.
Qed.

Lemma blen_encode_all_cons r rs : encode_all (r :: rs) = encode r ++ encode_all rs.
Proof. reflexivity. Qed.

Lemma encode_all_app rs1 rs2 : encode_all (rs1 ++ rs2) = encode_all rs1 ++ encode_all rs2.
Proof. unfold encode_all, Buffer_concat. now rewrite map_app, concat_app. Qed.

Lemma replay_all clock rs : forall fuel n pre post t,
  Forall well_formed rs ->
  replay JSON_parse (List.length rs + fuel) clock n (pre ++ encode_all rs ++ post) (blen pre) t
  = replay JSON_parse fuel clock (List.length rs + n) (pre ++ encode_all rs ++ post)
      (blen (pre ++ encode_all rs)) (redo JSON_parse clock n rs t).
Proof.
  induction rs as [|r rs IH]; intros fuel n pre post t Hwf.
  - simpl. now rewrite app_nil_r.
  - inversion Hwf as [|? ? Hr Hrs]; subst.
    rewrite blen_encode_all_cons. cbn [List.length Nat.add].
    rewrite <- (app_assoc (encode r)).
    rewrite replay_one by assumption.
    rewrite (app_assoc pre (encode r)).
    rewrite IH by assumption. cbn [redo].
    rewrite <- !app_assoc. f_equal. lia.
Qed.

Lemma length_encode_ge r : (1 <= List.length (encode r))%nat.
Proof. unfold encode, wal_record. simpl. lia. Qed.

Lemma length_encode_all rs : (List.length rs <= List.length (encode_all rs))%nat.
Proof.
  induction rs as [|r rs IH]; [simpl; lia|].
  rewrite blen_encode_all_cons, length_app. pose proof (length_encode_ge r). simpl. lia.
Qed.

Lemma replay_end fuel clock n data t :
  replay JSON_parse fuel clock n data (blen data) t = Ok t.
Proof. destruct fuel; simpl; now rewrite Z.ltb_irrefl. Qed.

(** Recovery over a WAL made of complete records redoes them all. *)
Lemma replay_wal clock rs t :
  Forall well_formed rs ->
  replay JSON_parse (List.length (encode_all rs)) clock 0 (encode_all rs) 0 t
  = Ok (redo JSON_parse clock 0 rs t).
Proof.
  intros Hwf. pose proof (length_encode_all rs) as Hl.
  replace (List.length (encode_all rs))
    with (List.length rs + (List.length (encode_all rs) - List.length rs))%nat at 1 by lia.
  pose proof (replay_all clock rs (List.length (encode_all rs) - List.length rs)
                0 [] [] t Hwf) as H.
  rewrite app_nil_r in H. cbn [List.app] in H. change (blen []) with 0 in H.
  rewrite H. apply replay_end.
Qed.


Abbreviation serializeRecord := (serializeRecord JSON_stringify).
Abbreviation put := (put JSON_stringify).
Abbreviation del := (del JSON_stringify).
Abbreviation run := (run JSON_stringify).
Abbreviation step := (step JSON_stringify).
Abbreviation log_of := (log_of JSON_stringify).
Abbreviation revive := (revive JSON_parse).
Abbreviation redo := (redo JSON_parse).
Abbreviation readback := (readback JSON_stringify JSON_parse).
Abbreviation reached := (reached JSON_stringify).
Abbreviation logged_of := (logged_of JSON_stringify).

Lemma writeUInt32BE_big b v off :
  4294967295 < v -> writeUInt32BE b v off = Throw RangeError.
Proof.
  intros Hv. unfold writeUInt32BE.
  replace (v <=? 4294967295) with false by (symmetry; apply Z.leb_gt; lia).
  now rewrite andb_false_r.
Qed.

(** A record that does not fit its length fields is refused. *)
Lemma serializeRecord_too_long op key v :
  ~ (fits_u32 key /\ fits_u32 (value_text v)) ->
  serializeRecord op key v = Throw RangeError.
Proof.
  intros Hn. unfold fits_u32 in *. unfold FastDB.serializeRecord.
  fold (FastDB.value_text JSON_stringify v). fold (opcode op).
  set (kb := Buffer_from key) in *. set (vb := Buffer_from (value_text v)) in *.
  pose proof (blen_nonneg kb) as Hk0. pose proof (blen_nonneg vb) as Hv0.
  assert (Ha : Buffer_alloc (1 + 4 + 4 + blen kb + blen vb)
          = [] ++ x00 :: [x00;x00;x00;x00;x00;x00;x00;x00]
              ++ List.repeat x00 (List.length kb) ++ List.repeat x00 (List.length vb)).
  { unfold Buffer_alloc, blen.
    replace (Z.to_nat _) with (9 + (List.length kb + List.length vb))%nat by lia.
    rewrite repeat_app. simpl. now rewrite repeat_app. }
  rewrite Ha. clear Ha.
  assert (Hop : 0 <= opcode op <= 255) by (unfold opcode; destruct (String.eqb op "put"); lia).
  change 0 with (blen []) at 1.
  rewrite writeUInt8_at by exact Hop.
  unfold mbind, outcome_bind, bind.
  destruct (Z_le_gt_dec (blen kb) 4294967295) as [Hk|Hk].
  - change ([] ++ byte_of_Z (opcode op) :: ?l) with ([byte_of_Z (opcode op)] ++ l).
    simpl List.app at 2.
    change 1 with (blen [byte_of_Z (opcode op)]) at 1.
    rewrite writeUInt32BE_at by lia.
    rewrite writeUInt32BE_big by lia. reflexivity.
  - rewrite writeUInt32BE_big by lia. reflexivity.
Qed.

Lemma serializeRecord_Ok op key v buf :
  serializeRecord op key v = Ok buf ->
  fits_u32 key /\ fits_u32 (value_text v)
  /\ buf = wal_record (opcode op) (Buffer_from key) (Buffer_from (value_text v)).
Proof.
  intros H.
  assert (Hf : fits_u32 key /\ fits_u32 (value_text v)).
  { unfold fits_u32.
    destruct (Z_le_gt_dec (blen (Buffer_from key)) 4294967295);
    destruct (Z_le_gt_dec (blen (Buffer_from (value_text v))) 4294967295);
    try (split; assumption);
    rewrite serializeRecord_too_long in H by (unfold fits_u32; lia); discriminate. }
  destruct Hf as [Hk Hv]. repeat split; try assumption.
  rewrite (serializeRecord_bytes op key v Hk Hv) in H. congruence.
Qed.

(** *** Replaying a log against the table the live process built *)

Lemma redo_app clock rs1 : forall rs2 n t,
  redo clock n (rs1 ++ rs2) t = redo clock (List.length rs1 + n) rs2 (redo clock n rs1 t).
Proof.
  induction rs1 as [|r rs1 IH]; intros rs2 n t; [reflexivity|].
  cbn [List.app FastDB.redo List.length]. rewrite IH. f_equal. lia.
Qed.

Lemma log_of_app evs1 evs2 : log_of (evs1 ++ evs2) = log_of evs1 ++ log_of evs2.
Proof. unfold FastDB.log_of. apply flat_map_app. Qed.

Lemma log_of_snoc hist ev : log_of (hist ++ [ev]) = log_of hist ++ logged_of ev.
Proof. rewrite log_of_app. unfold FastDB.log_of. simpl. now rewrite app_nil_r. Qed.

Lemma table_after_snoc hist ev t0 :
  table_after (hist ++ [ev]) t0 = table_step (table_after hist t0) ev.
Proof. unfold table_after. now rewrite fold_left_app. Qed.

Lemma reached_start L0 d0 t0 :
  walFile d0 = encode_all L0 -> Forall well_formed L0 ->
  reached L0 (snapshotFile d0) t0
    {| memTable := t0; walQueue := []; closed := false |} d0 [].
Proof.
  intros Hw Hwf. split; cbn [closed memTable walQueue FastDB.log_of flat_map];
    rewrite ?app_nil_r; try reflexivity; try assumption.
  now left.
Qed.

Lemma reached_step L0 s0 t0 e d hist ev e' d' :
  reached L0 s0 t0 e d hist -> step ev (e, d) = Ok (e', d') ->
  reached L0 s0 t0 e' d' (hist ++ [ev]).
Proof.
  intros [Hopen Htab Hwal Hwf Hsnap] Hstep.
  assert (Hkeep : snapshotFile d = s0
            \/ exists pre suf, hist ++ [ev] = pre ++ suf
                 /\ snapshotFile d = Some (Entries (map_to_list (table_after pre t0)))).
  { destruct Hsnap as [H|(pre & suf & -> & H)]; [now left|right].
    exists pre, (suf ++ [ev]). now rewrite app_assoc. }
  destruct ev as [now key v|now key| |]; cbn [FastDB.step] in Hstep.
  - unfold FastDB.put in Hstep. rewrite Hopen in Hstep.
    destruct (serializeRecord "put" key v) as [buf| |] eqn:Es; try discriminate.
    apply serializeRecord_Ok in Es as (Hk & Hv & ->).
    injection Hstep as <- <-.
    split; cbn [closed memTable walQueue]; try (assumption || reflexivity).
    + now rewrite table_after_snoc, Htab.
    + rewrite log_of_snoc, app_assoc, encode_all_app, <- Hwal.
      unfold Buffer_concat. rewrite concat_app, app_assoc. reflexivity.
    + rewrite log_of_snoc, app_assoc. apply Forall_app. split; [assumption|].
      constructor; [|constructor]. split; [now left|split; [exact Hk|exact Hv]].
  - unfold FastDB.del in Hstep. rewrite Hopen in Hstep.
    destruct (serializeRecord "del" key (JString "")) as [buf| |] eqn:Es; try discriminate.
    apply serializeRecord_Ok in Es as (Hk & Hv & ->).
    injection Hstep as <- <-.
    split; cbn [closed memTable walQueue]; try (assumption || reflexivity).
    + now rewrite table_after_snoc, Htab.
    + rewrite log_of_snoc, app_assoc, encode_all_app, <- Hwal.
      unfold Buffer_concat. rewrite concat_app, app_assoc. reflexivity.
    + rewrite log_of_snoc, app_assoc. apply Forall_app. split; [assumption|].
      constructor; [|constructor]. split; [now right|split; [exact Hk|exact Hv]].
  - injection Hstep as Hstep. unfold flush in Hstep. rewrite Hopen, orb_false_r in Hstep.
    assert (Hl : log_of (hist ++ [EvFlush]) = log_of hist)
      by (rewrite log_of_snoc; apply app_nil_r).
    assert (Ht : table_after (hist ++ [EvFlush]) t0 = table_after hist t0)
      by apply table_after_snoc.
    destruct (Nat.eqb (List.length (walQueue e)) 0).
    + injection Hstep as <- <-. split; rewrite ?Hl, ?Ht; assumption.
    + injection Hstep as <- <-.
      split; cbn [closed memTable walQueue walFile snapshotFile];
        rewrite ?Hl, ?Ht; try (assumption || reflexivity).
      change (Buffer_concat []) with (@nil byte). now rewrite app_nil_r.
  - injection Hstep as <- <-. unfold snapshot_tick. rewrite Hopen.
    assert (Hl : log_of (hist ++ [EvSnapshot]) = log_of hist)
      by (rewrite log_of_snoc; apply app_nil_r).
    assert (Ht : table_after (hist ++ [EvSnapshot]) t0 = table_after hist t0)
      by apply table_after_snoc.
    split; cbn [takeSnapshot fst walFile snapshotFile]; rewrite ?Hl, ?Ht;
      try assumption.
    right. exists hist, [EvSnapshot]. split; [reflexivity|]. now rewrite Htab.
Qed.

Lemma reached_run L0 s0 t0 evs : forall e d hist e' d',
  reached L0 s0 t0 e d hist -> run evs (e, d) = Ok (e', d') ->
  reached L0 s0 t0 e' d' (hist ++ evs).
Proof.
  induction evs as [|ev evs IH]; intros e d hist e' d' Hr Hrun.
  - injection Hrun as <- <-. now rewrite app_nil_r.
  - cbn [FastDB.run] in Hrun.
    destruct (step ev (e, d)) as [[e1 d1]| |] eqn:Es; try discriminate.
    unfold mbind, outcome_bind, bind in Hrun.
    replace (hist ++ ev :: evs) with ((hist ++ [ev]) ++ evs)
      by now rewrite <- app_assoc.
    eapply IH; [|exact Hrun]. eapply reached_step; eassumption.
Qed.

(** Recovery over the directory a process leaves once its queue is on
    disk, through a flush or through [close]. *)
Lemma recover_reached clock L0 s0 t0 e d hist d' :
  reached L0 s0 t0 e d hist ->
  walFile d' = walFile d ++ Buffer_concat (walQueue e) ->
  recover JSON_parse clock d' ∅
  = Ok (redo clock 0 (L0 ++ log_of hist) (load_snapshot (snapshotFile d') ∅)).
Proof.
  intros [_ _ Hwal Hwf _] Hd. unfold recover.
  rewrite Hd, Hwal. now apply replay_wal.
Qed.

(** *** A key at a time *)

Lemma table_untouched k evs : forall t,
  ~ In k (keys_of (log_of evs)) -> table_after evs t !! k = t !! k.
Proof.
  unfold table_after, keys_of.
  induction evs as [|ev evs IH]; intros t Hk; [reflexivity|].
  cbn [fold_left FastDB.log_of flat_map] in *. rewrite map_app, in_app_iff in Hk.
  rewrite IH by tauto.
  destruct ev as [now key v|now key| |]; cbn [table_step FastDB.logged_of List.map l_key] in *;
    try reflexivity.
  - apply lookup_insert_ne. intros ->. apply Hk. left. now left.
  - apply lookup_delete_ne. intros ->. apply Hk. left. now left.
Qed.

Lemma redo_untouched clock k rs : forall n t,
  ~ In k (keys_of rs) -> redo clock n rs t !! k = t !! k.
Proof.
  unfold keys_of. induction rs as [|r rs IH]; intros n t Hk; [reflexivity|].
  cbn [FastDB.redo List.map] in *. rewrite IH by (intros H; apply Hk; now right).
  unfold applyRecord. destruct (l_op r =? 1); cbn [String.eqb Ascii.eqb Bool.eqb].
  - apply lookup_insert_ne. intros E. apply Hk. now left.
  - apply lookup_delete_ne. intros E. apply Hk. now left.
Qed.

Lemma applyRecord_lookup now now' op k v t t' :
  value <$> (applyRecord now (if op =? 1 then "put" else "del") k v t !! k)
  = value <$> (applyRecord now' (if op =? 1 then "put" else "del") k v t' !! k).
Proof.
  unfold applyRecord. destruct (op =? 1); cbn [String.eqb Ascii.eqb Bool.eqb].
  - now rewrite !lookup_insert_eq.
  - now rewrite !lookup_delete_eq.
Qed.

Lemma applyRecord_stamp now op k v t r :
  applyRecord now (if op =? 1 then "put" else "del") k v t !! k = Some r ->
  ts r = now.
Proof.
  unfold applyRecord. destruct (op =? 1); cbn [String.eqb Ascii.eqb Bool.eqb].
  - rewrite lookup_insert_eq. now intros [= <-].
  - now rewrite lookup_delete_eq.
Qed.

(** A key the log mentions gets its value from the log, and its timestamp
    from the clock of the replay. *)
Lemma redo_mentioned c c' k rs : forall n n' t t',
  In k (keys_of rs) ->
  value <$> (redo c n rs t !! k) = value <$> (redo c' n' rs t' !! k)
  /\ forall r, redo c n rs t !! k = Some r -> exists i, ts r = c i.
Proof.
  unfold keys_of. induction rs as [|r0 rs IH]; intros n n' t t' Hk; [destruct Hk|].
  cbn [FastDB.redo List.map] in *.
  destruct (in_dec String.string_dec k (List.map l_key rs)) as [Hin|Hout].
  - now apply IH.
  - destruct Hk as [<-|Hk]; [|contradiction].
    rewrite !(redo_untouched _ _ rs) by exact Hout. split.
    + apply applyRecord_lookup.
    + intros r Hr. exists n. now apply applyRecord_stamp in Hr.
Qed.

(** A key the process mutated is recovered with its live value read back. *)
Lemma mutated_key_recovered clock k evs : forall n t t',
  In k (keys_of (log_of evs)) ->
  match table_after evs t !! k with
  | None => redo clock n (log_of evs) t' !! k = None
  | Some r =>
      exists r', redo clock n (log_of evs) t' !! k = Some r'
                 /\ value r' = readback (value r)
                 /\ exists i, ts r' = clock i
  end.
Proof.
  induction evs as [|ev evs IH]; intros n t t' Hk; [destruct Hk|].
  change (table_after (ev :: evs) t) with (table_after evs (table_step t ev)).
  change (log_of (ev :: evs)) with (logged_of ev ++ log_of evs) in *.
  rewrite redo_app.
  destruct (in_dec String.string_dec k (keys_of (log_of evs))) as [Hin|Hout].
  - now apply IH.
  - unfold keys_of in Hk. rewrite map_app, in_app_iff in Hk.
    destruct Hk as [Hk|Hk]; [|contradiction].
    rewrite table_untouched, redo_untouched by exact Hout.
    destruct ev as [now key v|now key| |];
      cbn [FastDB.logged_of List.map l_key In] in Hk; try tauto;
      destruct Hk as [<-|[]];
      cbn [table_step FastDB.logged_of FastDB.redo l_op l_key l_text].
    + change (1 =? 1) with true. cbv iota. unfold applyRecord.
      cbn [String.eqb Ascii.eqb Bool.eqb]. rewrite !lookup_insert_eq.
      eexists. split; [reflexivity|]. split; [reflexivity|]. now exists n.
    + change (2 =? 1) with false. cbv iota. unfold applyRecord.
      cbn [String.eqb Ascii.eqb Bool.eqb]. now rewrite !lookup_delete_eq.
Qed.

Lemma fold_insert_rev (l : list (string * record)) (t : gmap string record) :
  fold_left (fun m kv => <[fst kv := snd kv]> m) l t
  = fold_right (fun kv m => <[fst kv := snd kv]> m) t (rev l).
Proof. symmetry. apply fold_left_rev_right. Qed.

(** Loading the snapshot of a table gives the table back. *)
Lemma load_map_to_list (m t : gmap string record) :
  load_snapshot (Some (Entries (map_to_list m))) t = m.
Proof.
  cbn [load_snapshot]. rewrite fold_insert_rev.
  change (fold_right (fun kv m0 => <[fst kv := snd kv]> m0) ∅ (rev (map_to_list m)))
    with (list_to_map (M := gmap string record) (rev (map_to_list m))).
  symmetry. apply list_to_map_flip, Permutation.Permutation_rev.
Qed.

Lemma keys_of_app rs1 rs2 : keys_of (rs1 ++ rs2) = keys_of rs1 ++ keys_of rs2.
Proof. apply map_app. Qed.

Lemma fmap_value_eq (o o' : option record) :
  value <$> o = value <$> o' ->
  match o with
  | None => o' = None
  | Some r => exists r', o' = Some r' /\ value r' = value r
  end.
Proof.
  destruct o as [r|], o' as [r'|]; cbn; try discriminate; intros H;
    [|reflexivity]. exists r'. split; [reflexivity|]. congruence.
Qed.

(** The record recovered for a key, against the live one. *)
Lemma recovered_key clock c0 L0 s0 e d hist k :
  reached L0 s0 (redo c0 0 L0 (load_snapshot s0 ∅)) e d hist ->
  match memTable e !! k with
  | None =>
      redo clock 0 (L0 ++ log_of hist) (load_snapshot (snapshotFile d) ∅) !! k
      = None
  | Some r =>
      exists r',
        redo clock 0 (L0 ++ log_of hist) (load_snapshot (snapshotFile d) ∅) !! k
        = Some r'
        /\ (In k (keys_of (log_of hist)) -> value r' = readback (value r))
        /\ (~ In k (keys_of (log_of hist)) -> value r' = value r)
        /\ (In k (keys_of (L0 ++ log_of hist)) -> exists i, ts r' = clock i)
        /\ (~ In k (keys_of (L0 ++ log_of hist)) -> ts r' = ts r)
  end.
Proof.
  intros [_ Htab _ _ Hsnap]. rewrite Htab, redo_app, keys_of_app. clear Htab.
  set (t0 := redo c0 0 L0 (load_snapshot s0 ∅)) in *.
  set (rec0 := redo clock 0 L0 (load_snapshot (snapshotFile d) ∅)).
  destruct (in_dec String.string_dec k (keys_of (log_of hist))) as [Hin|Hout].
  - pose proof (mutated_key_recovered clock k hist (List.length L0 + 0) t0 rec0 Hin) as H.
    destruct (table_after hist t0 !! k) as [r|]; [|exact H].
    destruct H as (r' & Hr' & Hv & Hts). exists r'.
    split; [exact Hr'|]. split; [now intros _|]. split; [tauto|].
    split; [now intros _|]. rewrite in_app_iff. tauto.
  - rewrite table_untouched, redo_untouched by exact Hout.
    destruct (in_dec String.string_dec k (keys_of L0)) as [Hin0|Hout0].
    + destruct (redo_mentioned c0 clock k L0 0%nat 0%nat (load_snapshot s0 ∅)
                  (load_snapshot (snapshotFile d) ∅) Hin0) as [Hv _].
      destruct (redo_mentioned clock clock k L0 0%nat 0%nat
                  (load_snapshot (snapshotFile d) ∅)
                  (load_snapshot (snapshotFile d) ∅) Hin0) as [_ Hts].
      fold t0 rec0 in Hv, Hts. apply fmap_value_eq in Hv.
      destruct (t0 !! k) as [r|]; [|exact Hv].
      destruct Hv as (r' & Hr' & Hv). exists r'.
      split; [exact Hr'|]. split; [tauto|]. split; [now intros _|].
      split; [intros _; now apply Hts|]. rewrite in_app_iff. tauto.
    + assert (Hsame : rec0 !! k = t0 !! k).
      { unfold rec0, t0. rewrite !redo_untouched by exact Hout0.
        destruct Hsnap as [->|(pre & suf & -> & ->)]; [reflexivity|].
        rewrite load_map_to_list, table_untouched.
        - unfold t0. now rewrite redo_untouched by exact Hout0.
        - intros Hpre. apply Hout. rewrite log_of_app, keys_of_app, in_app_iff.
          now left. }
      rewrite Hsame. destruct (t0 !! k) as [r|]; [|reflexivity].
      exists r. split; [reflexivity|]. split; [tauto|]. split; [now intros _|].
      rewrite in_app_iff. split; [tauto|now intros _].
Qed.

Lemma makeFastDB_clean c0 d0 L0 :
  walFile d0 = encode_all L0 -> Forall well_formed L0 ->
  makeFastDB JSON_parse c0 d0
  = Ok {| memTable := redo c0 0 L0 (load_snapshot (snapshotFile d0) ∅);
          walQueue := []; closed := false |}.
Proof.
  intros Hw Hwf. unfold makeFastDB, recover. rewrite Hw.
  now rewrite replay_wal by assumption.
Qed.

Abbreviation mutate_all := (mutate_all JSON_stringify).
Abbreviation serializable := (serializable JSON_stringify).

Lemma put_open now key v e :
  closed e = false -> fits_u32 key -> fits_u32 (value_text v) ->
  put now key v e =
    Ok {| memTable := <[key := {| value := v; ts := now |}]> (memTable e);
          walQueue := walQueue e
            ++ [wal_record 1 (Buffer_from key) (Buffer_from (value_text v))];
          closed := false |}.
Proof.
  intros Ho Hk Hv. unfold FastDB.put. rewrite Ho.
  rewrite (serializeRecord_bytes "put" key v Hk Hv). reflexivity.
Qed.

Lemma del_open now key e :
  closed e = false -> fits_u32 key ->
  del now key e =
    Ok {| memTable := delete key (memTable e);
          walQueue := walQueue e
            ++ [wal_record 2 (Buffer_from key) []];
          closed := false |}.
Proof.
  intros Ho Hk. unfold FastDB.del. rewrite Ho.
  rewrite (serializeRecord_bytes "del" key (JString "") Hk).
  - reflexivity.
  - unfold fits_u32. vm_compute. discriminate.
Qed.

(** C9.  The record [put(key, value)] appends to the WAL queue is the op
    byte 1, the key length and the value length as big-endian 32-bit
    fields, the UTF-8 bytes of the key, and the bytes of the value text
    ([String(value)] for a scalar, [JSON.stringify(value)] for what
    [typeof] calls an object); the record [del(key)] appends has op byte 2,
    value length 0 and no value bytes. *)
Theorem wal_record_layout now key v e :
  closed e = false -> fits_u32 key -> fits_u32 (value_text v) ->
  (exists e',
      put now key v e = Ok e'
      /\ walQueue e' = walQueue e ++
           [[x01] ++ u32be (blen (Buffer_from key))
                  ++ u32be (blen (Buffer_from (value_text v)))
                  ++ Buffer_from key ++ Buffer_from (value_text v)])
  /\ (exists e',
      del now key e = Ok e'
      /\ walQueue e' = walQueue e ++
           [[x02] ++ u32be (blen (Buffer_from key)) ++ u32be 0
                  ++ Buffer_from key]).
Proof.
  intros Ho Hk Hv. split.
  - eexists. split; [apply put_open; assumption|]. reflexivity.
  - eexists. split; [apply del_open; assumption|].
    cbn [walQueue]. unfold wal_record. now rewrite app_nil_r.
Qed.

Lemma mutate_all_last key ms : forall e,
  closed e = false -> fits_u32 key -> Forall serializable ms ->
  exists e',
    mutate_all key ms e = Ok e' /\ closed e' = false
    /\ get key e' =
         match last ms with
         | Some (Put now v) => Some {| value := v; ts := now |}
         | Some (Del _) => None
         | None => get key e
         end.
Proof.
  induction ms as [|m rest IH]; intros e Ho Hk Hs.
  - exists e. repeat split; assumption || reflexivity.
  - inversion Hs as [|? ? Hm Hrest]; subst.
    cbn [FastDB.mutate_all FastDB.mutate].
    assert (Hstep : exists e1, FastDB.mutate JSON_stringify key m e = Ok e1 /\ closed e1 = false
              /\ get key e1 = match m with
                              | Put now v => Some {| value := v; ts := now |}
                              | Del _ => None
                              end).
    { destruct m as [now v|now]; cbn [FastDB.mutate].
      - rewrite put_open by assumption. eexists. repeat split.
        unfold get. cbn [memTable]. apply lookup_insert_eq.
      - rewrite del_open by assumption. eexists. repeat split.
        unfold get. cbn [memTable]. apply lookup_delete_eq. }
    destruct Hstep as (e1 & -> & Ho1 & Hg1).
    destruct (IH e1 Ho1 Hk Hrest) as (e' & Hrun & Ho' & Hg').
    exists e'. unfold mbind, outcome_bind, bind. repeat split; try assumption.
    rewrite Hg'. destruct rest as [|m' rest']; [exact Hg1|].
    change (last (m :: m' :: rest')) with (last (m' :: rest')).
    destruct (last (m' :: rest')) as [x|] eqn:E; [reflexivity|].
    apply last_None in E. discriminate.
Qed.

(** C8.  After any finite sequence of puts and deletes on one key, applied
    to an open engine, [get] of that key returns the record of the last
    mutation when it was a put, and null when it was a delete; when no
    mutation occurred it returns what the table held, which is null for a
    key the table does not hold. *)
Theorem last_mutation_wins key ms e :
  closed e = false -> fits_u32 key -> Forall serializable ms ->
  exists e',
    mutate_all key ms e = Ok e'
    /\ get key e' =
         match last ms with
         | Some (Put now v) => Some {| value := v; ts := now |}
         | Some (Del _) => None
         | None => get key e
         end
    /\ (ms = [] -> memTable e !! key = None -> get key e' = None).
Proof.
  intros Ho Hk Hs.
  destruct (mutate_all_last key ms e Ho Hk Hs) as (e' & Hrun & _ & Hg).
  exists e'. repeat split; try assumption.
  intros -> Hnone. rewrite Hg. exact Hnone.
Qed.

(** C2 (amended).  A process opens a directory whose WAL holds complete
    records and runs puts and deletes, with flushes and snapshots in
    between; once its queue is flushed, the next open succeeds and recovers
    a table with the keys of the live table.  For a key the process
    mutated, the recovered value is the live value read back from its WAL
    text; for any other key it is the live value.  For a key that has a
    record in the WAL, the timestamp is a clock reading of the replay;
    for any other key it is the live timestamp. *)
Theorem recovery_after_flush L0 d0 c0 e0 evs e d clock :
  walFile d0 = encode_all L0 -> Forall well_formed L0 ->
  makeFastDB JSON_parse c0 d0 = Ok e0 ->
  run evs (e0, d0) = Ok (e, d) ->
  walQueue e = [] ->
  exists e2,
    makeFastDB JSON_parse clock d = Ok e2
    /\ forall k,
         match memTable e !! k with
         | None => memTable e2 !! k = None
         | Some r =>
             exists r',
               memTable e2 !! k = Some r'
               /\ (In k (keys_of (log_of evs)) ->
                     value r' = readback (value r))
               /\ (~ In k (keys_of (log_of evs)) -> value r' = value r)
               /\ (In k (keys_of (L0 ++ log_of evs)) ->
                     exists i, ts r' = clock i)
               /\ (~ In k (keys_of (L0 ++ log_of evs)) -> ts r' = ts r)
         end.
Proof.
  intros Hw Hwf Hopen Hrun Hq.
  rewrite (makeFastDB_clean c0 d0 L0 Hw Hwf) in Hopen. injection Hopen as <-.
  pose proof (reached_run _ _ _ evs _ _ [] _ _ (reached_start L0 d0 _ Hw Hwf) Hrun)
    as Hr. cbn [List.app] in Hr.
  assert (Hd : walFile d = walFile d ++ Buffer_concat (walQueue e)).
  { rewrite Hq. change (Buffer_concat []) with (@nil byte). now rewrite app_nil_r. }
  unfold makeFastDB. rewrite (recover_reached clock _ _ _ e d evs d Hr Hd).
  eexists. split; [reflexivity|]. cbn [memTable]. intros k.
  exact (recovered_key clock c0 L0 (snapshotFile d0) e d evs k Hr).
Qed.

(** The same after [close], which writes the queue out itself. *)
Lemma recovery_after_close L0 d0 c0 e0 evs e d clock k :
  walFile d0 = encode_all L0 -> Forall well_formed L0 ->
  makeFastDB JSON_parse c0 d0 = Ok e0 ->
  run evs (e0, d0) = Ok (e, d) ->
  exists e2,
    makeFastDB JSON_parse clock (snd (close e d)) = Ok e2
    /\ match memTable e !! k with
       | None => memTable e2 !! k = None
       | Some r =>
           exists r',
             memTable e2 !! k = Some r'
             /\ (In k (keys_of (log_of evs)) -> value r' = readback (value r))
             /\ (~ In k (keys_of (log_of evs)) -> value r' = value r)
       end.
Proof.
  intros Hw Hwf Hopen Hrun.
  rewrite (makeFastDB_clean c0 d0 L0 Hw Hwf) in Hopen. injection Hopen as <-.
  pose proof (reached_run _ _ _ evs _ _ [] _ _ (reached_start L0 d0 _ Hw Hwf) Hrun)
    as Hr. cbn [List.app] in Hr.
  assert (Hd : walFile (snd (close e d)) = walFile d ++ Buffer_concat (walQueue e)
               /\ snapshotFile (snd (close e d)) = snapshotFile d).
  { unfold close. rewrite (reached_open _ _ _ _ _ _ _ Hr). cbn [snd].
    destruct (walQueue e) as [|b q]; cbn [List.length Nat.eqb walFile snapshotFile].
    - change (Buffer_concat []) with (@nil byte). now rewrite app_nil_r.
    - split; reflexivity. }
  destruct Hd as [Hd Hs].
  unfold makeFastDB. rewrite (recover_reached clock _ _ _ e d evs _ Hr Hd), Hs.
  eexists. split; [reflexivity|]. cbn [memTable].
  pose proof (recovered_key clock c0 L0 (snapshotFile d0) e d evs k Hr) as H.
  destruct (memTable e !! k) as [r|]; [|exact H].
  destruct H as (r' & Hr' & H1 & H2 & _). exists r'. tauto.
Qed.

Lemma byte_at_nonneg b i : 0 <= byte_at b i.
Proof.
  unfold byte_at. destruct (b !! Z.to_nat i) as [x|]; [|lia].
  pose proof (Z_of_byte_range x). lia.
Qed.

Lemma readUInt32BE_nonneg b offset v : readUInt32BE b offset = Ok v -> 0 <= v.
Proof.
  unfold readUInt32BE. destruct (_ && _); [|discriminate]. intros [= <-].
  pose proof (byte_at_nonneg b offset). pose proof (byte_at_nonneg b (offset + 1)).
  pose proof (byte_at_nonneg b (offset + 2)). pose proof (byte_at_nonneg b (offset + 3)).
  lia.
Qed.

(** The replay loop ends within as many rounds as the WAL has bytes: every
    round that does not throw moves the offset forward by 9 or more. *)
Lemma replay_terminates clock walData : forall fuel n offset t,
  0 <= offset -> blen walData - offset <= Z.of_nat fuel ->
  replay JSON_parse fuel clock n walData offset t <> Running.
Proof.
  induction fuel as [|fuel IH]; intros n offset t H0 Hf; cbn [replay].
  - destruct (Z.ltb_spec offset (blen walData)); [lia|discriminate].
  - destruct (Z.ltb_spec offset (blen walData)); [|discriminate].
    destruct (readUInt8 walData offset) as [op| |] eqn:E0; cbn;
      [|discriminate|unfold readUInt8 in E0; destruct (_ && _); discriminate].
    destruct (readUInt32BE walData (offset + 1)) as [kl| |] eqn:E1; cbn;
      [|discriminate|unfold readUInt32BE in E1; destruct (_ && _); discriminate].
    destruct (readUInt32BE walData (offset + 1 + 4)) as [vl| |] eqn:E2; cbn;
      [|discriminate|unfold readUInt32BE in E2; destruct (_ && _); discriminate].
    apply readUInt32BE_nonneg in E1, E2. apply IH; lia.
Qed.

Lemma recover_terminates clock d t : recover JSON_parse clock d t <> Running.
Proof.
  unfold recover. apply replay_terminates; [lia|]. unfold blen. lia.
Qed.

(** After any number of complete records, a tail of 1 to 8 bytes makes
    recovery throw. *)
Lemma recover_torn_header clock rs tail s t :
  Forall well_formed rs ->
  (0 < List.length tail < 9)%nat ->
  recover JSON_parse clock {| walFile := encode_all rs ++ tail; snapshotFile := s |} t
  = Throw RangeError.
Proof.
  intros Hwf Htail. unfold recover. cbn [walFile snapshotFile].
  set (t0 := load_snapshot s t). clearbody t0.
  pose proof (length_encode_all rs) as Hl.
  rewrite length_app.
  replace (List.length (encode_all rs) + List.length tail)%nat
    with (List.length rs
          + S (List.length (encode_all rs) - List.length rs + (List.length tail - 1)))%nat
    by lia.
  pose proof (replay_all clock rs
                (S (List.length (encode_all rs) - List.length rs + (List.length tail - 1)))
                0 [] tail t0 Hwf) as H.
  cbn [List.app] in H. change (blen []) with 0 in H. rewrite H. clear H.
  set (data := encode_all rs ++ tail).
  assert (Hd : blen data = blen (encode_all rs) + blen tail) by apply blen_app.
  assert (Ht : 0 < blen tail < 9) by (unfold blen; lia).
  pose proof (blen_nonneg (encode_all rs)).
  cbn [replay].
  replace (blen (encode_all rs) <? blen data) with true by (symmetry; apply Z.ltb_lt; lia).
  unfold readUInt8.
  replace ((0 <=? blen (encode_all rs)) && (blen (encode_all rs) <=? blen data - 1))
    with true by (symmetry; rewrite andb_true_iff; split; lia).
  cbn. unfold readUInt32BE.
  destruct (Z.leb_spec (blen (encode_all rs) + 1) (blen data - 4)) as [H5|H5].
  - replace (0 <=? blen (encode_all rs) + 1) with true by (symmetry; apply Z.leb_le; lia).
    cbn.
    replace (blen (encode_all rs) + 1 + 4 <=? blen data - 4) with false
      by (symmetry; apply Z.leb_gt; lia).
    now rewrite andb_false_r.
  - now rewrite andb_false_r.
Qed.

(** C1.  A WAL that ends in a truncated header makes [makeFastDB] throw:
    after the complete record of [put('valid', 'data')], one stray byte is
    read as an op code and the length field behind it is out of range.
    Nine or more stray bytes are not skipped either, they are applied as
    one more record with key and value clamped to the file: the second
    directory holds [put('a', '1')] followed by an op byte 2, key length 1,
    value length [0xFFFFFFFF] and the byte [a], and recovery deletes [a]. *)
Theorem open_on_torn_wal clock :
  makeFastDB JSON_parse clock
    {| walFile := encode {| l_op := 1; l_key := "valid"; l_text := "data" |}
                    ++ [x63];
       snapshotFile := None |}
  = Throw RangeError
  /\ makeFastDB JSON_parse clock
       {| walFile := encode {| l_op := 1; l_key := "a"; l_text := "1" |}
                       ++ [x02; x00; x00; x00; x01; xff; xff; xff; xff; x61];
          snapshotFile := None |}
     = Ok fresh_engine.
Proof.
  split.
  - vm_compute. reflexivity.
  - vm_compute. reflexivity.
Qed.

(** The garbage of the repository's own test, the 14 bytes of
    ['corrupted data'] behind [put('valid', 'data')], is long enough to be
    taken for a record: op code [0x63], hence a delete, of the key
    [' data'] that the clamped slice yields.  Open succeeds and the table
    is as before, which is all that test observes. *)
Example corrupted_wal_test clock :
  makeFastDB JSON_parse clock
    {| walFile := encode {| l_op := 1; l_key := "valid"; l_text := "data" |}
                    ++ Buffer_from "corrupted data";
       snapshotFile := None |}
  = Ok {| memTable := {["valid" := {| value := revive "data"; ts := clock 0%nat |}]};
          walQueue := []; closed := false |}.
Proof. vm_compute. reflexivity. Qed.

End Engine.

(** *** Concrete runs, with the reference JSON reader and printer *)

Lemma wal_record_layout_witness :
  closed fresh_engine = false
  /\ fits_u32 "k"
  /\ fits_u32 (value_text MiniJSON.stringify (JArray [JNumber "1"]))
  /\ (exists e',
        put MiniJSON.stringify 7 "k" (JArray [JNumber "1"]) fresh_engine = Ok e'
        /\ walQueue e' =
             [[x01; x00; x00; x00; x01; x00; x00; x00; x03; x6b; x5b; x31; x5d]])
  /\ (exists e',
        del MiniJSON.stringify 7 "k" fresh_engine = Ok e'
        /\ walQueue e' = [[x02; x00; x00; x00; x01; x00; x00; x00; x00; x6b]]).
Proof.
  assert (H1 : fits_u32 "k") by (vm_compute; discriminate).
  assert (H2 : fits_u32 (value_text MiniJSON.stringify (JArray [JNumber "1"])))
    by (vm_compute; discriminate).
  split; [reflexivity|]. split; [exact H1|]. split; [exact H2|].
  exact (wal_record_layout MiniJSON.stringify 7 "k" (JArray [JNumber "1"])
           fresh_engine eq_refl H1 H2).
Defined.

Lemma last_mutation_wins_witness :
  let ms := [Put 1 (JString "Alice"); Del 2; Put 3 (JString "Bob")] in
  closed fresh_engine = false
  /\ fits_u32 "k"
  /\ Forall (serializable MiniJSON.stringify) ms
  /\ exists e',
       mutate_all MiniJSON.stringify "k" ms fresh_engine = Ok e'
       /\ get "k" e' = Some {| value := JString "Bob"; ts := 3 |}.
Proof.
  intros ms.
  assert (H1 : fits_u32 "k") by (vm_compute; discriminate).
  assert (H2 : Forall (serializable MiniJSON.stringify) ms).
  { repeat constructor; vm_compute; discriminate. }
  split; [reflexivity|]. split; [exact H1|]. split; [exact H2|].
  destruct (last_mutation_wins MiniJSON.stringify "k" ms fresh_engine eq_refl H1 H2)
    as (e' & Hrun & Hget & _).
  exists e'. split; [exact Hrun|exact Hget].
Defined.

Lemma recovery_after_flush_witness :
  walFile sample_start = encode_all sample_log
  /\ Forall well_formed sample_log
  /\ makeFastDB MiniJSON.parse (fun i => 50 + Z.of_nat i) sample_start
     = Ok sample_opened
  /\ run MiniJSON.stringify sample_events (sample_opened, sample_start)
     = Ok (sample_engine, sample_disk)
  /\ walQueue sample_engine = []
  /\ exists e2 r',
       makeFastDB MiniJSON.parse (fun i => 200 + Z.of_nat i) sample_disk = Ok e2
       /\ memTable e2 !! "o" = Some r'
       /\ value r' = readback MiniJSON.stringify MiniJSON.parse
                       (JArray [JNumber "1"])
       /\ exists i, ts r' = 200 + Z.of_nat i.
Proof.
  assert (H1 : Forall well_formed sample_log).
  { repeat constructor; vm_compute; discriminate. }
  assert (H2 : makeFastDB MiniJSON.parse (fun i => 50 + Z.of_nat i) sample_start
               = Ok sample_opened) by (vm_compute; reflexivity).
  assert (H3 : run MiniJSON.stringify sample_events (sample_opened, sample_start)
               = Ok (sample_engine, sample_disk)) by (vm_compute; reflexivity).
  split; [reflexivity|]. split; [exact H1|]. split; [exact H2|].
  split; [exact H3|]. split; [reflexivity|].
  destruct (recovery_after_flush MiniJSON.stringify MiniJSON.parse sample_log
              sample_start (fun i => 50 + Z.of_nat i) sample_opened sample_events
              sample_engine sample_disk (fun i => 200 + Z.of_nat i)
              eq_refl H1 H2 H3 eq_refl) as (e2 & Hopen & Hkeys).
  specialize (Hkeys "o").
  assert (Ho : memTable sample_engine !! "o"
               = Some {| value := JArray [JNumber "1"]; ts := 101 |})
    by (vm_compute; reflexivity).
  rewrite Ho in Hkeys. destruct Hkeys as (r' & Hr' & Hv & _ & Hts & _).
  exists e2, r'. split; [exact Hopen|]. split; [exact Hr'|].
  split.
  - apply Hv. cbn. tauto.
  - apply Hts. cbn. tauto.
Defined.

(** C2 as stated fails.  [put('k', 'v')] at time 100 and [put('n', 42)] at
    time 101, both flushed: the live table holds the string [v] stamped 100
    and the number 42 stamped 101; the table recovered at a later time
    holds [v] stamped with the time of the replay, and the string [42]. *)
Lemma recovery_differs_from_live :
  let wal := [x01; x00; x00; x00; x01; x00; x00; x00; x01; x6b; x76;
              x01; x00; x00; x00; x01; x00; x00; x00; x02; x6e; x34; x32] in
  let live := {| memTable := <["n" := {| value := JNumber "42"; ts := 101 |}]>
                               {["k" := {| value := JString "v"; ts := 100 |}]};
                 walQueue := []; closed := false |} in
  let recovered := {| memTable := <["n" := {| value := JString "42"; ts := 201 |}]>
                               {["k" := {| value := JString "v"; ts := 200 |}]};
                 walQueue := []; closed := false |} in
  run MiniJSON.stringify
      [EvPut 100 "k" (JString "v"); EvPut 101 "n" (JNumber "42"); EvFlush]
      (fresh_engine, empty_disk)
    = Ok (live, {| walFile := wal; snapshotFile := None |})
  /\ makeFastDB MiniJSON.parse (fun i => 200 + Z.of_nat i)
       {| walFile := wal; snapshotFile := None |} = Ok recovered
  /\ memTable recovered <> memTable live.
Proof.
  intros wal live recovered. split; [vm_compute; reflexivity|].
  split; [vm_compute; reflexivity|].
  intros H. apply (f_equal (fun m => m !! "k")) in H.
  vm_compute in H. discriminate H.
Qed.

End FastDBFacts.

(** ** Sorting *)

Module SortFacts.

Section StableSort.

Context {A : Type}.
Variable key : A -> Z.

Abbreviation by_key := (by_key key).

Abbreviation ordered := (StronglySorted (fun a b => by_key a b <= 0)).
Abbreviation same_key x := (fun a => by_key a x =? 0).

Lemma same_key_spec x a : same_key x a = true <-> key a = key x.
Proof. unfold by_key. rewrite Z.eqb_eq. lia. Qed.

Lemma in_filter_self x l : In x l -> In x (List.filter (same_key x) l).
Proof. intros H. apply filter_In. split; [exact H|]. apply same_key_spec. reflexivity. Qed.

(** Two orderings of the same elements that keep equal keys in the same
    order are the same list. *)
Lemma stable_sort_unique l1 : forall l2,
  ordered l1 -> ordered l2 ->
  (forall x, List.filter (same_key x) l1 = List.filter (same_key x) l2) ->
  l1 = l2.
Proof.
  induction l1 as [|a l1 IH]; intros l2 H1 H2 Hf.
  - destruct l2 as [|b l2]; [reflexivity|].
    specialize (Hf b). pose proof (in_filter_self b (b :: l2) (or_introl eq_refl)) as Hin.
    rewrite <- Hf in Hin. destruct Hin.
  - destruct l2 as [|b l2].
    + specialize (Hf a). pose proof (in_filter_self a (a :: l1) (or_introl eq_refl)) as Hin.
      rewrite Hf in Hin. destruct Hin.
    + inversion H1 as [|? ? Hs1 Ha]; subst. inversion H2 as [|? ? Hs2 Hb]; subst.
      rewrite List.Forall_forall in Ha, Hb.
      assert (Hab : key a = key b).
      { assert (In a (b :: l2)) as [->|Hin].
        { pose proof (in_filter_self a (a :: l1) (or_introl eq_refl)) as Hin.
          rewrite Hf in Hin. apply filter_In in Hin. tauto. }
        { reflexivity. }
        assert (In b (a :: l1)) as [->|Hin'].
        { pose proof (in_filter_self b (b :: l2) (or_introl eq_refl)) as Hin'.
          rewrite <- Hf in Hin'. apply filter_In in Hin'. tauto. }
        { reflexivity. }
        specialize (Ha _ Hin'). specialize (Hb _ Hin). unfold by_key in *. lia. }
      assert (Hhead : a = b /\ List.filter (same_key a) l1 = List.filter (same_key a) l2).
      { specialize (Hf a). cbn [List.filter] in Hf.
        replace (same_key a a) with true in Hf by (symmetry; now apply same_key_spec).
        replace (same_key a b) with true in Hf by (symmetry; now apply same_key_spec).
        now injection Hf. }
      destruct Hhead as [<- Ht]. f_equal. apply IH; try assumption.
      intros x. destruct (Z.eq_dec (key x) (key a)) as [E|E].
      * assert (Hx : forall l, List.filter (same_key x) l = List.filter (same_key a) l).
        { intros l. apply filter_ext. intros y. unfold by_key. now rewrite E. }
        now rewrite !Hx.
      * specialize (Hf x). cbn [List.filter] in Hf.
        replace (same_key x a) with false in Hf; [exact Hf|].
        symmetry. apply not_true_is_false. rewrite same_key_spec. congruence.
Qed.

(** The insertion sort of Part I is such an ordering. *)
Lemma insert_by_In x l y : In y (insert_by by_key x l) <-> y = x \/ In y l.
Proof.
  induction l as [|z l IH]; cbn [insert_by]; [simpl; intuition|].
  destruct (by_key x z <=? 0); simpl in *; [intuition|]. rewrite IH. intuition.
Qed.

Lemma insert_by_ordered x l : ordered l -> ordered (insert_by by_key x l).
Proof.
  induction 1 as [|z l Hs IH Hz]; cbn [insert_by].
  - repeat constructor.
  - destruct (Z.leb_spec (by_key x z) 0) as [Hle|Hgt].
    + constructor; [now constructor|]. constructor; [exact Hle|].
      rewrite List.Forall_forall in *. intros y Hy. specialize (Hz y Hy). unfold by_key in *. lia.
    + constructor; [exact IH|]. rewrite List.Forall_forall in *. intros y Hy.
      apply insert_by_In in Hy as [->|Hy]; [unfold by_key in *; lia|now apply Hz].
Qed.

Lemma insert_by_filter x0 x l :
  List.filter (same_key x0) (insert_by by_key x l)
  = List.filter (same_key x0) (x :: l).
Proof.
  induction l as [|z l IH]; cbn [insert_by]; [reflexivity|].
  destruct (Z.leb_spec (by_key x z) 0) as [Hle|Hgt]; [reflexivity|].
  cbn [List.filter] in *. rewrite IH.
  destruct (same_key x0 x) eqn:Ex; [|reflexivity].
  replace (same_key x0 z) with false; [reflexivity|].
  symmetry. apply not_true_is_false. apply same_key_spec in Ex.
  rewrite same_key_spec. unfold by_key in *. lia.
Qed.

Lemma Array_sort_compliant : compliant_sort by_key Array_sort.
Proof.
  intros l. unfold Array_sort. induction l as [|x l [IHs IHf]]; cbn [fold_right].
  - split; [constructor|reflexivity].
  - split; [now apply insert_by_ordered|].
    intros x0. rewrite insert_by_filter. cbn [List.filter]. now rewrite IHf.
Qed.

Lemma filter_none (f : A -> bool) l :
  (forall y, In y l -> f y = false) -> List.filter f l = [].
Proof.
  induction l as [|z l IH]; intros H; [reflexivity|].
  cbn [List.filter]. rewrite (H z (or_introl eq_refl)). apply IH.
  intros y Hy. apply H. now right.
Qed.

(** So is the sort that inserts from the left. *)
Lemma insert_behind_In x l y : In y (insert_behind by_key x l) <-> y = x \/ In y l.
Proof.
  induction l as [|z l IH]; cbn [insert_behind]; [simpl; intuition|].
  destruct (by_key z x <=? 0); simpl in *; [rewrite IH|]; intuition.
Qed.

Lemma insert_behind_ordered x l : ordered l -> ordered (insert_behind by_key x l).
Proof.
  induction 1 as [|z l Hs IH Hz]; cbn [insert_behind].
  - repeat constructor.
  - destruct (Z.leb_spec (by_key z x) 0) as [Hle|Hgt].
    + constructor; [exact IH|]. rewrite List.Forall_forall in *. intros y Hy.
      apply insert_behind_In in Hy as [->|Hy]; [exact Hle|now apply Hz].
    + constructor; [now constructor|]. constructor; [unfold by_key in *; lia|].
      rewrite List.Forall_forall in *. intros y Hy. specialize (Hz y Hy). unfold by_key in *. lia.
Qed.

Lemma insert_behind_filter x0 x l :
  ordered l ->
  List.filter (same_key x0) (insert_behind by_key x l)
  = List.filter (same_key x0) l ++ List.filter (same_key x0) [x].
Proof.
  induction 1 as [|z l Hs IH Hz]; cbn [insert_behind]; [reflexivity|].
  destruct (Z.leb_spec (by_key z x) 0) as [Hle|Hgt].
  - cbn [List.filter]. rewrite IH. now destruct (same_key x0 z).
  - cbn [List.filter]. destruct (same_key x0 x) eqn:Ex; [|now rewrite app_nil_r].
    apply same_key_spec in Ex.
    replace (same_key x0 z) with false
      by (symmetry; apply not_true_is_false; rewrite same_key_spec; unfold by_key in *; lia).
    replace (List.filter (same_key x0) l) with (@nil A); [reflexivity|].
    symmetry. apply filter_none.
    rewrite List.Forall_forall in *. intros y Hy. specialize (Hz y Hy).
    apply not_true_is_false. rewrite same_key_spec. unfold by_key in *. lia.
Qed.

Lemma Array_sort_left_compliant : compliant_sort by_key Array_sort_left.
Proof.
  intros l. unfold Array_sort_left.
  assert (H : forall acc, ordered acc ->
            ordered (fold_left (fun acc x => insert_behind by_key x acc) l acc)
            /\ forall x, List.filter (same_key x)
                           (fold_left (fun acc x => insert_behind by_key x acc) l acc)
                         = List.filter (same_key x) acc ++ List.filter (same_key x) l).
  { induction l as [|y l IH]; intros acc Hacc; cbn [fold_left].
    - split; [exact Hacc|]. intros x. now rewrite app_nil_r.
    - destruct (IH _ (insert_behind_ordered y acc Hacc)) as [Hs Hf].
      split; [exact Hs|]. intros x. rewrite Hf, insert_behind_filter by assumption.
      rewrite <- app_assoc. f_equal. cbn [List.filter]. now destruct (by_key y x =? 0). }
  destruct (H [] ltac:(constructor)) as [Hs Hf]. split; [exact Hs|]. intros x. now rewrite Hf.
Qed.

Lemma compliant_sorts_agree sort1 sort2 l :
  compliant_sort by_key sort1 -> compliant_sort by_key sort2 ->
  sort1 by_key l = sort2 by_key l.
Proof.
  intros H1 H2. destruct (H1 l) as [Hs1 Hf1]. destruct (H2 l) as [Hs2 Hf2].
  apply stable_sort_unique; try assumption.
  intros x. now rewrite Hf1, Hf2.
Qed.

Lemma compliant_sort_In sort l x :
  compliant_sort by_key sort -> (In x (sort by_key l) <-> In x l).
Proof.
  intros H. destruct (H l) as [_ Hf]. split; intros Hin.
  - apply in_filter_self in Hin. rewrite Hf in Hin. apply filter_In in Hin. tauto.
  - apply in_filter_self in Hin. rewrite <- Hf in Hin. apply filter_In in Hin. tauto.
Qed.

End StableSort.

End SortFacts.

(** ** The hash ring *)

Module HashFacts.

Import Hash SortFacts.

Section Ring.

Variable sha1_u32 : string -> Z.

Abbreviation buildRing := (buildRing sha1_u32).
Abbreviation buildRing_with := (buildRing_with sha1_u32).
Abbreviation pickNode := (pickNode sha1_u32).
Abbreviation vnode_entries := (vnode_entries sha1_u32).
Abbreviation ascending := (StronglySorted (fun a b => by_key hash a b <= 0)).

Lemma ushr1_half x : 0 <= x < 2 ^ 32 -> ushr1 x = x / 2.
Proof.
  intros H. unfold ushr1. rewrite Z.mod_small by exact H.
  now rewrite Z.shiftr_div_pow2 by lia.
Qed.

Lemma at_index_Some {A} (a : list A) i x :
  at_index a i = Some x <-> 0 <= i /\ a !! Z.to_nat i = Some x.
Proof.
  unfold at_index.
  destruct (Z.ltb_spec i 0); split; try intros [? ?];
    try lia; try discriminate; auto.
Qed.

Lemma at_index_in_range {A} (a : list A) i :
  0 <= i < alen a -> exists x, at_index a i = Some x.
Proof.
  intros H. unfold alen in H.
  destruct (lookup_lt_is_Some_2 a (Z.to_nat i)) as [x Hx]; [lia|].
  exists x. apply at_index_Some. split; [lia|exact Hx].
Qed.

Lemma at_index_range {A} (a : list A) i x :
  at_index a i = Some x -> 0 <= i < alen a.
Proof.
  intros H. apply at_index_Some in H as [H0 H]. apply lookup_lt_Some in H.
  unfold alen. lia.
Qed.

Lemma at_index_In {A} (a : list A) i x : at_index a i = Some x -> In x a.
Proof.
  intros H. apply at_index_Some in H as [_ H].
  apply list_elem_of_In, list_elem_of_lookup. eauto.
Qed.

Lemma In_at_index {A} (a : list A) x : In x a -> exists i, at_index a i = Some x.
Proof.
  intros H. apply list_elem_of_In, list_elem_of_lookup in H as [n Hn].
  exists (Z.of_nat n). apply at_index_Some. split; [lia|]. now rewrite Nat2Z.id.
Qed.

(** In an ascending ring, positions grow with the index. *)
Lemma ascending_at ring : ascending ring ->
  forall i j a b, i <= j -> at_index ring i = Some a -> at_index ring j = Some b ->
    hash a <= hash b.
Proof.
  induction 1 as [|x l Hs IH Hx]; intros i j a b Hij Ha Hb.
  - apply at_index_Some in Ha as [_ Ha]. discriminate.
  - apply at_index_Some in Ha as [Hi Ha]. apply at_index_Some in Hb as [Hj Hb].
    destruct (Z.to_nat i) as [|i'] eqn:Ei; destruct (Z.to_nat j) as [|j'] eqn:Ej;
      cbn in Ha, Hb.
    + injection Ha as <-. injection Hb as <-. lia.
    + injection Ha as <-. rewrite List.Forall_forall in Hx.
      assert (Hin : In b l) by (apply list_elem_of_In, list_elem_of_lookup; eauto).
      specialize (Hx b Hin). unfold by_key in Hx. lia.
    + lia.
    + apply (IH (Z.of_nat i') (Z.of_nat j')); try lia;
        apply at_index_Some; (split; [lia|]); now rewrite Nat2Z.id.
Qed.

(** The binary search ends at the first index whose position is not below
    the target. *)
Lemma search_first ring h : ascending ring -> alen ring < 2 ^ 31 ->
  forall fuel lo hi,
    0 <= lo -> lo <= hi + 1 -> hi < alen ring ->
    hi - lo + 1 <= Z.of_nat fuel ->
    (forall i e, 0 <= i < lo -> at_index ring i = Some e -> hash e < h) ->
    (forall i e, hi < i -> at_index ring i = Some e -> h <= hash e) ->
    exists r,
      search fuel ring h lo hi = Ok r
      /\ 0 <= r <= alen ring
      /\ (forall i e, 0 <= i < r -> at_index ring i = Some e -> hash e < h)
      /\ (forall i e, r <= i -> at_index ring i = Some e -> h <= hash e).
Proof.
  intros Hasc Hlen. induction fuel as [|fuel IH]; intros lo hi H0 H1 H2 Hf Hlow Hhigh.
  - cbn [search]. destruct (Z.leb_spec lo hi); [lia|].
    exists lo. repeat split; try lia; try assumption.
    intros i e Hi. apply Hhigh. lia.
  - cbn [search]. destruct (Z.leb_spec lo hi) as [Hle|Hgt].
    + rewrite ushr1_half by lia.
      assert (Hmid : lo <= (lo + hi) / 2 <= hi) by (split; Z.div_mod_to_equations; lia).
      destruct (at_index_in_range ring ((lo + hi) / 2)) as [e He]; [lia|].
      rewrite He. destruct (Z.ltb_spec (hash e) h) as [Hlt|Hge].
      * apply IH; try lia; try assumption.
        intros i e' Hi He'.
        pose proof (ascending_at ring Hasc i ((lo + hi) / 2) e' e ltac:(lia) He' He). lia.
      * apply IH; try lia; try assumption.
        intros i e' Hi He'.
        pose proof (at_index_range _ _ _ He').
        pose proof (ascending_at ring Hasc ((lo + hi) / 2) i e e' ltac:(lia) He He'). lia.
    + exists lo. repeat split; try lia; try assumption.
      intros i e Hi. apply Hhigh. lia.
Qed.

Lemma pickNode_first ring key :
  ascending ring -> 0 < alen ring < 2 ^ 31 ->
  exists i e,
    at_index ring i = Some e
    /\ pickNode ring key = Ok (node e)
    /\ ((sha1_u32 key <= hash e
         /\ forall j e', 0 <= j < i -> at_index ring j = Some e' ->
              hash e' < sha1_u32 key)
        \/ (i = 0 /\ forall e', In e' ring -> hash e' < sha1_u32 key)).
Proof.
  intros Hasc Hlen.
  destruct (search_first ring (sha1_u32 key) Hasc ltac:(lia)
              (S (List.length ring)) 0 (alen ring - 1))
    as (r & Hr & Hrange & Hlow & Hhigh); try (unfold alen in *; lia).
  - intros i e Hi He. apply at_index_range in He. lia.
  - unfold Hash.pickNode. rewrite Hr. unfold mbind, outcome_bind, bind.
    destruct (Z.eq_dec r (alen ring)) as [->|Hne].
    + destruct (at_index_in_range ring 0) as [e0 He0]; [lia|].
      exists 0, e0. split; [exact He0|].
      assert (Hnone : at_index ring (alen ring) = None).
      { destruct (at_index ring (alen ring)) as [x|] eqn:E; [|reflexivity].
        apply at_index_range in E. lia. }
      rewrite Hnone, He0. split; [reflexivity|]. right. split; [reflexivity|].
      intros e' Hin. apply In_at_index in Hin as [i Hi].
      pose proof (at_index_range _ _ _ Hi). eapply Hlow; [|exact Hi]. lia.
    + destruct (at_index_in_range ring r) as [e He]; [lia|].
      exists r, e. split; [exact He|]. rewrite He. split; [reflexivity|]. left.
      split; [eapply Hhigh; [|exact He]; lia|exact Hlow].
Qed.

Lemma vnode_entries_node n V e : In e (vnode_entries n V) -> node e = n.
Proof. unfold Hash.vnode_entries. rewrite in_map_iff. now intros (i & <- & _). Qed.

Lemma entries_node S V e :
  In e (flat_map (fun n => vnode_entries n V) S) -> In (node e) S.
Proof.
  rewrite in_flat_map. intros (n & Hn & He). apply vnode_entries_node in He. now subst.
Qed.

Lemma entries_length S V :
  List.length (flat_map (fun n => vnode_entries n V) S) = (List.length S * V)%nat.
Proof.
  induction S as [|n S IH]; [reflexivity|].
  cbn [flat_map]. rewrite length_app, IH. unfold Hash.vnode_entries.
  rewrite length_map, length_seq. simpl. lia.
Qed.

Lemma insert_by_length {A} (cmp : A -> A -> Z) x l :
  List.length (insert_by cmp x l) = S (List.length l).
Proof.
  induction l as [|y l IH]; cbn [insert_by]; [reflexivity|].
  destruct (cmp x y <=? 0); cbn [List.length]; [reflexivity|now rewrite IH].
Qed.

Lemma Array_sort_length {A} (cmp : A -> A -> Z) l :
  List.length (Array_sort cmp l) = List.length l.
Proof.
  unfold Array_sort. induction l as [|x l IH]; [reflexivity|].
  cbn [fold_right]. now rewrite insert_by_length, IH.
Qed.

Lemma buildRing_length S V : alen (buildRing S V) = alen S * Z.of_nat V.
Proof.
  unfold alen, Hash.buildRing, Hash.buildRing_with.
  rewrite Array_sort_length, entries_length. lia.
Qed.

Lemma buildRing_ascending S V : ascending (buildRing S V).
Proof. apply (Array_sort_compliant hash). Qed.

Lemma buildRing_node S V e : In e (buildRing S V) -> In (node e) S.
Proof.
  unfold Hash.buildRing, Hash.buildRing_with. intros H.
  apply (proj1 (compliant_sort_In hash Array_sort _ _ (Array_sort_compliant hash))) in H.
  now apply entries_node in H.
Qed.

(** C6.  For a non-empty shard list and at least 10 virtual nodes (the ring
    staying within 31-bit indices), [pickNode] returns a shard of the
    list.  It is the shard of the first ring entry whose position is not
    below the key's position, which is an entry of least position among
    those; when every position is below the key's, it is the shard of
    entry 0. *)
Theorem pickNode_owner S V key :
  S <> [] -> (10 <= V)%nat -> alen S * Z.of_nat V < 2 ^ 31 ->
  exists i e,
    at_index (buildRing S V) i = Some e
    /\ pickNode (buildRing S V) key = Ok (node e)
    /\ In (node e) S
    /\ ((sha1_u32 key <= hash e
         /\ (forall j e', 0 <= j < i -> at_index (buildRing S V) j = Some e' ->
               hash e' < sha1_u32 key)
         /\ (forall e', In e' (buildRing S V) -> sha1_u32 key <= hash e' ->
               hash e <= hash e'))
        \/ (i = 0
            /\ forall e', In e' (buildRing S V) -> hash e' < sha1_u32 key)).
Proof.
  intros HS HV Hbound.
  assert (Hlen : 0 < alen (buildRing S V) < 2 ^ 31).
  { rewrite buildRing_length. split; [|exact Hbound].
    destruct S as [|s S']; [congruence|]. unfold alen. cbn [List.length]. nia. }
  destruct (pickNode_first (buildRing S V) key (buildRing_ascending S V) Hlen)
    as (i & e & He & Hpick & Hcase).
  exists i, e. split; [exact He|]. split; [exact Hpick|].
  split; [apply (buildRing_node S V), (at_index_In _ _ _ He)|].
  destruct Hcase as [[Hge Hbelow]|[Hi Hall]]; [left|right; now split].
  split; [exact Hge|]. split; [exact Hbelow|].
  intros e' Hin Hge'. apply In_at_index in Hin as [j Hj].
  destruct (Z_lt_le_dec j i) as [Hlt|Hle].
  - pose proof (at_index_range _ _ _ Hj).
    pose proof (Hbelow j e' ltac:(lia) Hj). lia.
  - exact (ascending_at _ (buildRing_ascending S V) i j e e' Hle He Hj).
Qed.

(** C7.  The ring does not depend on the engine that builds it: any two
    sorts that meet the language's contract (ordered by the comparator,
    stable) yield the same entries in the same order from the same shard
    list and vnode count, and [pickNode] then returns the same shard for
    every key. *)
Theorem ring_deterministic sort1 sort2 S V :
  compliant_sort by_hash sort1 -> compliant_sort by_hash sort2 ->
  buildRing_with sort1 S V = buildRing_with sort2 S V
  /\ forall key,
       pickNode (buildRing_with sort1 S V) key
       = pickNode (buildRing_with sort2 S V) key.
Proof.
  intros H1 H2.
  assert (E : buildRing_with sort1 S V = buildRing_with sort2 S V).
  { unfold Hash.buildRing_with. apply (compliant_sorts_agree hash); assumption. }
  split; [exact E|]. intros key. now rewrite E.
Qed.

End Ring.

(** *** Concrete rings, with the reference SHA-1 *)

Lemma pickNode_owner_witness :
  ["A"; "B"; "C"] <> []
  /\ (10 <= 10)%nat
  /\ alen ["A"; "B"; "C"] * Z.of_nat 10 < 2 ^ 31
  /\ exists i e,
       at_index (buildRing Sha1.sha1_u32 ["A"; "B"; "C"] 10) i = Some e
       /\ pickNode Sha1.sha1_u32 (buildRing Sha1.sha1_u32 ["A"; "B"; "C"] 10) "foo"
          = Ok (node e)
       /\ In (node e) ["A"; "B"; "C"].
Proof.
  assert (H1 : ["A"; "B"; "C"] <> []) by discriminate.
  assert (H2 : (10 <= 10)%nat) by lia.
  assert (H3 : alen ["A"; "B"; "C"] * Z.of_nat 10 < 2 ^ 31) by (vm_compute; reflexivity).
  split; [exact H1|]. split; [exact H2|]. split; [exact H3|].
  destruct (pickNode_owner Sha1.sha1_u32 ["A"; "B"; "C"] 10 "foo" H1 H2 H3)
    as (i & e & Hat & Hpick & Hin & _).
  exists i, e. split; [exact Hat|]. split; [exact Hpick|exact Hin].
Defined.

Lemma ring_deterministic_witness :
  compliant_sort by_hash Array_sort
  /\ compliant_sort by_hash Array_sort_left
  /\ buildRing_with Sha1.sha1_u32 Array_sort ["A"; "B"; "C"] 10
     = buildRing_with Sha1.sha1_u32 Array_sort_left ["A"; "B"; "C"] 10.
Proof.
  assert (H1 : compliant_sort by_hash Array_sort)
    by exact (Array_sort_compliant hash).
  assert (H2 : compliant_sort by_hash Array_sort_left)
    by exact (Array_sort_left_compliant hash).
  split; [exact H1|]. split; [exact H2|].
  exact (proj1 (ring_deterministic Sha1.sha1_u32 Array_sort Array_sort_left
                  ["A"; "B"; "C"] 10 H1 H2)).
Defined.

End HashFacts.

(** ** The shard: replication and the request listener *)

Module ShardFacts.

Import FastDB FastDBFacts Shard.

Section Replication.

Variable JSON_stringify : jsvalue -> string.
Variable JSON_parse : string -> option jsvalue.
Variable cfg : config.
Variable net : string -> request -> fetch_result.

Abbreviation forwardWrite := (forwardWrite JSON_stringify cfg net).
Abbreviation poll := (poll cfg).
Abbreviation replicate := (replicate JSON_stringify cfg net).
Abbreviation server := (server JSON_stringify JSON_parse cfg net).
Abbreviation accepted_value := (accepted_value JSON_parse).
Abbreviation originating_put := (originating_put JSON_parse).
Abbreviation all_acknowledged := (all_acknowledged JSON_stringify cfg net).
Abbreviation threshold := (Z.min (quorumSize cfg) (alen (REPLICAS cfg) + 1)).

(** [promises.every(p => p.status === ...)] is false as soon as there is a
    promise. *)
Lemma every_status_false k forwards :
  forwards <> [] ->
  forallb status_says_settled (List.map (promise_at k) forwards) = false.
Proof. destruct forwards; [congruence|reflexivity]. Qed.

Lemma filter_length_le {A} (f g : A -> bool) l :
  (forall x, f x = true -> g x = true) ->
  (List.length (List.filter f l) <= List.length (List.filter g l))%nat.
Proof.
  intros H. induction l as [|x l IH]; [reflexivity|].
  cbn [List.filter]. destruct (f x) eqn:Ef.
  - rewrite (H x Ef). cbn [List.length]. lia.
  - destruct (g x); cbn [List.length]; lia.
Qed.

Lemma acks_at_bounds forwards k :
  1 <= acks_at forwards k <= alen forwards + 1.
Proof.
  unfold acks_at, alen. pose proof (List.filter_length_le (acked_by k) forwards). lia.
Qed.

Lemma acks_at_mono forwards k k' :
  (k <= k')%nat -> acks_at forwards k <= acks_at forwards k'.
Proof.
  intros H. unfold acks_at, alen.
  pose proof (filter_length_le (acked_by k) (acked_by k') forwards) as Hl.
  assert (Himp : forall x, acked_by k x = true -> acked_by k' x = true).
  { intros [t|t|]; cbn; try discriminate. rewrite !Nat.leb_le. lia. }
  specialize (Hl Himp). lia.
Qed.

(** While the acknowledgements stay below the threshold the loop goes on. *)
Lemma poll_never_exits forwards :
  forwards <> [] ->
  (forall k, acks_at forwards k < threshold) ->
  forall fuel k, poll fuel forwards k = Running.
Proof.
  intros Hne Hlow. induction fuel as [|fuel IH]; intros k; cbn [Shard.poll].
  - now rewrite (proj2 (Z.ltb_lt _ _) (Hlow k)).
  - rewrite (proj2 (Z.ltb_lt _ _) (Hlow k)).
    rewrite every_status_false by assumption. apply IH.
Qed.

(** Once they reach it the loop is left, at a time by which they have. *)
Lemma poll_exits forwards T :
  forwards <> [] -> threshold <= acks_at forwards T ->
  forall fuel k, (T <= fuel + k)%nat ->
    exists k', poll fuel forwards k = Ok k' /\ threshold <= acks_at forwards k'.
Proof.
  intros Hne HT. induction fuel as [|fuel IH]; intros k Hk; cbn [Shard.poll].
  - destruct (Z.ltb_spec (acks_at forwards k) threshold) as [Hlt|Hge].
    + pose proof (acks_at_mono forwards T k ltac:(lia)). lia.
    + eauto.
  - destruct (Z.ltb_spec (acks_at forwards k) threshold) as [Hlt|Hge].
    + rewrite every_status_false by assumption. apply IH. lia.
    + eauto.
Qed.

Lemma forwards_length method key value :
  alen (List.map (fun base => forwardWrite method base key value) (REPLICAS cfg))
  = alen (REPLICAS cfg).
Proof. unfold alen. now rewrite length_map. Qed.

Lemma all_acked_settled forwards k :
  acks_at forwards k = alen forwards + 1 ->
  forallb (settled_by k) forwards = true.
Proof.
  unfold acks_at, alen. intros H.
  assert (Hl : List.length (List.filter (acked_by k) forwards) = List.length forwards) by lia.
  clear H. induction forwards as [|s l IH]; [reflexivity|].
  cbn [List.filter forallb] in *. destruct (acked_by k s) eqn:Es.
  - cbn [List.length] in Hl. rewrite IH by lia.
    destruct s; cbn in *; try discriminate. now rewrite Es.
  - pose proof (List.filter_length_le (acked_by k) l). cbn [List.length] in Hl. lia.
Qed.

Lemma all_acknowledged_acks method key value T :
  all_acknowledged method key value T ->
  acks_at (List.map (fun base => forwardWrite method base key value) (REPLICAS cfg)) T
  = alen (REPLICAS cfg) + 1.
Proof.
  unfold Shard.all_acknowledged, acks_at, alen.
  induction (REPLICAS cfg) as [|base l IH]; intros H; [reflexivity|].
  cbn [List.map List.filter].
  destruct (H base (or_introl eq_refl)) as (t & Ht & ->).
  cbn [acked_by]. rewrite (proj2 (Nat.leb_le _ _) Ht). cbn [List.length].
  assert (IH' := IH (fun b Hb => H b (or_intror Hb))). lia.
Qed.

(** What [replicate] returns when the quorum exceeds the number of nodes. *)
Lemma replicate_impossible_quorum method key value :
  REPLICAS cfg <> [] -> alen (REPLICAS cfg) + 1 < quorumSize cfg ->
  (forall fuel r, replicate fuel method key value = Ok r ->
     ok r = false /\ quorum r = quorumSize cfg
     /\ acks r <= alen (REPLICAS cfg) + 1)
  /\ (forall T fuel, all_acknowledged method key value T -> (T <= fuel)%nat ->
        replicate fuel method key value
        = Ok {| acks := alen (REPLICAS cfg) + 1; quorum := quorumSize cfg;
                ok := false |}).
Proof.
  intros Hne Hq. unfold Shard.replicate.
  destruct (REPLICAS cfg) as [|b0 bs] eqn:ER; [congruence|].
  cbn [List.length Nat.eqb]. rewrite <- ER in *.
  set (forwards := List.map (fun base => forwardWrite method base key value) (REPLICAS cfg)).
  assert (Hfl : alen forwards = alen (REPLICAS cfg)) by apply forwards_length.
  assert (Hb : forall k, acks_at forwards k < quorumSize cfg).
  { intros k. pose proof (acks_at_bounds forwards k). lia. }
  split.
  - intros fuel r. destruct (Shard.poll cfg fuel forwards 0) as [k| |]; cbn; try discriminate.
    rewrite (proj2 (Z.leb_gt _ _) (Hb k)).
    destruct (allSettled fuel forwards k) as [k'| |]; cbn; try discriminate.
    intros [= <-]. cbn [ok quorum acks].
    pose proof (acks_at_bounds forwards k'). pose proof (Hb k').
    repeat split; lia.
  - intros T fuel Hall Hfuel.
    pose proof (all_acknowledged_acks method key value T Hall) as HT. fold forwards in HT.
    assert (Hfne : forwards <> []).
    { unfold forwards. rewrite ER. discriminate. }
    destruct (poll_exits forwards T Hfne ltac:(lia) fuel 0%nat ltac:(lia)) as (k & -> & Hk).
    cbn. rewrite (proj2 (Z.leb_gt _ _) (Hb k)).
    pose proof (acks_at_bounds forwards k).
    assert (Hfull : acks_at forwards k = alen forwards + 1) by lia.
    assert (Hs : allSettled fuel forwards k = Ok k).
    { destruct fuel; cbn [allSettled]; now rewrite (all_acked_settled forwards k Hfull). }
    rewrite Hs. cbn. rewrite Hfull, Hfl.
    now rewrite (proj2 (Z.leb_gt _ _) Hq).
Qed.

(** When the quorum is within reach and is reached by time [T],
    [replicate] returns with [ok = true]. *)
Lemma replicate_returns_on_quorum method key value T :
  REPLICAS cfg <> [] -> quorumSize cfg <= alen (REPLICAS cfg) + 1 ->
  quorumSize cfg
  <= acks_at (List.map (fun base => forwardWrite method base key value)
                (REPLICAS cfg)) T ->
  forall fuel, (T <= fuel)%nat ->
    exists r, replicate fuel method key value = Ok r
              /\ ok r = true /\ quorumSize cfg <= acks r.
Proof.
  intros Hne Hq HT fuel Hfuel. unfold Shard.replicate.
  destruct (REPLICAS cfg) as [|b0 bs] eqn:ER; [congruence|].
  cbn [List.length Nat.eqb]. rewrite <- ER in *.
  set (forwards := List.map (fun base => forwardWrite method base key value)
                     (REPLICAS cfg)) in *.
  assert (Hfne : forwards <> []) by (unfold forwards; rewrite ER; discriminate).
  destruct (poll_exits forwards T Hfne ltac:(lia) fuel 0%nat ltac:(lia))
    as (k & -> & Hk).
  cbn. assert (Hqk : quorumSize cfg <= acks_at forwards k) by lia.
  rewrite (proj2 (Z.leb_le _ _) Hqk). eexists. split; [reflexivity|].
  cbn [ok acks]. split; [reflexivity|exact Hqk].
Qed.

Lemma includes_nonempty ct : includes ct "application/json" = true -> ct <> "".
Proof. intros H ->. discriminate. Qed.

(** What the request listener does with a PUT on [/kv]. *)
Lemma server_put now fuel req DB key :
  method req = "PUT" -> pathname req = "/kv" ->
  query_key req = Some key -> key <> "" ->
  server now fuel req DB =
    match accepted_value req with
    | None => (DB, Ok (json 400 (BError "Invalid JSON")))
    | Some value =>
        match put JSON_stringify now key value DB with
        | Ok DB' =>
            (DB',
             r ← (if negb (truthy (headers req !! "x-forwarded-by"))
                  then replicate fuel "PUT" key value
                  else Ok local_only);
             Ok (write_reply r))
        | Throw e => (DB, Throw e)
        | Running => (DB, Running)
        end
    end.
Proof.
  intros Hm Hp Hk Hne. unfold Shard.server. rewrite Hm, Hp, Hk.
  cbn [String.eqb Ascii.eqb Bool.eqb andb].
  assert (Ht : truthy (Some key) = true).
  { cbn. destruct key; [congruence|reflexivity]. }
  rewrite Ht. cbn [negb default]. reflexivity.
Qed.


(** C4 (amended).  For an originating PUT on a shard whose quorum exceeds
    the number of nodes: with a non-empty replicas list every reply the
    shard sends is status 500 with [ok = false] and at most
    [replicas.length + 1] acks, and that reply is sent once every forward
    is acknowledged; with an empty replicas list the reply is
    [{ok: true, acks: 1, quorum: 1}]. *)
Theorem impossible_quorum_reply now req DB key value :
  originating_put req key value ->
  alen (REPLICAS cfg) + 1 < quorumSize cfg ->
  (REPLICAS cfg <> [] ->
     (forall fuel resp, snd (server now fuel req DB) = Ok resp ->
        exists acks,
          resp = json 500 (BWrite false acks (quorumSize cfg))
          /\ acks <= alen (REPLICAS cfg) + 1)
     /\ (forall T fuel,
           closed DB = false -> fits_u32 key ->
           fits_u32 (value_text JSON_stringify value) ->
           all_acknowledged "PUT" key value T -> (T <= fuel)%nat ->
           snd (server now fuel req DB)
           = Ok (json 500 (BWrite false (alen (REPLICAS cfg) + 1)
                             (quorumSize cfg)))))
  /\ (REPLICAS cfg = [] ->
      closed DB = false -> fits_u32 key ->
      fits_u32 (value_text JSON_stringify value) ->
      forall fuel,
        snd (server now fuel req DB) = Ok (json 200 (BWrite true 1 1))).
Proof.
  intros (Hm & Hp & Hk & Hne & Hfw & Hacc) Hq.
  assert (Hsrv : forall fuel, server now fuel req DB =
            match put JSON_stringify now key value DB with
            | Ok DB' => (DB', r ← replicate fuel "PUT" key value; Ok (write_reply r))
            | Throw e => (DB, Throw e)
            | Running => (DB, Running)
            end).
  { intros fuel. rewrite (server_put now fuel req DB key Hm Hp Hk Hne), Hacc, Hfw.
    reflexivity. }
  split.
  - intros Hrep.
    destruct (replicate_impossible_quorum "PUT" key value Hrep Hq) as [Hany Hall].
    split.
    + intros fuel resp. rewrite Hsrv.
      destruct (put JSON_stringify now key value DB) as [DB'| |]; cbn [snd];
        try discriminate.
      destruct (replicate fuel "PUT" key value) as [r| |] eqn:Er; cbn; try discriminate.
      intros [= <-]. destruct (Hany fuel r Er) as (Hok & Hqr & Hacks).
      exists (acks r). split; [|exact Hacks].
      unfold write_reply. now rewrite Hok, Hqr.
    + intros T fuel Ho Hfk Hfv Hack Hfuel. rewrite Hsrv.
      rewrite (put_open JSON_stringify now key value DB Ho Hfk Hfv). cbn [snd].
      now rewrite (Hall T fuel Hack Hfuel).
  - intros Hrep Ho Hfk Hfv fuel. rewrite Hsrv.
    rewrite (put_open JSON_stringify now key value DB Ho Hfk Hfv). cbn [snd].
    unfold Shard.replicate. now rewrite Hrep.
Qed.

(** C10.  A PUT on [/kv] whose content type includes [application/json]
    and whose body does not parse is answered 400, and the engine is left
    as it was: no record is applied to the table, none is queued for the
    WAL. *)
Theorem invalid_json_rejected now fuel req DB ct :
  method req = "PUT" -> pathname req = "/kv" ->
  truthy (query_key req) = true ->
  headers req !! "content-type" = Some ct ->
  includes ct "application/json" = true ->
  JSON_parse (body req) = None ->
  server now fuel req DB = (DB, Ok (json 400 (BError "Invalid JSON"))).
Proof.
  intros Hm Hp Hk Hct Hinc Hparse.
  destruct (query_key req) as [key|] eqn:Ek; [|discriminate].
  assert (Hne : key <> "") by (intros ->; discriminate).
  rewrite (server_put now fuel req DB key Hm Hp Ek Hne).
  unfold Shard.accepted_value. rewrite Hct. cbn [default].
  assert (Ht : truthy (Some ct) = true).
  { pose proof (includes_nonempty ct Hinc). cbn. destruct ct; [congruence|reflexivity]. }
  rewrite Ht. cbn. rewrite Hinc, Hparse. reflexivity.
Qed.

End Replication.

(** C3.  With one peer and quorum 2, a forward that is rejected leaves
    [replicate] polling for ever: the forward has settled at time 0, and
    however long the call is given it has not returned. *)
Theorem replicate_polls_forever JSON_stringify key value :
  forallb (settled_by 0)
    (List.map (fun base => Shard.forwardWrite JSON_stringify one_peer peer_down
                             "PUT" base key value) (REPLICAS one_peer)) = true
  /\ forall fuel,
       Shard.replicate JSON_stringify one_peer peer_down fuel "PUT" key value
       = Running.
Proof.
  split; [reflexivity|]. intros fuel. unfold Shard.replicate.
  cbn [REPLICAS one_peer List.length Nat.eqb List.map].
  rewrite poll_never_exits; [reflexivity|discriminate|].
  intros k. vm_compute. reflexivity.
Qed.

(** *** Concrete requests, with the reference JSON reader and printer *)

Lemma impossible_quorum_reply_witness :
  Shard.originating_put MiniJSON.parse sample_put "k" (JString "v")
  /\ alen (REPLICAS one_peer) + 1 < 3
  /\ forall fuel, (3 <= fuel)%nat ->
       snd (Shard.server MiniJSON.stringify MiniJSON.parse
              {| PORT := 4101; REPLICAS := REPLICAS one_peer; quorumSize := 3;
                 SHARD_ID := "shard-4101" |}
              peer_up 100 fuel sample_put fresh_engine)
       = Ok (json 500 (BWrite false 2 3)).
Proof.
  assert (H1 : Shard.originating_put MiniJSON.parse sample_put "k" (JString "v")).
  { repeat split; try reflexivity. discriminate. }
  assert (H2 : alen (REPLICAS one_peer) + 1 < 3) by (vm_compute; reflexivity).
  split; [exact H1|]. split; [exact H2|]. intros fuel Hfuel.
  refine (proj2 (proj1 (impossible_quorum_reply MiniJSON.stringify MiniJSON.parse
            {| PORT := 4101; REPLICAS := REPLICAS one_peer; quorumSize := 3;
               SHARD_ID := "shard-4101" |}
            peer_up 100 sample_put fresh_engine "k" (JString "v") H1 H2)
            ltac:(discriminate)) 3%nat fuel eq_refl _ _ _ Hfuel).
  - vm_compute. discriminate.
  - vm_compute. discriminate.
  - intros base [<-|[]]. exists 3%nat. split; [lia|reflexivity].
Defined.

(** C4 as stated fails: without peers and with quorum 2, which exceeds
    [replicas.length + 1 = 1], the reply to a PUT is status 200 with
    [{ok: true, acks: 1, quorum: 1}]. *)
Lemma no_peers_reply_is_ok :
  quorumSize no_peers > alen (REPLICAS no_peers) + 1
  /\ Shard.server MiniJSON.stringify MiniJSON.parse no_peers peer_down 100 0
       sample_put fresh_engine
     = ({| memTable := {["k" := {| value := JString "v"; ts := 100 |}]};
           walQueue := [[x01; x00; x00; x00; x01; x00; x00; x00; x01; x6b; x76]];
           closed := false |},
        Ok (json 200 (BWrite true 1 1))).
Proof. split; [reflexivity|]. vm_compute. reflexivity. Qed.

Lemma invalid_json_rejected_witness :
  method bad_json_put = "PUT" /\ pathname bad_json_put = "/kv"
  /\ truthy (query_key bad_json_put) = true
  /\ headers bad_json_put !! "content-type"
     = Some "application/json; charset=utf-8"
  /\ includes "application/json; charset=utf-8" "application/json" = true
  /\ MiniJSON.parse (body bad_json_put) = None
  /\ Shard.server MiniJSON.stringify MiniJSON.parse one_peer peer_up 100 5
       bad_json_put fresh_engine
     = (fresh_engine, Ok (json 400 (BError "Invalid JSON"))).
Proof.
  repeat (split; [reflexivity|]).
  exact (invalid_json_rejected MiniJSON.stringify MiniJSON.parse one_peer peer_up
           100 5%nat bad_json_put fresh_engine "application/json; charset=utf-8"
           eq_refl eq_refl eq_refl eq_refl eq_refl eq_refl).
Defined.

End ShardFacts.

(** ** The router *)

Module CoordinatorFacts.

Import FastDB FastDBFacts ShardFacts.

Section Router.

Variable sha1_u32 : string -> Z.
Variable JSON_stringify : jsvalue -> string.
Variable JSON_parse : string -> option jsvalue.
Variable router : Coordinator.config.
Variable fetch : string -> request -> outcome response.
Variable shard : Shard.config.
Variable net : string -> request -> fetch_result.

(** C5.  Whatever headers the client sent, the request the router hands
    to the shard for a PUT is [proxy_request], whose content type is
    [text/plain]; the shard therefore stores the body as a string, also
    when the client had declared it as JSON. *)
Theorem router_put_is_text_plain req key now fuel DB :
  method req = "PUT" -> pathname req = "/kv" ->
  query_key req = Some key -> key <> "" ->
  closed DB = false -> fits_u32 key -> fits_u32 (body req) ->
  Coordinator.server sha1_u32 router fetch req
  = (node ← Hash.pickNode sha1_u32 (Coordinator.ring sha1_u32 router) key;
     fetch node (Coordinator.proxy_request "PUT" key (body req)))
  /\ headers (Coordinator.proxy_request "PUT" key (body req)) !! "content-type"
     = Some "text/plain"
  /\ get key (fst (Shard.server JSON_stringify JSON_parse shard net now fuel
                     (Coordinator.proxy_request "PUT" key (body req)) DB))
     = Some {| value := JString (body req); ts := now |}.
Proof.
  intros Hm Hp Hk Hne Ho Hfk Hfb. split; [|split].
  - unfold Coordinator.server, Coordinator.proxy. rewrite Hm, Hp, Hk.
    cbn [String.eqb Ascii.eqb Bool.eqb andb].
    assert (Ht : truthy (Some key) = true).
    { cbn. destruct key; [congruence|reflexivity]. }
    rewrite Ht. reflexivity.
  - reflexivity.
  - rewrite (server_put JSON_stringify JSON_parse shard net now fuel
               (Coordinator.proxy_request "PUT" key (body req)) DB key
               eq_refl eq_refl eq_refl Hne).
    unfold Shard.accepted_value, Coordinator.proxy_request.
    cbn [headers body String.eqb Ascii.eqb Bool.eqb].
    rewrite lookup_singleton_eq. cbn [truthy default].
    change (negb (String.eqb "text/plain" "")
            && includes (id "text/plain") "application/json") with false.
    cbv iota.
    rewrite (put_open JSON_stringify now key (JString (body req)) DB Ho Hfk Hfb).
    cbn [fst]. unfold get. cbn [memTable]. apply lookup_insert_eq.
Qed.

End Router.

(** *** A JSON PUT through the router, and the same PUT sent to the shard *)

Lemma router_put_is_text_plain_witness :
  method Coordinator.json_put = "PUT" /\ pathname Coordinator.json_put = "/kv"
  /\ query_key Coordinator.json_put = Some "u2" /\ "u2" <> ""
  /\ closed fresh_engine = false /\ fits_u32 "u2" /\ fits_u32 (body Coordinator.json_put)
  /\ get "u2" (fst (Shard.server MiniJSON.stringify MiniJSON.parse Shard.no_peers
                      Shard.peer_down 100 0
                      (Coordinator.proxy_request "PUT" "u2" (body Coordinator.json_put))
                      fresh_engine))
     = Some {| value := JString "[1,2]"; ts := 100 |}
  /\ get "u2" (fst (Shard.server MiniJSON.stringify MiniJSON.parse Shard.no_peers
                      Shard.peer_down 100 0 Coordinator.json_put fresh_engine))
     = Some {| value := JArray [JNumber "1"; JNumber "2"]; ts := 100 |}.
Proof.
  assert (H1 : "u2" <> "") by discriminate.
  assert (H2 : fits_u32 "u2") by (vm_compute; discriminate).
  assert (H3 : fits_u32 (body Coordinator.json_put)) by (vm_compute; discriminate).
  repeat (split; [reflexivity|]).
  split; [exact H1|]. split; [reflexivity|]. split; [exact H2|]. split; [exact H3|].
  split.
  - exact (proj2 (proj2 (router_put_is_text_plain Sha1.sha1_u32 MiniJSON.stringify
             MiniJSON.parse
             {| Coordinator.PORT := 4000; Coordinator.SHARDS := ["http://127.0.0.1:4101"];
                Coordinator.vnodeCount := 10 |}
             (fun _ _ => Running) Shard.no_peers Shard.peer_down Coordinator.json_put "u2" 100 0%nat
             fresh_engine eq_refl eq_refl eq_refl H1 eq_refl H2 H3))).
  - vm_compute. reflexivity.
Defined.

End CoordinatorFacts.

(** ** More on the storage engine *)

Module EngineExtras.

Import FastDB RuntimeFacts FastDBFacts EngineNotions.

Section Engine.

Variable JSON_stringify : jsvalue -> string.
Variable JSON_parse : string -> option jsvalue.

Abbreviation put := (put JSON_stringify).
Abbreviation del := (del JSON_stringify).
Abbreviation run := (run JSON_stringify).
Abbreviation step := (step JSON_stringify).
Abbreviation log_of := (log_of JSON_stringify).
Abbreviation mutate_all := (mutate_all JSON_stringify).
Abbreviation revive := (revive JSON_parse).
Abbreviation redo := (redo JSON_parse).
Abbreviation replay := (replay JSON_parse).
Abbreviation recover := (recover JSON_parse).
Abbreviation makeFastDB := (makeFastDB JSON_parse).
Abbreviation readback := (readback JSON_stringify JSON_parse).

(** X1.  Opening a directory whose WAL is a sequence of complete records
    re-applies exactly those records, in their order, on top of what the
    snapshot file yields: the op code, the key and the value text of every
    record are read back as they were written. *)
Theorem wal_replay_round_trip clock rs s :
  Forall well_formed rs ->
  makeFastDB clock {| walFile := encode_all rs; snapshotFile := s |}
  = Ok {| memTable := redo clock 0 rs (load_snapshot s ∅);
          walQueue := []; closed := false |}.
Proof.
  intros Hwf.
  exact (makeFastDB_clean JSON_parse clock
           {| walFile := encode_all rs; snapshotFile := s |} rs eq_refl Hwf).
Qed.

(** X2.  After any number of complete records, a WAL tail of 1 to 8 bytes
    makes [makeFastDB] throw [RangeError]: the tail is taken for the header
    of a record and a length field is read past the end of the file. *)
Theorem torn_header_throws clock rs tail s :
  Forall well_formed rs ->
  (0 < List.length tail < 9)%nat ->
  makeFastDB clock {| walFile := encode_all rs ++ tail; snapshotFile := s |}
  = Throw RangeError.
Proof.
  intros Hwf Ht. unfold FastDB.makeFastDB.
  now rewrite (recover_torn_header JSON_parse clock rs tail s ∅ Hwf Ht).
Qed.

Lemma readUInt8_outcome b offset :
  (exists v, readUInt8 b offset = Ok v) \/ readUInt8 b offset = Throw RangeError.
Proof. unfold readUInt8. destruct (_ && _); eauto. Qed.

Lemma readUInt32BE_outcome b offset :
  (exists v, readUInt32BE b offset = Ok v)
  \/ readUInt32BE b offset = Throw RangeError.
Proof. unfold readUInt32BE. destruct (_ && _); eauto. Qed.

Lemma replay_throws_RangeError clock walData : forall fuel n offset t e,
  replay fuel clock n walData offset t = Throw e -> e = RangeError.
Proof.
  induction fuel as [|fuel IH]; intros n offset t e; cbn [FastDB.replay].
  - destruct (offset <? blen walData); discriminate.
  - destruct (offset <? blen walData); [|discriminate].
    destruct (readUInt8_outcome walData offset) as [[op ->]| ->]; cbn;
      [|now intros [= <-]].
    destruct (readUInt32BE_outcome walData (offset + 1)) as [[kl ->]| ->]; cbn;
      [|now intros [= <-]].
    destruct (readUInt32BE_outcome walData (offset + 1 + 4)) as [[vl ->]| ->]; cbn;
      [|now intros [= <-]].
    apply IH.
Qed.

(** X3.  Recovery always comes to an end, whatever bytes the WAL holds:
    [makeFastDB] returns an engine or throws [RangeError], nothing else. *)
Theorem open_returns_or_throws_RangeError clock d :
  (exists e, makeFastDB clock d = Ok e) \/ makeFastDB clock d = Throw RangeError.
Proof.
  unfold FastDB.makeFastDB.
  destruct (recover clock d ∅) as [t|e|] eqn:E; cbn.
  - left. eauto.
  - right. unfold FastDB.recover in E.
    now rewrite (replay_throws_RangeError _ _ _ _ _ _ _ E).
  - exfalso. exact (recover_terminates JSON_parse clock d ∅ E).
Qed.

Lemma revive_shape s : text_or_structured (revive s).
Proof.
  unfold FastDB.revive, text_or_structured.
  destruct (JSON_parse s) as [p|]; [|left; eauto].
  destruct (is_object p) eqn:Eo; cbn [andb]; [|left; eauto].
  destruct (is_null p) eqn:En; cbn [negb]; [left; eauto|right; now split].
Qed.

Lemma replay_shapes clock walData : forall fuel n offset t t',
  replay fuel clock n walData offset t = Ok t' ->
  forall k r, t' !! k = Some r ->
    t !! k = Some r \/ text_or_structured (value r).
Proof.
  induction fuel as [|fuel IH]; intros n offset t t'; cbn [FastDB.replay].
  - destruct (offset <? blen walData); [discriminate|]. intros [= <-]. now left.
  - destruct (offset <? blen walData); [|intros [= <-]; now left].
    destruct (readUInt8 walData offset) as [op| |]; cbn; try discriminate.
    destruct (readUInt32BE walData (offset + 1)) as [kl| |]; cbn; try discriminate.
    destruct (readUInt32BE walData (offset + 1 + 4)) as [vl| |]; cbn; try discriminate.
    intros Hrep k r Hk. destruct (IH _ _ _ _ Hrep k r Hk) as [H|H]; [|now right].
    revert H. unfold applyRecord.
    destruct (op =? 1); cbn [String.eqb Ascii.eqb Bool.eqb].
    + match goal with |- <[?key:=_]> _ !! _ = _ -> _ =>
        destruct (decide (key = k)) as [->|Hne] end.
      * rewrite lookup_insert_eq. intros [= <-]. right. apply revive_shape.
      * rewrite lookup_insert_ne by assumption. now left.
    + match goal with |- delete ?key _ !! _ = _ -> _ =>
        destruct (decide (key = k)) as [->|Hne] end.
      * now rewrite lookup_delete_eq.
      * rewrite lookup_delete_ne by assumption. now left.
Qed.

(** X4.  Whatever bytes the WAL holds, a record that recovery leaves in
    the table either comes unchanged from the snapshot or carries a string
    or an object or array: replay never produces a number, a boolean or
    null. *)
Theorem recovered_values_are_text_or_structured clock d e :
  makeFastDB clock d = Ok e ->
  forall k r, memTable e !! k = Some r ->
    load_snapshot (snapshotFile d) ∅ !! k = Some r
    \/ text_or_structured (value r).
Proof.
  unfold FastDB.makeFastDB.
  destruct (recover clock d ∅) as [t| |] eqn:E; cbn; try discriminate.
  intros [= <-]. cbn [memTable]. unfold FastDB.recover in E.
  exact (replay_shapes _ _ _ _ _ _ _ E).
Qed.

Lemma redo_agree clock k rs : forall n t t',
  In k (keys_of rs) -> redo clock n rs t !! k = redo clock n rs t' !! k.
Proof.
  unfold keys_of. induction rs as [|r0 rs IH]; intros n t t' Hk; [destruct Hk|].
  cbn [FastDB.redo List.map] in *.
  destruct (in_dec String.string_dec k (List.map l_key rs)) as [Hin|Hout].
  - now apply IH.
  - destruct Hk as [<-|Hk]; [|contradiction].
    rewrite !(redo_untouched JSON_parse _ _ rs) by exact Hout.
    unfold applyRecord. destruct (l_op r0 =? 1); cbn [String.eqb Ascii.eqb Bool.eqb].
    + now rewrite !lookup_insert_eq.
    + now rewrite !lookup_delete_eq.
Qed.

(** X5.  The snapshots a process writes do not change what the next open
    recovers: when the process started from a WAL of complete records and
    has flushed its queue, opening its directory gives the same engine as
    opening it with the snapshot file the process found at its own start. *)
Theorem own_snapshots_do_not_change_recovery L0 d0 c0 e0 evs e d clock :
  walFile d0 = encode_all L0 -> Forall well_formed L0 ->
  makeFastDB c0 d0 = Ok e0 ->
  run evs (e0, d0) = Ok (e, d) ->
  walQueue e = [] ->
  makeFastDB clock d
  = makeFastDB clock {| walFile := walFile d; snapshotFile := snapshotFile d0 |}.
Proof.
  intros Hw Hwf Hopen Hrun Hq.
  rewrite (makeFastDB_clean JSON_parse c0 d0 L0 Hw Hwf) in Hopen. injection Hopen as <-.
  pose proof (reached_run JSON_stringify _ _ _ evs _ _ [] _ _
                (reached_start JSON_stringify L0 d0 _ Hw Hwf) Hrun) as Hr.
  cbn [List.app] in Hr.
  assert (Hd : walFile d = walFile d ++ Buffer_concat (walQueue e)).
  { rewrite Hq. change (Buffer_concat []) with (@nil byte). now rewrite app_nil_r. }
  unfold FastDB.makeFastDB.
  rewrite (recover_reached JSON_stringify JSON_parse clock _ _ _ e d evs d Hr Hd).
  rewrite (recover_reached JSON_stringify JSON_parse clock _ _ _ e d evs
             {| walFile := walFile d; snapshotFile := snapshotFile d0 |} Hr Hd).
  cbn [snapshotFile]. cbn. do 2 f_equal. apply map_eq. intros k.
  destruct (in_dec String.string_dec k (keys_of (L0 ++ log_of evs))) as [Hin|Hout].
  - now apply redo_agree.
  - rewrite !(redo_untouched JSON_parse) by exact Hout.
    destruct (reached_snapshot _ _ _ _ _ _ _ Hr) as [->|(pre & suf & -> & ->)];
      [reflexivity|].
    rewrite keys_of_app, in_app_iff in Hout.
    rewrite load_map_to_list, (table_untouched JSON_stringify JSON_parse).
    + apply (redo_untouched JSON_parse). tauto.
    + intros Hpre. apply Hout. right.
      rewrite (log_of_app JSON_stringify), keys_of_app, in_app_iff. now left.
Qed.


(** X7.  After [close] the engine refuses every put and delete with
    ['DB closed'] and still answers [get] from the table it had.  A first
    [close] appends the queued records to the WAL file and empties the
    queue; a [close] of a closed engine, and a flush or snapshot tick that
    finds the engine closed, change nothing. *)
Theorem closed_engine_behaviour e d :
  let e' := fst (close e d) in
  let d' := snd (close e d) in
  closed e' = true
  /\ memTable e' = memTable e
  /\ walQueue e' = (if closed e then walQueue e else [])
  /\ walFile d'
     = walFile d ++ (if closed e then [] else Buffer_concat (walQueue e))
  /\ snapshotFile d' = snapshotFile d
  /\ (forall now k v, put now k v e' = Throw DBClosed)
  /\ (forall now k, del now k e' = Throw DBClosed)
  /\ (forall k, get k e' = get k e)
  /\ close e' d' = (e', d')
  /\ flush e' d' = (e', d')
  /\ snapshot_tick e' d' = d'.
Proof.
  intros e' d'. subst e' d'. unfold close.
  destruct (closed e) eqn:Ec; cbn [fst snd].
  - unfold FastDB.put, FastDB.del, flush, snapshot_tick, get. rewrite Ec.
    rewrite orb_true_r, app_nil_r. repeat split; reflexivity.
  - unfold FastDB.put, FastDB.del, flush, snapshot_tick, get.
    cbn [closed memTable walQueue]. repeat split; try reflexivity.
    + destruct (walQueue e); cbn [List.length Nat.eqb walFile];
        [change (Buffer_concat []) with (@nil byte); now rewrite app_nil_r|reflexivity].
    + now destruct (Nat.eqb (List.length (walQueue e)) 0).
Qed.

Lemma step_wal ev e d e' d' :
  closed e = false -> step ev (e, d) = Ok (e', d') ->
  closed e' = false
  /\ walFile d' ++ Buffer_concat (walQueue e')
     = (walFile d ++ Buffer_concat (walQueue e))
         ++ encode_all (logged_of JSON_stringify ev)
  /\ exists more, walFile d' = walFile d ++ more.
Proof.
  intros Ho Hstep. destruct ev as [now key v|now key| |]; cbn [FastDB.step] in Hstep.
  - unfold FastDB.put in Hstep. rewrite Ho in Hstep.
    destruct (serializeRecord JSON_stringify "put" key v) as [buf| |] eqn:Es;
      try discriminate.
    apply serializeRecord_Ok in Es as (Hk & Hv & ->). injection Hstep as <- <-.
    cbn [closed walQueue FastDB.logged_of]. split; [reflexivity|]. split.
    + unfold Buffer_concat, encode_all, encode. cbn [List.map l_op l_key l_text].
      rewrite concat_app, app_assoc. reflexivity.
    + exists []. now rewrite app_nil_r.
  - unfold FastDB.del in Hstep. rewrite Ho in Hstep.
    destruct (serializeRecord JSON_stringify "del" key (JString "")) as [buf| |] eqn:Es;
      try discriminate.
    apply serializeRecord_Ok in Es as (Hk & Hv & ->). injection Hstep as <- <-.
    cbn [closed walQueue FastDB.logged_of]. split; [reflexivity|]. split.
    + unfold Buffer_concat, encode_all, encode. cbn [List.map l_op l_key l_text].
      rewrite concat_app, app_assoc. reflexivity.
    + exists []. now rewrite app_nil_r.
  - injection Hstep as Hstep. unfold flush in Hstep. rewrite Ho, orb_false_r in Hstep.
    cbn [FastDB.logged_of]. change (encode_all []) with (@nil byte).
    destruct (Nat.eqb (List.length (walQueue e)) 0); injection Hstep as <- <-;
      cbn [closed walQueue walFile].
    + split; [exact Ho || reflexivity|]. split; [now rewrite app_nil_r|].
      exists []. now rewrite app_nil_r.
    + split; [exact Ho || reflexivity|]. split.
      * change (Buffer_concat []) with (@nil byte). now rewrite !app_nil_r.
      * eauto.
  - injection Hstep as <- <-. unfold snapshot_tick. rewrite Ho.
    cbn [takeSnapshot fst walFile FastDB.logged_of].
    change (encode_all []) with (@nil byte).
    split; [exact Ho || reflexivity|]. split; [now rewrite app_nil_r|].
    exists []. now rewrite app_nil_r.
Qed.

Lemma run_wal evs : forall e d e' d',
  closed e = false -> run evs (e, d) = Ok (e', d') ->
  closed e' = false
  /\ walFile d' ++ Buffer_concat (walQueue e')
     = (walFile d ++ Buffer_concat (walQueue e)) ++ encode_all (log_of evs)
  /\ exists more, walFile d' = walFile d ++ more.
Proof.
  induction evs as [|ev evs IH]; intros e d e' d' Ho Hrun.
  - injection Hrun as <- <-. split; [exact Ho|]. split.
    + change (encode_all (log_of [])) with (@nil byte). now rewrite app_nil_r.
    + exists []. now rewrite app_nil_r.
  - cbn [FastDB.run] in Hrun.
    destruct (step ev (e, d)) as [[e1 d1]| |] eqn:Es; try discriminate.
    unfold mbind, outcome_bind, bind in Hrun.
    destruct (step_wal ev e d e1 d1 Ho Es) as (Ho1 & Hw1 & more1 & Hm1).
    destruct (IH e1 d1 e' d' Ho1 Hrun) as (Ho' & Hw' & more' & Hm').
    split; [exact Ho'|]. split.
    + rewrite Hw', Hw1.
      change (log_of (ev :: evs)) with (logged_of JSON_stringify ev ++ log_of evs).
      now rewrite encode_all_app, app_assoc.
    + exists (more1 ++ more'). now rewrite Hm', Hm1, app_assoc.
Qed.

(** X8.  The WAL is append-only and loses nothing: over any run of an open
    engine the WAL file only grows at its end, file and queue together hold
    the records of all puts and deletes of the run in the order they were
    issued, and after [close] the file alone does. *)
Theorem wal_is_append_only_and_complete evs e d e' d' :
  closed e = false ->
  run evs (e, d) = Ok (e', d') ->
  (exists more, walFile d' = walFile d ++ more)
  /\ walFile d' ++ Buffer_concat (walQueue e')
     = (walFile d ++ Buffer_concat (walQueue e)) ++ encode_all (log_of evs)
  /\ walFile (snd (close e' d'))
     = (walFile d ++ Buffer_concat (walQueue e)) ++ encode_all (log_of evs).
Proof.
  intros Ho Hrun. destruct (run_wal evs e d e' d' Ho Hrun) as (Ho' & Hw & Hm).
  split; [exact Hm|]. split; [exact Hw|].
  rewrite <- Hw. unfold close. rewrite Ho'. cbn [snd].
  destruct (walQueue e'); cbn [List.length Nat.eqb walFile]; [|reflexivity].
  change (Buffer_concat []) with (@nil byte). now rewrite app_nil_r.
Qed.

Lemma mutate_other key key' m e e' :
  FastDB.mutate JSON_stringify key m e = Ok e' -> key' <> key ->
  get key' e' = get key' e.
Proof.
  intros H Hne. destruct m as [now v|now]; cbn [FastDB.mutate] in H.
  - unfold FastDB.put in H. destruct (closed e); [discriminate|].
    destruct (serializeRecord JSON_stringify "put" key v); try discriminate.
    injection H as <-. unfold get, applyRecord. cbn [memTable String.eqb Ascii.eqb Bool.eqb].
    now apply lookup_insert_ne.
  - unfold FastDB.del in H. destruct (closed e); [discriminate|].
    destruct (serializeRecord JSON_stringify "del" key (JString "")); try discriminate.
    injection H as <-. unfold get, applyRecord. cbn [memTable String.eqb Ascii.eqb Bool.eqb].
    now apply lookup_delete_ne.
Qed.

(** X9.  Puts and deletes on one key never change what [get] returns for
    another key. *)
Theorem other_keys_are_untouched key key' ms e e' :
  mutate_all key ms e = Ok e' -> key' <> key -> get key' e' = get key' e.
Proof.
  revert e. induction ms as [|m ms IH]; intros e H Hne.
  - now injection H as <-.
  - cbn [FastDB.mutate_all] in H.
    destruct (FastDB.mutate JSON_stringify key m e) as [e1| |] eqn:E1; try discriminate.
    unfold mbind, outcome_bind, bind in H.
    rewrite (IH e1 H Hne). exact (mutate_other key key' m e e1 E1 Hne).
Qed.


(** One event keeps the WAL file a sequence of whole records: the file
    holds the records up to the last flush that wrote, the queue those
    since. *)
Lemma step_flushed L0 ev e d e' d' pre suf :
  closed e = false ->
  walFile d = encode_all (L0 ++ log_of pre) ->
  Buffer_concat (walQueue e) = encode_all (log_of suf) ->
  step ev (e, d) = Ok (e', d') ->
  exists pre' suf',
    pre ++ suf ++ [ev] = pre' ++ suf'
    /\ closed e' = false
    /\ walFile d' = encode_all (L0 ++ log_of pre')
    /\ Buffer_concat (walQueue e') = encode_all (log_of suf').
Proof.
  intros Ho Hfile Hq Hstep.
  assert (Hsnoc : forall b, Buffer_concat (walQueue e ++ [b])
                            = Buffer_concat (walQueue e) ++ b).
  { intros b. unfold Buffer_concat. now rewrite concat_app, (app_nil_r b : concat [b] = b). }
  destruct ev as [now key v|now key| |]; cbn [FastDB.step] in Hstep.
  - unfold FastDB.put in Hstep. rewrite Ho in Hstep.
    destruct (serializeRecord JSON_stringify "put" key v) as [buf| |] eqn:Es;
      try discriminate.
    apply serializeRecord_Ok in Es as (Hk & Hv & ->). injection Hstep as <- <-.
    exists pre, (suf ++ [EvPut now key v]). cbn [closed walQueue].
    split; [reflexivity|]. split; [reflexivity|]. split; [exact Hfile|].
    rewrite Hsnoc, Hq, (log_of_snoc JSON_stringify), encode_all_app.
    f_equal. unfold encode_all, encode, Buffer_concat.
    cbn [FastDB.logged_of List.map concat l_op l_key l_text].
    now rewrite app_nil_r.
  - unfold FastDB.del in Hstep. rewrite Ho in Hstep.
    destruct (serializeRecord JSON_stringify "del" key (JString "")) as [buf| |] eqn:Es;
      try discriminate.
    apply serializeRecord_Ok in Es as (Hk & Hv & ->). injection Hstep as <- <-.
    exists pre, (suf ++ [EvDel now key]). cbn [closed walQueue].
    split; [reflexivity|]. split; [reflexivity|]. split; [exact Hfile|].
    rewrite Hsnoc, Hq, (log_of_snoc JSON_stringify), encode_all_app.
    f_equal. unfold encode_all, encode, Buffer_concat.
    cbn [FastDB.logged_of List.map concat l_op l_key l_text].
    now rewrite app_nil_r.
  - injection Hstep as Hstep. unfold flush in Hstep. rewrite Ho, orb_false_r in Hstep.
    destruct (Nat.eqb (List.length (walQueue e)) 0); injection Hstep as <- <-.
    + exists pre, (suf ++ [EvFlush]).
      split; [reflexivity|]. split; [exact Ho || reflexivity|]. split; [exact Hfile|].
      rewrite Hq, (log_of_snoc JSON_stringify). cbn [FastDB.logged_of].
      now rewrite app_nil_r.
    + exists (pre ++ suf ++ [EvFlush]), []. cbn [closed walQueue walFile].
      split; [now rewrite app_nil_r|]. split; [exact Ho || reflexivity|]. split; [|reflexivity].
      rewrite Hfile, Hq, <- encode_all_app, <- app_assoc.
      rewrite !(log_of_app JSON_stringify). cbn [FastDB.log_of flat_map FastDB.logged_of].
      now rewrite !app_nil_r.
  - injection Hstep as <- <-. unfold snapshot_tick. rewrite Ho.
    exists pre, (suf ++ [EvSnapshot]). cbn [takeSnapshot fst walFile].
    split; [reflexivity|]. split; [exact Ho || reflexivity|]. split; [exact Hfile|].
    rewrite Hq, (log_of_snoc JSON_stringify). cbn [FastDB.logged_of].
    now rewrite app_nil_r.
Qed.

Lemma run_flushed L0 evs : forall e d e' d' pre suf,
  closed e = false ->
  walFile d = encode_all (L0 ++ log_of pre) ->
  Buffer_concat (walQueue e) = encode_all (log_of suf) ->
  run evs (e, d) = Ok (e', d') ->
  exists pre' suf',
    pre ++ suf ++ evs = pre' ++ suf'
    /\ walFile d' = encode_all (L0 ++ log_of pre')
    /\ Buffer_concat (walQueue e') = encode_all (log_of suf').
Proof.
  induction evs as [|ev evs IH]; intros e d e' d' pre suf Ho Hfile Hq Hrun.
  - injection Hrun as <- <-. exists pre, suf. now rewrite app_nil_r.
  - cbn [FastDB.run] in Hrun.
    destruct (step ev (e, d)) as [[e1 d1]| |] eqn:Es; try discriminate.
    unfold mbind, outcome_bind, bind in Hrun.
    destruct (step_flushed L0 ev e d e1 d1 pre suf Ho Hfile Hq Es)
      as (pre1 & suf1 & Hsplit & Ho1 & Hfile1 & Hq1).
    destruct (IH e1 d1 e' d' pre1 suf1 Ho1 Hfile1 Hq1 Hrun)
      as (pre' & suf' & Hsplit' & Hfile' & Hq').
    exists pre', suf'. split; [|now split].
    rewrite <- Hsplit'. rewrite (app_assoc pre1 suf1 evs), <- Hsplit.
    now rewrite <- !app_assoc.
Qed.

(** X11.  A crash between two events never leaves a torn record of the
    process's own making: a flush writes whole records, so the WAL file is
    at any time the records found at open followed by those of the puts and
    deletes up to the last flush that wrote, the queue holds the later
    ones, and opening the directory as the crash left it succeeds and
    re-applies exactly the flushed records on top of the newest snapshot.
    The writes still queued are not in the WAL. *)
Theorem crash_recovers_the_flushed_prefix L0 d0 c0 e0 evs e d clock :
  walFile d0 = encode_all L0 -> Forall well_formed L0 ->
  makeFastDB c0 d0 = Ok e0 ->
  run evs (e0, d0) = Ok (e, d) ->
  exists pre suf,
    evs = pre ++ suf
    /\ walFile d = encode_all (L0 ++ log_of pre)
    /\ Buffer_concat (walQueue e) = encode_all (log_of suf)
    /\ makeFastDB clock d
       = Ok {| memTable := redo clock 0 (L0 ++ log_of pre)
                             (load_snapshot (snapshotFile d) ∅);
               walQueue := []; closed := false |}.
Proof.
  intros Hw Hwf Hopen Hrun.
  rewrite (makeFastDB_clean JSON_parse c0 d0 L0 Hw Hwf) in Hopen.
  injection Hopen as <-.
  pose proof (reached_run JSON_stringify _ _ _ evs _ _ [] _ _
                (reached_start JSON_stringify L0 d0 _ Hw Hwf) Hrun) as Hr.
  cbn [List.app] in Hr.
  assert (Hfile0 : walFile d0 = encode_all (L0 ++ log_of []))
    by (cbn [FastDB.log_of flat_map]; now rewrite app_nil_r).
  destruct (run_flushed L0 evs
              {| memTable := redo c0 0 L0 (load_snapshot (snapshotFile d0) ∅);
                 walQueue := []; closed := false |}
              d0 e d [] [] eq_refl Hfile0 eq_refl Hrun) as
    (pre & suf & Hsplit & Hfile & Hq).
  cbn [List.app] in Hsplit. exists pre, suf.
  split; [exact Hsplit|]. split; [exact Hfile|]. split; [exact Hq|].
  apply (makeFastDB_clean JSON_parse clock d (L0 ++ log_of pre) Hfile).
  pose proof (reached_wf _ _ _ _ _ _ _ Hr) as Hall.
  rewrite Hsplit, (log_of_app JSON_stringify), app_assoc in Hall.
  apply Forall_app in Hall. tauto.
Qed.

End Engine.

(** *** Concrete runs, with the reference JSON reader and printer *)

Lemma wal_replay_round_trip_witness :
  Forall well_formed sample_log
  /\ makeFastDB MiniJSON.parse (fun i => 50 + Z.of_nat i)
       {| walFile := encode_all sample_log; snapshotFile := None |}
     = Ok {| memTable := redo MiniJSON.parse (fun i => 50 + Z.of_nat i) 0
                           sample_log (load_snapshot None ∅);
             walQueue := []; closed := false |}.
Proof.
  assert (H1 : Forall well_formed sample_log).
  { repeat constructor; vm_compute; discriminate. }
  split; [exact H1|].
  exact (wal_replay_round_trip MiniJSON.parse (fun i => 50 + Z.of_nat i)
           sample_log None H1).
Defined.

Lemma torn_header_throws_witness :
  Forall well_formed sample_log
  /\ (0 < List.length [x01; x00; x00] < 9)%nat
  /\ makeFastDB MiniJSON.parse (fun i => 50 + Z.of_nat i)
       {| walFile := encode_all sample_log ++ [x01; x00; x00];
          snapshotFile := None |}
     = Throw RangeError.
Proof.
  assert (H1 : Forall well_formed sample_log).
  { repeat constructor; vm_compute; discriminate. }
  assert (H2 : (0 < List.length [x01; x00; x00] < 9)%nat) by (cbn; lia).
  split; [exact H1|]. split; [exact H2|].
  exact (torn_header_throws MiniJSON.parse (fun i => 50 + Z.of_nat i)
           sample_log [x01; x00; x00] None H1 H2).
Defined.

Lemma recovered_values_are_text_or_structured_witness :
  makeFastDB MiniJSON.parse (fun i => 200 + Z.of_nat i) sample_disk
  = Ok {| memTable := <["o" := {| value := JArray [JNumber "1"]; ts := 202 |}]>
                        {["a" := {| value := JString "1"; ts := 200 |}]};
          walQueue := []; closed := false |}
  /\ forall k r,
       (<["o" := {| value := JArray [JNumber "1"]; ts := 202 |}]>
          {["a" := {| value := JString "1"; ts := 200 |}]}
        : gmap string record) !! k = Some r ->
       load_snapshot (snapshotFile sample_disk) ∅ !! k = Some r
       \/ text_or_structured (value r).
Proof.
  assert (H : makeFastDB MiniJSON.parse (fun i => 200 + Z.of_nat i) sample_disk
              = Ok {| memTable :=
                        <["o" := {| value := JArray [JNumber "1"]; ts := 202 |}]>
                          {["a" := {| value := JString "1"; ts := 200 |}]};
                      walQueue := []; closed := false |})
    by (vm_compute; reflexivity).
  split; [exact H|].
  exact (recovered_values_are_text_or_structured MiniJSON.parse
           (fun i => 200 + Z.of_nat i) sample_disk _ H).
Defined.

Lemma own_snapshots_do_not_change_recovery_witness :
  walFile sample_start = encode_all sample_log
  /\ Forall well_formed sample_log
  /\ makeFastDB MiniJSON.parse (fun i => 50 + Z.of_nat i) sample_start
     = Ok sample_opened
  /\ FastDB.run MiniJSON.stringify sample_events (sample_opened, sample_start)
     = Ok (sample_engine, sample_disk)
  /\ walQueue sample_engine = []
  /\ makeFastDB MiniJSON.parse (fun i => 200 + Z.of_nat i) sample_disk
     = makeFastDB MiniJSON.parse (fun i => 200 + Z.of_nat i)
         {| walFile := walFile sample_disk;
            snapshotFile := snapshotFile sample_start |}.
Proof.
  assert (H1 : Forall well_formed sample_log).
  { repeat constructor; vm_compute; discriminate. }
  assert (H2 : makeFastDB MiniJSON.parse (fun i => 50 + Z.of_nat i) sample_start
               = Ok sample_opened) by (vm_compute; reflexivity).
  assert (H3 : FastDB.run MiniJSON.stringify sample_events
                 (sample_opened, sample_start)
               = Ok (sample_engine, sample_disk)) by (vm_compute; reflexivity).
  split; [reflexivity|]. split; [exact H1|]. split; [exact H2|].
  split; [exact H3|]. split; [reflexivity|].
  exact (own_snapshots_do_not_change_recovery MiniJSON.stringify MiniJSON.parse
           sample_log sample_start (fun i => 50 + Z.of_nat i) sample_opened
           sample_events sample_engine sample_disk (fun i => 200 + Z.of_nat i)
           eq_refl H1 H2 H3 eq_refl).
Defined.

Lemma wal_is_append_only_and_complete_witness :
  closed sample_opened = false
  /\ FastDB.run MiniJSON.stringify sample_events (sample_opened, sample_start)
     = Ok (sample_engine, sample_disk)
  /\ walFile (snd (close sample_engine sample_disk))
     = (walFile sample_start ++ Buffer_concat (walQueue sample_opened))
         ++ encode_all (FastDB.log_of MiniJSON.stringify sample_events).
Proof.
  assert (H : FastDB.run MiniJSON.stringify sample_events
                (sample_opened, sample_start)
              = Ok (sample_engine, sample_disk)) by (vm_compute; reflexivity).
  split; [reflexivity|]. split; [exact H|].
  exact (proj2 (proj2 (wal_is_append_only_and_complete MiniJSON.stringify
                         sample_events sample_opened sample_start sample_engine
                         sample_disk eq_refl H))).
Defined.

Lemma other_keys_are_untouched_witness :
  let e' := {| memTable := memTable sample_opened;
               walQueue := [encode {| l_op := 1; l_key := "k"; l_text := "v" |};
                            encode {| l_op := 2; l_key := "k"; l_text := "" |}];
               closed := false |} in
  FastDB.mutate_all MiniJSON.stringify "k" [Put 1 (JString "v"); Del 2]
    sample_opened = Ok e'
  /\ "a" <> "k"
  /\ get "a" e' = get "a" sample_opened.
Proof.
  intros e'.
  assert (H1 : FastDB.mutate_all MiniJSON.stringify "k"
                 [Put 1 (JString "v"); Del 2] sample_opened = Ok e')
    by (vm_compute; reflexivity).
  assert (H2 : "a" <> "k") by discriminate.
  split; [exact H1|]. split; [exact H2|].
  exact (other_keys_are_untouched MiniJSON.stringify "k" "a"
           [Put 1 (JString "v"); Del 2] sample_opened e' H1 H2).
Defined.


Lemma crash_recovers_the_flushed_prefix_witness :
  walFile sample_start = encode_all sample_log
  /\ Forall well_formed sample_log
  /\ makeFastDB MiniJSON.parse (fun i => 50 + Z.of_nat i) sample_start
     = Ok sample_opened
  /\ FastDB.run MiniJSON.stringify sample_events (sample_opened, sample_start)
     = Ok (sample_engine, sample_disk)
  /\ exists pre suf,
       sample_events = pre ++ suf
       /\ walFile sample_disk
          = encode_all (sample_log ++ FastDB.log_of MiniJSON.stringify pre).
Proof.
  assert (H1 : Forall well_formed sample_log).
  { repeat constructor; vm_compute; discriminate. }
  assert (H2 : makeFastDB MiniJSON.parse (fun i => 50 + Z.of_nat i) sample_start
               = Ok sample_opened) by (vm_compute; reflexivity).
  assert (H3 : FastDB.run MiniJSON.stringify sample_events
                 (sample_opened, sample_start)
               = Ok (sample_engine, sample_disk)) by (vm_compute; reflexivity).
  split; [reflexivity|]. split; [exact H1|]. split; [exact H2|].
  split; [exact H3|].
  destruct (crash_recovers_the_flushed_prefix MiniJSON.stringify MiniJSON.parse
              sample_log sample_start (fun i => 50 + Z.of_nat i) sample_opened
              sample_events sample_engine sample_disk (fun i => 200 + Z.of_nat i)
              eq_refl H1 H2 H3) as (pre & suf & Hs & Hf & _).
  exists pre, suf. split; [exact Hs|exact Hf].
Defined.

End EngineExtras.

(** ** More on the hash ring *)

Module RingExtras.

Import Hash SortFacts HashFacts RingWalk.

Section Ring.

Variable sha1_u32 : string -> Z.

Abbreviation buildRing := (buildRing sha1_u32).
Abbreviation pickNode := (pickNode sha1_u32).
Abbreviation vnode_entries := (vnode_entries sha1_u32).
Abbreviation ascending := (StronglySorted (fun a b => by_key hash a b <= 0)).

(** The binary search ends, whatever the order of the entries, at an index
    between its bounds. *)
Lemma search_bounds ring h : alen ring < 2 ^ 31 ->
  forall fuel lo hi,
    0 <= lo -> lo <= hi + 1 -> hi < alen ring ->
    hi - lo + 1 <= Z.of_nat fuel ->
    exists r, search fuel ring h lo hi = Ok r /\ lo <= r <= hi + 1.
Proof.
  intros Hlen. induction fuel as [|fuel IH]; intros lo hi H0 H1 H2 Hf.
  - cbn [search]. destruct (Z.leb_spec lo hi); [lia|]. exists lo. split; [reflexivity|lia].
  - cbn [search]. destruct (Z.leb_spec lo hi) as [Hle|Hgt].
    + rewrite ushr1_half by lia.
      assert (Hmid : lo <= (lo + hi) / 2 <= hi) by (split; Z.div_mod_to_equations; lia).
      destruct (at_index_in_range ring ((lo + hi) / 2)) as [e He]; [lia|].
      rewrite He. destruct (hash e <? h).
      * destruct (IH ((lo + hi) / 2 + 1) hi) as (r & Hr & Hb); try lia.
        exists r. split; [exact Hr|lia].
      * destruct (IH lo ((lo + hi) / 2 - 1)) as (r & Hr & Hb); try lia.
        exists r. split; [exact Hr|lia].
    + exists lo. split; [reflexivity|lia].
Qed.

(** X12.  On any ring of fewer than 2^31 entries, ordered or not,
    [pickNode] returns: with a [TypeError] when the ring is empty, and with
    the shard of one of the ring's entries otherwise. *)
Theorem pickNode_any_ring ring key :
  alen ring < 2 ^ 31 ->
  (ring = [] -> pickNode ring key = Throw TypeError)
  /\ (ring <> [] -> exists e, In e ring /\ pickNode ring key = Ok (node e)).
Proof.
  intros Hlen. split.
  - intros ->. reflexivity.
  - intros Hne.
    assert (Hpos : 0 < alen ring).
    { destruct ring; [congruence|]. unfold alen. cbn [List.length]. lia. }
    destruct (search_bounds ring (sha1_u32 key) Hlen (S (List.length ring)) 0
                (alen ring - 1)) as (r & Hr & Hb); try (unfold alen in *; lia).
    unfold Hash.pickNode. rewrite Hr. unfold mbind, outcome_bind, bind.
    destruct (at_index ring r) as [e|] eqn:Er.
    + exists e. split; [exact (at_index_In _ _ _ Er)|reflexivity].
    + destruct (at_index_in_range ring 0) as [e0 He0]; [lia|].
      rewrite He0. exists e0. split; [exact (at_index_In _ _ _ He0)|reflexivity].
Qed.

Lemma find_first {A} (p : A -> bool) l : forall n x,
  l !! n = Some x -> p x = true ->
  (forall m y, (m < n)%nat -> l !! m = Some y -> p y = false) ->
  List.find p l = Some x.
Proof.
  induction l as [|a l IH]; intros n x Hn Hp Hbelow; [discriminate|].
  destruct n as [|n]; cbn in Hn.
  - injection Hn as ->. cbn [List.find]. now rewrite Hp.
  - cbn [List.find]. rewrite (Hbelow 0%nat a ltac:(lia) eq_refl).
    apply (IH n x Hn Hp). intros m y Hm Hy. apply (Hbelow (S m) y); [lia|exact Hy].
Qed.

Lemma find_nowhere {A} (p : A -> bool) l :
  (forall y, In y l -> p y = false) -> List.find p l = None.
Proof.
  induction l as [|a l IH]; intros H; [reflexivity|].
  cbn [List.find]. rewrite (H a (or_introl eq_refl)). apply IH.
  intros y Hy. apply H. now right.
Qed.

(** On an ascending ring the binary search of [pickNode] finds what the
    clockwise walk finds. *)
Lemma pickNode_walk ring key :
  ascending ring -> alen ring < 2 ^ 31 ->
  pickNode ring key
  = match clockwise ring (sha1_u32 key) with
    | Some e => Ok (node e)
    | None => Throw TypeError
    end.
Proof.
  intros Hasc Hlen. destruct ring as [|e0 ring'] eqn:Ering; [reflexivity|].
  rewrite <- Ering in *.
  assert (Hpos : 0 < alen ring < 2 ^ 31).
  { split; [|exact Hlen]. rewrite Ering. unfold alen. cbn [List.length]. lia. }
  destruct (pickNode_first sha1_u32 ring key Hasc Hpos)
    as (i & e & He & Hpick & Hcase).
  rewrite Hpick. unfold clockwise.
  destruct Hcase as [[Hge Hbelow]|[-> Hall]].
  - apply at_index_Some in He as [Hi He].
    rewrite (find_first _ ring (Z.to_nat i) e He); [reflexivity| |].
    + now apply Z.leb_le.
    + intros m y Hm Hy. apply Z.leb_gt.
      apply (Hbelow (Z.of_nat m) y); [lia|].
      apply at_index_Some. split; [lia|]. now rewrite Nat2Z.id.
  - rewrite find_nowhere.
    + apply at_index_Some in He as [_ He]. rewrite Ering in He |- *.
      cbn in He. injection He as ->. reflexivity.
    + intros y Hy. apply Z.leb_gt. now apply Hall.
Qed.

Lemma find_filter {A} (p q : A -> bool) l x :
  List.find p l = Some x -> q x = true -> List.find p (List.filter q l) = Some x.
Proof.
  induction l as [|a l IH]; intros Hf Hq; [discriminate|].
  cbn [List.find] in Hf. cbn [List.filter]. destruct (p a) eqn:Ea.
  - injection Hf as ->. rewrite Hq. cbn [List.find]. now rewrite Ea.
  - destruct (q a); [cbn [List.find]; rewrite Ea|]; now apply IH.
Qed.

Lemma find_filter_None {A} (p q : A -> bool) l :
  List.find p l = None -> List.find p (List.filter q l) = None.
Proof.
  induction l as [|a l IH]; intros Hf; [reflexivity|].
  cbn [List.find] in Hf. cbn [List.filter]. destruct (p a) eqn:Ea; [discriminate|].
  destruct (q a); [cbn [List.find]; rewrite Ea|]; now apply IH.
Qed.

Lemma clockwise_filter (q : entry -> bool) ring h e :
  clockwise ring h = Some e -> q e = true ->
  clockwise (List.filter q ring) h = Some e.
Proof.
  unfold clockwise. intros Hc Hq.
  destruct (List.find (fun e => h <=? hash e) ring) as [e'|] eqn:Ef.
  - injection Hc as ->. now rewrite (find_filter _ q ring e Ef Hq).
  - rewrite (find_filter_None _ q ring Ef).
    destruct ring as [|a ring']; [discriminate|]. injection Hc as ->.
    cbn [List.filter]. now rewrite Hq.
Qed.

Lemma ascending_filter (q : entry -> bool) ring :
  ascending ring -> ascending (List.filter q ring).
Proof.
  induction 1 as [|a l Hs IH Ha]; [constructor|].
  cbn [List.filter]. destruct (q a); [|exact IH].
  constructor; [exact IH|]. rewrite List.Forall_forall in *.
  intros y Hy. apply filter_In in Hy as [Hy _]. now apply Ha.
Qed.

Lemma filter_swap {A} (p q : A -> bool) l :
  List.filter p (List.filter q l) = List.filter q (List.filter p l).
Proof.
  induction l as [|a l IH]; [reflexivity|].
  cbn [List.filter]. destruct (p a) eqn:Ep, (q a) eqn:Eq; cbn [List.filter];
    rewrite ?Ep, ?Eq, IH; reflexivity.
Qed.

(** Sorting what is left after a filter is filtering what was sorted. *)
Lemma Array_sort_filter (q : entry -> bool) l :
  Array_sort by_hash (List.filter q l) = List.filter q (Array_sort by_hash l).
Proof.
  destruct (Array_sort_compliant hash (List.filter q l)) as [Hs1 Hf1].
  destruct (Array_sort_compliant hash l) as [Hs2 Hf2].
  apply (stable_sort_unique hash); [exact Hs1|now apply ascending_filter|].
  intros x. etransitivity; [apply Hf1|].
  rewrite filter_swap. etransitivity; [|apply filter_swap].
  f_equal. symmetry. apply Hf2.
Qed.

Lemma entries_without s S V :
  flat_map (fun n => vnode_entries n V) (without s S)
  = List.filter (not_of s) (flat_map (fun n => vnode_entries n V) S).
Proof.
  unfold without. induction S as [|n S IH]; [reflexivity|].
  cbn [flat_map List.filter]. rewrite List.filter_app, <- IH.
  assert (Hn : List.filter (not_of s) (vnode_entries n V)
               = if negb (String.eqb n s) then vnode_entries n V else []).
  { unfold Hash.vnode_entries, not_of.
    induction (seq 0 V) as [|i l IHl]; cbn [List.map List.filter node].
    - now destruct (negb (String.eqb n s)).
    - rewrite IHl. now destruct (negb (String.eqb n s)). }
  rewrite Hn. destruct (negb (String.eqb n s)); reflexivity.
Qed.

Lemma buildRing_without s S V :
  buildRing (without s S) V = List.filter (not_of s) (buildRing S V).
Proof.
  unfold Hash.buildRing, Hash.buildRing_with.
  now rewrite entries_without, Array_sort_filter.
Qed.

(** X13.  Taking a shard out of the list moves only that shard's keys: a
    key whose shard on the ring of [S] is not [s] has the same shard on
    the ring of [S] without [s].  Read from right to left: adding a shard
    to the list moves a key to the new shard or leaves it where it was. *)
Theorem removing_a_shard_moves_only_its_keys S V s key n :
  alen S * Z.of_nat V < 2 ^ 31 ->
  pickNode (buildRing S V) key = Ok n -> n <> s ->
  pickNode (buildRing (without s S) V) key = Ok n.
Proof.
  intros Hlen Hpick Hne.
  assert (Hl : alen (buildRing S V) < 2 ^ 31) by now rewrite buildRing_length.
  rewrite (pickNode_walk _ key (buildRing_ascending sha1_u32 S V) Hl) in Hpick.
  destruct (clockwise (buildRing S V) (sha1_u32 key)) as [e|] eqn:Ec;
    [|discriminate]. injection Hpick as <-.
  rewrite buildRing_without, pickNode_walk.
  - rewrite (clockwise_filter (not_of s) _ _ e Ec); [reflexivity|].
    unfold not_of. apply negb_true_iff, String.eqb_neq. exact Hne.
  - apply ascending_filter, buildRing_ascending.
  - pose proof (List.filter_length_le (not_of s) (buildRing S V)).
    unfold alen in *. lia.
Qed.

(** X14.  The ring [buildRing] returns holds exactly the entries
    [{hash(n#i), n}] for the shards [n] of the list and [0 <= i < vnodes],
    [nodes.length * vnodes] entries in all, in ascending order of
    position. *)
Theorem buildRing_entries S V :
  (forall e, In e (buildRing S V)
     <-> exists n i, In n S /\ (i < V)%nat
           /\ e = {| hash := sha1_u32 (n +:+ "#" +:+ decimal i); node := n |})
  /\ alen (buildRing S V) = alen S * Z.of_nat V
  /\ StronglySorted (fun a b => hash a <= hash b) (buildRing S V).
Proof.
  split; [|split].
  - intros e. unfold Hash.buildRing, Hash.buildRing_with.
    rewrite (compliant_sort_In hash Array_sort _ _ (Array_sort_compliant hash)).
    rewrite in_flat_map. unfold Hash.vnode_entries. split.
    + intros (n & Hn & He). apply in_map_iff in He as (i & <- & Hi).
      apply in_seq in Hi. exists n, i. split; [exact Hn|]. split; [lia|reflexivity].
    + intros (n & i & Hn & Hi & ->). exists n. split; [exact Hn|].
      apply in_map_iff. exists i. split; [reflexivity|]. apply in_seq. lia.
  - apply buildRing_length.
  - pose proof (buildRing_ascending sha1_u32 S V) as H.
    induction H as [|a l Hs IH Ha]; constructor; [exact IH|].
    rewrite List.Forall_forall in *. intros y Hy. specialize (Ha y Hy).
    unfold by_key in Ha. lia.
Qed.

End Ring.

(** *** Concrete rings, with the reference SHA-1 *)

Lemma pickNode_any_ring_witness :
  let ring := [{| hash := 5; node := "B" |}; {| hash := 3; node := "A" |}] in
  alen ring < 2 ^ 31
  /\ ring <> []
  /\ exists e, In e ring /\ pickNode Sha1.sha1_u32 ring "foo" = Ok (node e).
Proof.
  intros ring.
  assert (H1 : alen ring < 2 ^ 31) by (vm_compute; reflexivity).
  assert (H2 : ring <> []) by discriminate.
  split; [exact H1|]. split; [exact H2|].
  exact (proj2 (pickNode_any_ring Sha1.sha1_u32 ring "foo" H1) H2).
Defined.

Lemma removing_a_shard_moves_only_its_keys_witness :
  alen ["A"; "B"; "C"] * Z.of_nat 10 < 2 ^ 31
  /\ pickNode Sha1.sha1_u32 (buildRing Sha1.sha1_u32 ["A"; "B"; "C"] 10) "foo"
     = Ok "A"
  /\ "A" <> "B"
  /\ pickNode Sha1.sha1_u32
       (buildRing Sha1.sha1_u32 (without "B" ["A"; "B"; "C"]) 10) "foo"
     = Ok "A".
Proof.
  assert (H1 : alen ["A"; "B"; "C"] * Z.of_nat 10 < 2 ^ 31)
    by (vm_compute; reflexivity).
  assert (H2 : pickNode Sha1.sha1_u32
                 (buildRing Sha1.sha1_u32 ["A"; "B"; "C"] 10) "foo" = Ok "A")
    by (vm_compute; reflexivity).
  assert (H3 : "A" <> "B") by discriminate.
  split; [exact H1|]. split; [exact H2|]. split; [exact H3|].
  exact (removing_a_shard_moves_only_its_keys Sha1.sha1_u32 ["A"; "B"; "C"] 10
           "B" "foo" "A" H1 H2 H3).
Defined.

End RingExtras.

(** ** More on the shard's request handler *)

Module ShardExtras.

Import FastDB FastDBFacts Shard ShardFacts ShardRequests.

Section Handler.

Variable JSON_stringify : jsvalue -> string.
Variable JSON_parse : string -> option jsvalue.
Variable cfg : config.
Variable net : string -> request -> fetch_result.

Abbreviation forwardWrite := (forwardWrite JSON_stringify cfg net).
Abbreviation poll := (poll cfg).
Abbreviation replicate := (replicate JSON_stringify cfg net).
Abbreviation server := (server JSON_stringify JSON_parse cfg net).
Abbreviation accepted_value := (accepted_value JSON_parse).
Abbreviation put := (put JSON_stringify).
Abbreviation del := (del JSON_stringify).
Abbreviation threshold := (Z.min (quorumSize cfg) (alen (REPLICAS cfg) + 1)).
Abbreviation forwards method key value :=
  (List.map (fun base => forwardWrite method base key value) (REPLICAS cfg)).

Lemma truthy_key key : key <> "" -> truthy (Some key) = true.
Proof. intros H. cbn. destruct key; [congruence|reflexivity]. Qed.

(** What the request listener does with a DELETE and with a GET on
    [/kv]. *)
Lemma server_delete now fuel req DB key :
  method req = "DELETE" -> pathname req = "/kv" ->
  query_key req = Some key -> key <> "" ->
  server now fuel req DB =
    match del now key DB with
    | Ok DB' =>
        (DB',
         r ← (if truthy (headers req !! "x-forwarded-by")
              then Ok local_only
              else replicate fuel "DELETE" key (JString ""));
         Ok (write_reply r))
    | Throw e => (DB, Throw e)
    | Running => (DB, Running)
    end.
Proof.
  intros Hm Hp Hk Hne. unfold Shard.server. rewrite Hm, Hp, Hk.
  cbn [String.eqb Ascii.eqb Bool.eqb andb].
  rewrite (truthy_key key Hne). cbn [negb default]. reflexivity.
Qed.

Lemma server_get now fuel req DB key :
  method req = "GET" -> pathname req = "/kv" ->
  query_key req = Some key -> key <> "" ->
  server now fuel req DB =
    match get key DB with
    | None => (DB, Ok (json 404 BNotFound))
    | Some v => (DB, Ok (json 200 (BFound (value v) (ts v))))
    end.
Proof.
  intros Hm Hp Hk Hne. unfold Shard.server. rewrite Hm, Hp, Hk.
  cbn [String.eqb Ascii.eqb Bool.eqb andb].
  rewrite (truthy_key key Hne). cbn [negb default]. reflexivity.
Qed.

(** X15.  A write that carries a non-empty [x-forwarded-by] header is
    applied to the local engine and answered 200 with
    [{ok: true, acks: 1, quorum: 1}]: the shard does not replicate it,
    whatever its replicas list and quorum are. *)
Theorem forwarded_write_is_local now fuel req DB key :
  pathname req = "/kv" -> query_key req = Some key -> key <> "" ->
  truthy (headers req !! "x-forwarded-by") = true ->
  (method req = "PUT" ->
     forall v DB', accepted_value req = Some v -> put now key v DB = Ok DB' ->
       server now fuel req DB = (DB', Ok (json 200 (BWrite true 1 1))))
  /\ (method req = "DELETE" ->
        forall DB', del now key DB = Ok DB' ->
          server now fuel req DB = (DB', Ok (json 200 (BWrite true 1 1)))).
Proof.
  intros Hp Hk Hne Hfw. split.
  - intros Hm v DB' Hacc Hput.
    rewrite (server_put JSON_stringify JSON_parse cfg net now fuel req DB key
               Hm Hp Hk Hne), Hacc, Hput, Hfw.
    reflexivity.
  - intros Hm DB' Hdel.
    rewrite (server_delete now fuel req DB key Hm Hp Hk Hne), Hdel, Hfw.
    reflexivity.
Qed.

(** X16.  Only a PUT or DELETE on [/kv] with a key changes the engine, and
    then by exactly one [put] or [del] of that key; every other request,
    and every request that is refused or fails, leaves it as it was. *)
Theorem only_writes_change_the_engine now fuel req DB :
  fst (server now fuel req DB) = DB
  \/ (pathname req = "/kv"
      /\ exists key,
           query_key req = Some key /\ key <> ""
           /\ ((method req = "PUT"
                /\ exists v, accepted_value req = Some v
                     /\ put now key v DB = Ok (fst (server now fuel req DB)))
               \/ (method req = "DELETE"
                   /\ del now key DB = Ok (fst (server now fuel req DB))))).
Proof.
  unfold Shard.server.
  destruct (String.eqb (method req) "GET" && String.eqb (pathname req) "/health");
    [now left|].
  destruct (String.eqb (method req) "GET" && String.eqb (pathname req) "/stats");
    [now left|].
  destruct (String.eqb_spec (pathname req) "/kv") as [Hp|Hp]; [|now left].
  destruct (query_key req) as [key|] eqn:Ek; cbn [truthy negb]; [|now left].
  destruct (String.eqb_spec key "") as [->|Hne]; cbn [negb]; [now left|].
  change (default "" (Some key)) with key.
  destruct (String.eqb_spec (method req) "GET") as [Hg|Hg].
  { destruct (get key DB); now left. }
  destruct (String.eqb_spec (method req) "PUT") as [Hm|Hm].
  { fold (accepted_value req).
    destruct (accepted_value req) as [v|] eqn:Ea; [|now left].
    destruct (put now key v DB) as [DB'| |] eqn:Eput; try now left.
    right. split; [exact Hp|]. exists key. split; [reflexivity|]. split; [exact Hne|].
    left. split; [exact Hm|]. exists v. split; [reflexivity|exact Eput]. }
  destruct (String.eqb_spec (method req) "DELETE") as [Hd|Hd]; [|now left].
  destruct (del now key DB) as [DB'| |] eqn:Edel; try now left.
  right. split; [exact Hp|]. exists key. split; [reflexivity|]. split; [exact Hne|].
  right. split; [exact Hd|exact Edel].
Qed.

(** The engine after a PUT and after a DELETE that it takes. *)
Lemma put_handled now fuel req DB key v :
  method req = "PUT" -> pathname req = "/kv" ->
  query_key req = Some key -> key <> "" ->
  accepted_value req = Some v ->
  closed DB = false -> fits_u32 key -> fits_u32 (value_text JSON_stringify v) ->
  fst (server now fuel req DB)
  = {| memTable := <[key := {| value := v; ts := now |}]> (memTable DB);
       walQueue := walQueue DB
         ++ [wal_record 1 (Buffer_from key)
               (Buffer_from (value_text JSON_stringify v))];
       closed := false |}.
Proof.
  intros Hm Hp Hk Hne Hacc Ho Hfk Hfv.
  rewrite (server_put JSON_stringify JSON_parse cfg net now fuel req DB key
             Hm Hp Hk Hne), Hacc.
  now rewrite (put_open JSON_stringify now key v DB Ho Hfk Hfv).
Qed.

Lemma delete_handled now fuel req DB key :
  method req = "DELETE" -> pathname req = "/kv" ->
  query_key req = Some key -> key <> "" ->
  closed DB = false -> fits_u32 key ->
  fst (server now fuel req DB)
  = {| memTable := delete key (memTable DB);
       walQueue := walQueue DB ++ [wal_record 2 (Buffer_from key) []];
       closed := false |}.
Proof.
  intros Hm Hp Hk Hne Ho Hfk.
  rewrite (server_delete now fuel req DB key Hm Hp Hk Hne).
  now rewrite (del_open JSON_stringify now key DB Ho Hfk).
Qed.


(** The polling loop is left only with the threshold reached, and time
    does not run backwards. *)
Lemma poll_Ok fs : fs <> [] ->
  forall fuel k k', poll fuel fs k = Ok k' ->
    threshold <= acks_at fs k' /\ (k <= k')%nat.
Proof.
  intros Hne. induction fuel as [|fuel IH]; intros k k'; cbn [Shard.poll].
  - destruct (Z.ltb_spec (acks_at fs k) threshold); [discriminate|].
    intros [= <-]. split; [assumption|lia].
  - destruct (Z.ltb_spec (acks_at fs k) threshold).
    + rewrite (every_status_false (S k) fs Hne). intros Hp.
      apply IH in Hp. split; [tauto|lia].
    + intros [= <-]. split; [assumption|lia].
Qed.

Lemma allSettled_Ok fs : forall fuel k k',
  allSettled fuel fs k = Ok k' -> (k <= k')%nat.
Proof.
  induction fuel as [|fuel IH]; intros k k'; cbn [allSettled];
    destruct (forallb (settled_by k) fs); try discriminate;
    try (intros [= <-]; lia).
  intros H. apply IH in H. lia.
Qed.

(** X18.  Whatever [replicate] returns is consistent: [acks] counts the
    shard itself and at most every replica, [ok] says that [acks] has
    reached [quorum], and with replicas configured [quorum] is the
    configured quorum and [acks] has reached it or every replica has
    acknowledged. *)
Theorem replicate_result_is_consistent fuel method key value r :
  replicate fuel method key value = Ok r ->
  1 <= acks r <= alen (REPLICAS cfg) + 1
  /\ ok r = (quorum r <=? acks r)
  /\ quorum r = (if Nat.eqb (List.length (REPLICAS cfg)) 0 then 1
                 else quorumSize cfg)
  /\ (REPLICAS cfg <> [] ->
      quorumSize cfg <= acks r \/ acks r = alen (REPLICAS cfg) + 1).
Proof.
  unfold Shard.replicate.
  destruct (REPLICAS cfg) as [|b0 bs] eqn:ER.
  - cbn [List.length Nat.eqb]. intros [= <-]. cbn [acks ok quorum alen List.length].
    unfold alen. cbn [List.length]. repeat split; try lia.
  - cbn [List.length Nat.eqb]. rewrite <- ER.
    set (fs := forwards method key value).
    assert (Hfl : alen fs = alen (REPLICAS cfg))
      by apply (forwards_length JSON_stringify cfg net).
    assert (Hfne : fs <> []) by (unfold fs; rewrite ER; discriminate).
    destruct (Shard.poll cfg fuel fs 0) as [k| |] eqn:Epoll; cbn; try discriminate.
    destruct (poll_Ok fs Hfne fuel 0%nat k Epoll) as [Hth _].
    destruct (Z.leb_spec (quorumSize cfg) (acks_at fs k)) as [Hq|Hq].
    + intros [= <-]. cbn [acks ok quorum].
      pose proof (acks_at_bounds fs k). repeat split; try lia.
    + destruct (allSettled fuel fs k) as [k'| |] eqn:Eall; cbn; try discriminate.
      intros [= <-]. cbn [acks ok quorum].
      pose proof (acks_at_bounds fs k'). pose proof (acks_at_bounds fs k).
      pose proof (acks_at_mono fs k k' (allSettled_Ok fs fuel k k' Eall)).
      repeat split; try lia.
Qed.

(** X19.  When the quorum is within reach of the replicas and is reached
    by time [T], a client's PUT is applied and answered 200 with
    [ok = true], the configured quorum, and a number of acks that is at
    least the quorum and at most the number of nodes. *)
Theorem put_reaching_quorum_is_answered_200 now fuel req DB key value T :
  originating_put JSON_parse req key value ->
  closed DB = false -> fits_u32 key -> fits_u32 (value_text JSON_stringify value) ->
  REPLICAS cfg <> [] -> quorumSize cfg <= alen (REPLICAS cfg) + 1 ->
  quorumSize cfg <= acks_at (forwards "PUT" key value) T -> (T <= fuel)%nat ->
  exists n,
    server now fuel req DB
    = ({| memTable := <[key := {| value := value; ts := now |}]> (memTable DB);
          walQueue := walQueue DB
            ++ [wal_record 1 (Buffer_from key)
                  (Buffer_from (value_text JSON_stringify value))];
          closed := false |},
       Ok (json 200 (BWrite true n (quorumSize cfg))))
    /\ quorumSize cfg <= n <= alen (REPLICAS cfg) + 1.
Proof.
  intros (Hm & Hp & Hk & Hne & Hfw & Hacc) Ho Hfk Hfv Hrep Hq HT Hfuel.
  rewrite (server_put JSON_stringify JSON_parse cfg net now fuel req DB key
             Hm Hp Hk Hne).
  fold (accepted_value req). rewrite Hacc, Hfw.
  rewrite (put_open JSON_stringify now key value DB Ho Hfk Hfv). cbn [negb].
  destruct (replicate_returns_on_quorum JSON_stringify cfg net "PUT" key value T
              Hrep Hq HT fuel Hfuel) as (r & Hr & Hok & Hacks).
  rewrite Hr. cbn. unfold write_reply. rewrite Hok.
  assert (Hquo : quorum r = quorumSize cfg /\ acks r <= alen (REPLICAS cfg) + 1).
  { revert Hr. unfold Shard.replicate.
    destruct (REPLICAS cfg) as [|b0 bs] eqn:ER; [congruence|].
    cbn [List.length Nat.eqb]. rewrite <- ER.
    set (fs := forwards "PUT" key value).
    assert (Hfl : alen fs = alen (REPLICAS cfg))
      by apply (forwards_length JSON_stringify cfg net).
    destruct (Shard.poll cfg fuel fs 0) as [k| |]; cbn; try discriminate.
    destruct (quorumSize cfg <=? acks_at fs k).
    - intros [= <-]. cbn [quorum acks]. pose proof (acks_at_bounds fs k). lia.
    - destruct (allSettled fuel fs k) as [k'| |]; cbn; try discriminate.
      intros [= <-]. cbn [quorum acks]. pose proof (acks_at_bounds fs k'). lia. }
  destruct Hquo as [-> Hle]. exists (acks r). split; [reflexivity|lia].
Qed.

(** X20.  While the acknowledgements stay below
    [min(quorum, replicas + 1)], a client's PUT is applied to the engine
    but never answered: the polling loop of [replicate] has no other way
    out. *)
Theorem put_below_threshold_is_never_answered now req DB key value :
  originating_put JSON_parse req key value ->
  closed DB = false -> fits_u32 key -> fits_u32 (value_text JSON_stringify value) ->
  REPLICAS cfg <> [] ->
  (forall k, acks_at (forwards "PUT" key value) k < threshold) ->
  forall fuel,
    snd (server now fuel req DB) = Running
    /\ get key (fst (server now fuel req DB))
       = Some {| value := value; ts := now |}.
Proof.
  intros (Hm & Hp & Hk & Hne & Hfw & Hacc) Ho Hfk Hfv Hrep Hlow fuel.
  rewrite (server_put JSON_stringify JSON_parse cfg net now fuel req DB key
             Hm Hp Hk Hne).
  fold (accepted_value req). rewrite Hacc, Hfw.
  rewrite (put_open JSON_stringify now key value DB Ho Hfk Hfv). cbn [negb fst snd].
  split.
  - unfold Shard.replicate.
    destruct (REPLICAS cfg) as [|b0 bs] eqn:ER; [congruence|].
    cbn [List.length Nat.eqb]. rewrite <- ER in *.
    rewrite (poll_never_exits cfg); [reflexivity| |exact Hlow].
    rewrite ER. discriminate.
  - unfold get. cbn [memTable]. apply lookup_insert_eq.
Qed.

End Handler.

Section Peers.

Variable JSON_stringify : jsvalue -> string.
Variable JSON_parse : string -> option jsvalue.
Variable origin peer : config.
Variable net : string -> request -> fetch_result.


End Peers.

(** *** Concrete requests, with the reference JSON reader and printer *)

Lemma forwarded_write_is_local_witness :
  let DB' := {| memTable := {["k" := {| value := JString "v"; ts := 100 |}]};
                walQueue := [[x01; x00; x00; x00; x01; x00; x00; x00; x01;
                              x6b; x76]];
                closed := false |} in
  pathname forwarded_put = "/kv" /\ query_key forwarded_put = Some "k"
  /\ "k" <> ""
  /\ truthy (headers forwarded_put !! "x-forwarded-by") = true
  /\ method forwarded_put = "PUT"
  /\ Shard.accepted_value MiniJSON.parse forwarded_put = Some (JString "v")
  /\ put MiniJSON.stringify 100 "k" (JString "v") fresh_engine = Ok DB'
  /\ Shard.server MiniJSON.stringify MiniJSON.parse one_peer peer_down 100 0
       forwarded_put fresh_engine
     = (DB', Ok (json 200 (BWrite true 1 1))).
Proof.
  intros DB'.
  assert (H1 : "k" <> "") by discriminate.
  assert (H2 : truthy (headers forwarded_put !! "x-forwarded-by") = true)
    by (vm_compute; reflexivity).
  assert (H3 : Shard.accepted_value MiniJSON.parse forwarded_put
               = Some (JString "v")) by (vm_compute; reflexivity).
  assert (H4 : put MiniJSON.stringify 100 "k" (JString "v") fresh_engine = Ok DB')
    by (vm_compute; reflexivity).
  repeat (split; [reflexivity|]). split; [exact H1|]. split; [exact H2|].
  split; [reflexivity|]. split; [exact H3|]. split; [exact H4|].
  exact (proj1 (forwarded_write_is_local MiniJSON.stringify MiniJSON.parse
                  one_peer peer_down 100 0%nat forwarded_put fresh_engine "k"
                  eq_refl eq_refl H1 H2)
           eq_refl (JString "v") DB' H3 H4).
Defined.


Lemma replicate_result_is_consistent_witness :
  let r := {| acks := 2; quorum := 3; ok := false |} in
  Shard.replicate MiniJSON.stringify quorum_three peer_up 3 "PUT" "k"
    (JString "v") = Ok r
  /\ 1 <= acks r <= alen (REPLICAS quorum_three) + 1
  /\ ok r = (quorum r <=? acks r).
Proof.
  intros r.
  assert (H : Shard.replicate MiniJSON.stringify quorum_three peer_up 3 "PUT" "k"
                (JString "v") = Ok r) by (vm_compute; reflexivity).
  split; [exact H|].
  destruct (replicate_result_is_consistent MiniJSON.stringify quorum_three
              peer_up 3%nat "PUT" "k" (JString "v") r H) as (Ha & Hok & _).
  split; [exact Ha|exact Hok].
Defined.

Lemma put_reaching_quorum_is_answered_200_witness :
  Shard.originating_put MiniJSON.parse sample_put "k" (JString "v")
  /\ closed fresh_engine = false /\ fits_u32 "k"
  /\ fits_u32 (value_text MiniJSON.stringify (JString "v"))
  /\ REPLICAS one_peer <> []
  /\ quorumSize one_peer <= alen (REPLICAS one_peer) + 1
  /\ quorumSize one_peer
     <= acks_at (List.map (fun base => Shard.forwardWrite MiniJSON.stringify
                                         one_peer peer_up "PUT" base "k"
                                         (JString "v"))
                   (REPLICAS one_peer)) 3
  /\ (3 <= 5)%nat
  /\ exists n,
       snd (Shard.server MiniJSON.stringify MiniJSON.parse one_peer peer_up 100 5
              sample_put fresh_engine)
       = Ok (json 200 (BWrite true n (quorumSize one_peer))).
Proof.
  assert (H1 : Shard.originating_put MiniJSON.parse sample_put "k" (JString "v")).
  { repeat split; try reflexivity. discriminate. }
  assert (H2 : fits_u32 "k") by (vm_compute; discriminate).
  assert (H3 : fits_u32 (value_text MiniJSON.stringify (JString "v")))
    by (vm_compute; discriminate).
  assert (H4 : REPLICAS one_peer <> []) by discriminate.
  assert (H5 : quorumSize one_peer <= alen (REPLICAS one_peer) + 1)
    by (vm_compute; discriminate).
  assert (H6 : quorumSize one_peer
               <= acks_at (List.map (fun base =>
                                       Shard.forwardWrite MiniJSON.stringify
                                         one_peer peer_up "PUT" base "k"
                                         (JString "v"))
                             (REPLICAS one_peer)) 3)
    by (vm_compute; discriminate).
  assert (H7 : (3 <= 5)%nat) by lia.
  split; [exact H1|]. split; [reflexivity|]. split; [exact H2|].
  split; [exact H3|]. split; [exact H4|]. split; [exact H5|].
  split; [exact H6|]. split; [exact H7|].
  destruct (put_reaching_quorum_is_answered_200 MiniJSON.stringify MiniJSON.parse
              one_peer peer_up 100 5%nat sample_put fresh_engine "k" (JString "v")
              3%nat H1 eq_refl H2 H3 H4 H5 H6 H7) as (n & Hs & _).
  exists n. now rewrite Hs.
Defined.

Lemma put_below_threshold_is_never_answered_witness :
  Shard.originating_put MiniJSON.parse sample_put "k" (JString "v")
  /\ closed fresh_engine = false /\ fits_u32 "k"
  /\ fits_u32 (value_text MiniJSON.stringify (JString "v"))
  /\ REPLICAS one_peer <> []
  /\ (forall k,
        acks_at (List.map (fun base => Shard.forwardWrite MiniJSON.stringify
                                         one_peer peer_down "PUT" base "k"
                                         (JString "v"))
                   (REPLICAS one_peer)) k
        < Z.min (quorumSize one_peer) (alen (REPLICAS one_peer) + 1))
  /\ forall fuel,
       snd (Shard.server MiniJSON.stringify MiniJSON.parse one_peer peer_down
              100 fuel sample_put fresh_engine) = Running.
Proof.
  assert (H1 : Shard.originating_put MiniJSON.parse sample_put "k" (JString "v")).
  { repeat split; try reflexivity. discriminate. }
  assert (H2 : fits_u32 "k") by (vm_compute; discriminate).
  assert (H3 : fits_u32 (value_text MiniJSON.stringify (JString "v")))
    by (vm_compute; discriminate).
  assert (H4 : REPLICAS one_peer <> []) by discriminate.
  assert (H5 : forall k,
             acks_at (List.map (fun base => Shard.forwardWrite MiniJSON.stringify
                                              one_peer peer_down "PUT" base "k"
                                              (JString "v"))
                        (REPLICAS one_peer)) k
             < Z.min (quorumSize one_peer) (alen (REPLICAS one_peer) + 1))
    by (intros k; vm_compute; reflexivity).
  split; [exact H1|]. split; [reflexivity|]. split; [exact H2|].
  split; [exact H3|]. split; [exact H4|]. split; [exact H5|].
  intros fuel.
  exact (proj1 (put_below_threshold_is_never_answered MiniJSON.stringify
                  MiniJSON.parse one_peer peer_down 100 sample_put fresh_engine
                  "k" (JString "v") H1 eq_refl H2 H3 H4 H5 fuel)).
Defined.


End ShardExtras.

(** ** More on the router *)

Module RouterExtras.

Import FastDB FastDBFacts Hash HashFacts ShardRequests ShardExtras Cluster.

Section Router.

Variable sha1_u32 : string -> Z.
Variable JSON_stringify : jsvalue -> string.
Variable JSON_parse : string -> option jsvalue.
Variable router : Coordinator.config.

Abbreviation SHARDS := (Coordinator.SHARDS router).
Abbreviation vnodeCount := (Coordinator.vnodeCount router).
Abbreviation ring := (Coordinator.ring sha1_u32 router).
Abbreviation proxy_request := Coordinator.proxy_request.

(** A non-empty shard list with at least one virtual node each gives every
    key a shard of the list. *)
Lemma owner_exists key :
  SHARDS <> [] -> (0 < vnodeCount)%nat ->
  alen SHARDS * Z.of_nat vnodeCount < 2 ^ 31 ->
  exists node, pickNode sha1_u32 ring key = Ok node /\ In node SHARDS.
Proof.
  intros HS HV Hbound. unfold Coordinator.ring.
  assert (Hlen : 0 < alen (buildRing sha1_u32 SHARDS vnodeCount) < 2 ^ 31).
  { rewrite buildRing_length. split; [|exact Hbound].
    destruct SHARDS as [|s S']; [congruence|]. unfold alen. cbn [List.length]. nia. }
  destruct (pickNode_first sha1_u32 _ key
              (buildRing_ascending sha1_u32 SHARDS vnodeCount) Hlen)
    as (i & e & He & Hpick & _).
  exists (node e). split; [exact Hpick|].
  apply (buildRing_node sha1_u32 SHARDS vnodeCount), (at_index_In _ _ _ He).
Qed.

(** What the router does with a request on [/kv] that has a key. *)
Lemma router_kv fetch req key :
  pathname req = "/kv" -> query_key req = Some key -> key <> "" ->
  Coordinator.server sha1_u32 router fetch req
  = (node ← pickNode sha1_u32 ring key;
     if String.eqb (method req) "GET" then fetch node (proxy_request "GET" key "")
     else if String.eqb (method req) "PUT"
     then fetch node (proxy_request "PUT" key (body req))
     else if String.eqb (method req) "DELETE"
     then fetch node (proxy_request "DELETE" key "")
     else Ok (json 405 (BError "method not allowed"))).
Proof.
  intros Hp Hk Hne. unfold Coordinator.server, Coordinator.proxy. rewrite Hp, Hk.
  cbn [String.eqb Ascii.eqb Bool.eqb andb].
  rewrite (truthy_key key Hne). reflexivity.
Qed.

(** X22.  [GET /route] names, for every key, a shard of the configured
    list, and it is to that shard that the router sends every GET, PUT and
    DELETE on [/kv] for the key, whatever the shards answer. *)
Theorem route_names_the_shard_that_serves_the_key key :
  SHARDS <> [] -> (0 < vnodeCount)%nat ->
  alen SHARDS * Z.of_nat vnodeCount < 2 ^ 31 -> key <> "" ->
  exists node,
    In node SHARDS
    /\ (forall fetch req,
          pathname req = "/route" -> method req = "GET" ->
          query_key req = Some key ->
          Coordinator.server sha1_u32 router fetch req
          = Ok (json 200 (BRoute key node)))
    /\ (forall fetch req,
          pathname req = "/kv" -> query_key req = Some key ->
          (method req = "GET" ->
             Coordinator.server sha1_u32 router fetch req
             = fetch node (proxy_request "GET" key ""))
          /\ (method req = "PUT" ->
                Coordinator.server sha1_u32 router fetch req
                = fetch node (proxy_request "PUT" key (body req)))
          /\ (method req = "DELETE" ->
                Coordinator.server sha1_u32 router fetch req
                = fetch node (proxy_request "DELETE" key ""))).
Proof.
  intros HS HV Hbound Hne.
  destruct (owner_exists key HS HV Hbound) as (node & Hpick & Hin).
  exists node. split; [exact Hin|]. split.
  - intros fetch req Hp Hm Hk. unfold Coordinator.server. rewrite Hp, Hm, Hk.
    cbn [String.eqb Ascii.eqb Bool.eqb andb].
    rewrite (truthy_key key Hne). cbn [negb].
    change (default "" (Some key)) with key. now rewrite Hpick.
  - intros fetch req Hp Hk.
    rewrite (router_kv fetch req key Hp Hk Hne), Hpick.
    repeat split; intros ->; reflexivity.
Qed.

Variable shards : string -> Shard.config.
Variable net : string -> request -> fetch_result.
Variable fuel : nat.

Abbreviation answer := (answer JSON_stringify JSON_parse shards net fuel).
Abbreviation handled := (handled JSON_stringify JSON_parse shards net fuel).


End Router.

(** *** The deployment of [start.sh] *)

Lemma route_names_the_shard_that_serves_the_key_witness :
  Coordinator.SHARDS start_sh <> []
  /\ (0 < Coordinator.vnodeCount start_sh)%nat
  /\ alen (Coordinator.SHARDS start_sh)
     * Z.of_nat (Coordinator.vnodeCount start_sh) < 2 ^ 31
  /\ "k" <> ""
  /\ exists node,
       In node (Coordinator.SHARDS start_sh)
       /\ forall fetch,
            Coordinator.server Sha1.sha1_u32 start_sh fetch client_put
            = fetch node (Coordinator.proxy_request "PUT" "k" "v").
Proof.
  assert (H1 : Coordinator.SHARDS start_sh <> []) by discriminate.
  assert (H2 : (0 < Coordinator.vnodeCount start_sh)%nat) by (cbn; lia).
  assert (H3 : alen (Coordinator.SHARDS start_sh)
               * Z.of_nat (Coordinator.vnodeCount start_sh) < 2 ^ 31)
    by (vm_compute; reflexivity).
  assert (H4 : "k" <> "") by discriminate.
  split; [exact H1|]. split; [exact H2|]. split; [exact H3|]. split; [exact H4|].
  destruct (route_names_the_shard_that_serves_the_key Sha1.sha1_u32 start_sh "k"
              H1 H2 H3 H4) as (node & Hin & _ & Hkv).
  exists node. split; [exact Hin|]. intros fetch.
  exact (proj1 (proj2 (Hkv fetch client_put eq_refl eq_refl)) eq_refl).
Defined.


End RouterExtras.
